(** * terminal-banana: the alpha-channel extraction engine of [src/alpha.ts]

    A shallow embedding of the two pixel-level algorithms of [src/alpha.ts]
    ([removeBackgroundLocal], the local chroma key with its corner-sampling
    background estimator, and [extractAlphaTwoPass], difference matting),
    of [parseColor], and of the [--tolerance] check of [src/cli.ts].

    Conventions of the embedding.
    - A JavaScript number is an IEEE 754 binary64 value.  Where the source
      leaves the integers ([Math.sqrt], [/], the comparisons with [0.01],
      [Math.round] of a quotient) the model computes with Rocq's primitive
      binary64 floats, operation for operation.
    - A number that can only be an integer below [2^53] (a byte read from a
      buffer, a difference or a sum of squares of bytes, an offset) is kept
      in [Z], where binary64 arithmetic is exact.  Such a number can also be
      [NaN] (it starts from a read outside the buffer, which gives
      [undefined]): the type [jsnum] adds that case.
    - The tolerance is an integer, as the command line produces it with
      [parseInt].  Its square is compared with sums of squares of byte
      differences, which stay below [2^18]: the comparison in [Z] is the
      comparison of the binary64 numbers, and the tolerance is converted
      to binary64 in the fade branch only, where it is below 442.
    - A [Buffer] is a [Uint8Array]: a list of bytes, read with [readAt]
      ([undefined] outside), written with [writeAt], stdpp's list insert (a
      write outside is dropped, as a typed array drops it) after [ToUint8].
    - What [sharp(path).ensureAlpha().raw().toBuffer()] resolves to is a
      [Decoded] value; reading the file and writing the PNG are left out.

    The claims are proved in three layers: the binary64 pipelines are run on
    every value their integer input can take ([Exhaustive]); the order of
    binary64 values and the sign of a quotient come from the Standard
    Library's specification of the primitive floats ([FloatOrder]); the
    formulas of the specification are stated over the real numbers ([Spec])
    and reduced to integer inequalities ([SpecFacts]).

    The code around the engines ([parseArgs] and the handlers of
    [src/cli.ts], [detectMimeType] of [src/gemini.ts], [maskApiKey] and the
    key-entry listener of [src/config.ts], the revision of
    [extractAlphaTwoPass] kept in [src/utils.ts]) is embedded after them,
    and further properties of the whole are proved at the end. *)

From Stdlib Require Import ZArith Lia Uint63 Floats Reals Lra Psatz.
From stdpp Require Import base tactics option list strings.

Set Warnings "-inexact-float".

#[local] Open Scope Z_scope.

(** ** JavaScript numbers *)

Module JS.

(** An integer-valued JavaScript number, or [NaN] ([None]). *)
Definition jsnum : Type := option Z.

(** The binary64 value of an integer; exact for [|z| < 2^53]. *)
Definition num (z : Z) : float :=
  if z <? 0 then (- of_uint63 (Uint63.of_Z (- z)))%float
  else of_uint63 (Uint63.of_Z z).

Definition toFloat (n : jsnum) : float :=
  match n with
  | Some z => num z
  | None => nan
  end.

(** [Math.round]: the integer nearest to [x], a tie going towards
    [+Infinity].  [NaN] and the infinities are returned unchanged by
    JavaScript; they are [None] here.  The exact value of a finite float is
    [(-1)^s * m * 2^e]. *)
Definition Math_round (x : float) : jsnum :=
  match Prim2SF x with
  | S754_zero _ => Some 0
  | S754_infinity _ | S754_nan => None
  | S754_finite s m e =>
      let sm := if s then Z.neg m else Z.pos m in
      if 0 <=? e then Some (Z.shiftl sm e)
      else Some (Z.shiftr (2 * sm + Z.shiftl 1 (- e)) (1 - e))
  end.

(** [Math.min] of two numbers: [NaN] if either is, and [-0] below [+0]. *)
Definition Math_min (a b : float) : float :=
  if is_nan a || is_nan b then nan
  else if (b <? a)%float then b
  else if (a <? b)%float then a
  else if get_sign a then a else b.

(** The conversion a [Uint8Array] applies to a number stored in it. *)
Definition ToUint8 (v : jsnum) : Z :=
  match v with
  | Some n => n mod 256
  | None => 0
  end.

(** [buf[off]] on a [Uint8Array]: [undefined] outside the buffer. *)
Definition readAt (buf : list Z) (off : Z) : jsnum :=
  if off <? 0 then None else buf !! Z.to_nat off.

(** [buf[off] = v] on a [Uint8Array]. *)
Definition writeAt (buf : list Z) (off : Z) (v : jsnum) : list Z :=
  if off <? 0 then buf else <[Z.to_nat off := ToUint8 v]> buf.

(** Integer arithmetic that lets [NaN] through. *)
Definition sub (a b : jsnum) : jsnum := x ← a; y ← b; Some (x - y).
Definition add (a b : jsnum) : jsnum := x ← a; y ← b; Some (x + y).
Definition mul (a b : jsnum) : jsnum := x ← a; y ← b; Some (x * y).

End JS.

Import JS.

(** ** Decoded images and errors *)

(** What [sharp(path).ensureAlpha().raw().toBuffer({resolveWithObject:
    true})] resolves to: the raw buffer and, of [info], the two dimensions
    ([info.channels] is 4 after [ensureAlpha]). *)
Record Decoded : Type := mkDecoded {
  data : list Z;
  width : Z;
  height : Z;
}.

Definition is_byte (z : Z) : Prop := 0 <= z <= 255.

(** The contract of the decoder: interleaved RGBA, 8 bits a channel, row
    major, no padding, and no empty image. *)
Record raw_rgba (img : Decoded) : Prop := mkRaw {
  raw_width : 1 <= width img;
  raw_height : 1 <= height img;
  raw_length : Z.of_nat (length (data img)) = width img * height img * 4;
  raw_bytes : Forall is_byte (data img);
}.

(** The errors of the engine and of the command line in front of it:
    ['Dimension mismatch: Images must be identical size'],
    ['Invalid hex color: ...'] and ['Invalid tolerance: must be 0-255']. *)
Inductive Error : Type :=
  | DimensionMismatch
  | InvalidColor
  | InvalidTolerance.

Record Color : Type := mkColor {
  r : jsnum;
  g : jsnum;
  b : jsnum;
}.

(** The RGB numbers of pixel [i], as the loops read them. *)
Definition rgbAt (buf : list Z) (i : Z) : jsnum * jsnum * jsnum :=
  let offset := i * 4 in
  (readAt buf offset, readAt buf (offset + 1), readAt buf (offset + 2)).

(** [dr * dr + dg * dg + db * db] *)
Definition sumSquares (dr dg db : jsnum) : jsnum :=
  add (add (mul dr dr) (mul dg dg)) (mul db db).

(** ** Difference matting: [extractAlphaTwoPass] *)

Module Matting.

(** [Math.sqrt(3 * 255 * 255)], the distance between white and black. *)
Definition bgDist : float := PrimFloat.sqrt (num (3 * 255 * 255)).

(** Line 184: [Math.sqrt(drWB * drWB + dgWB * dgWB + dbWB * dbWB)] *)
Definition pixelDist (sumSq : jsnum) : float := PrimFloat.sqrt (toFloat sumSq).

(** Lines 188-192: the alpha of a pixel, clamped to [0, 1]. *)
Definition alphaOf (pixelDist : float) : float :=
  let alpha := (1 - pixelDist / bgDist)%float in
  let alpha := if (alpha <? 0)%float then 0%float else alpha in
  let alpha := if (1 <? alpha)%float then 1%float else alpha in
  alpha.

(** Lines 197-207: the colour recovered from the pass on black. *)
Definition recover (alpha : float) (rB gB bB : jsnum) : float * float * float :=
  if (0.01 <? alpha)%float
  then ((toFloat rB / alpha)%float, (toFloat gB / alpha)%float,
        (toFloat bB / alpha)%float)
  else (0%float, 0%float, 0%float).

(** Lines 181-184: the distance between the two observations of a pixel. *)
Definition distOf (pW pB : jsnum * jsnum * jsnum) : float :=
  let '(rW, gW, bW) := pW in
  let '(rB, gB, bB) := pB in
  let drWB := sub rW rB in
  let dgWB := sub gW gB in
  let dbWB := sub bW bB in
  pixelDist (sumSquares drWB dgWB dbWB).

(** The four numbers one iteration hands to the output buffer. *)
Definition pixelOut (pW pB : jsnum * jsnum * jsnum)
  : jsnum * jsnum * jsnum * jsnum :=
  let '(rB, gB, bB) := pB in
  let alpha := alphaOf (distOf pW pB) in
  let '(rOut, gOut, bOut) := recover alpha rB gB bB in
  (Math_round (Math_min 255 rOut), Math_round (Math_min 255 gOut),
   Math_round (Math_min 255 bOut), Math_round (alpha * 255)%float).

(** One iteration of the loop of lines 168-213. *)
Definition step (dataWhite dataBlack outputBuffer : list Z) (i : Z) : list Z :=
  let offset := i * 4 in
  let '(o0, o1, o2, o3) := pixelOut (rgbAt dataWhite i) (rgbAt dataBlack i) in
  let outputBuffer := writeAt outputBuffer offset o0 in
  let outputBuffer := writeAt outputBuffer (offset + 1) o1 in
  let outputBuffer := writeAt outputBuffer (offset + 2) o2 in
  writeAt outputBuffer (offset + 3) o3.

Definition extractAlphaTwoPass (imgOnWhite imgOnBlack : Decoded)
  : Error + Decoded :=
  let dataWhite := data imgOnWhite in
  let meta := imgOnWhite in
  let dataBlack := data imgOnBlack in
  if negb (length dataWhite =? length dataBlack)%nat then inl DimensionMismatch
  else
    let outputBuffer := replicate (length dataWhite) 0 in
    let pixelCount := width meta * height meta in
    let outputBuffer :=
      foldl (step dataWhite dataBlack) outputBuffer (seqZ 0 pixelCount) in
    inr (mkDecoded outputBuffer (width meta) (height meta)).

End Matting.

(** ** The local chroma key: [removeBackgroundLocal] *)

Module ChromaKey.

(** The character ['#']. *)
Definition hash : Ascii.ascii := Ascii.ascii_of_N 35.

(** [color.replace('#', '')]: the first ['#'] only. *)
Fixpoint removeFirstHash (s : string) : string :=
  match s with
  | EmptyString => EmptyString
  | String c s' => if Ascii.eqb c hash then s' else String c (removeFirstHash s')
  end.

(** One character of [[0-9a-fA-F]] and its value. *)
Definition hexDigit (c : Ascii.ascii) : option Z :=
  let n := Z.of_N (Ascii.N_of_ascii c) in
  if (48 <=? n) && (n <=? 57) then Some (n - 48)
  else if (65 <=? n) && (n <=? 70) then Some (n - 55)
  else if (97 <=? n) && (n <=? 102) then Some (n - 87)
  else None.

Definition hexPair (c1 c2 : Ascii.ascii) : option Z :=
  x ← hexDigit c1; y ← hexDigit c2; Some (16 * x + y).

Definition parseColor (color : string) : Error + Color :=
  if String.eqb color "white" then inr (mkColor (Some 255) (Some 255) (Some 255))
  else if String.eqb color "black" then inr (mkColor (Some 0) (Some 0) (Some 0))
  else
    match String.list_ascii_of_string (removeFirstHash color) with
    | [c1; c2; c3; c4; c5; c6] =>
        match hexPair c1 c2, hexPair c3 c4, hexPair c5 c6 with
        | Some r, Some g, Some b => inr (mkColor (Some r) (Some g) (Some b))
        | _, _, _ => inl InvalidColor
        end
    | _ => inl InvalidColor
    end.

(** Lines 76-92: the four corner offsets and the rounded channel means. *)
Definition corners (info : Decoded) : list Z :=
  [ 0;
    (width info - 1) * 4;
    (height info - 1) * width info * 4;
    ((height info - 1) * width info + (width info - 1)) * 4 ].

Definition cornerSum (buf : list Z) (offsets : list Z) (channel : Z) : jsnum :=
  foldl (fun sum offset => add sum (readAt buf (offset + channel))) (Some 0) offsets.

Definition estimateBackground (img : Decoded) : Color :=
  let rSum := cornerSum (data img) (corners img) 0 in
  let gSum := cornerSum (data img) (corners img) 1 in
  let bSum := cornerSum (data img) (corners img) 2 in
  mkColor (Math_round (toFloat rSum / 4)%float)
          (Math_round (toFloat gSum / 4)%float)
          (Math_round (toFloat bSum / 4)%float).

(** [a <= b] on numbers: false as soon as one is [NaN]. *)
Definition numLe (a : jsnum) (b : Z) : bool :=
  match a with
  | Some x => x <=? b
  | None => false
  end.

(** The branch of lines 114-122 a squared distance selects. *)
Inductive Band : Type :=
  | Transparent
  | Fade
  | Opaque.

Definition band (distSquared : jsnum) (tolerance : Z) : Band :=
  let toleranceSquared := tolerance * tolerance in
  let doubleToleranceSquared := (tolerance * 2) * (tolerance * 2) in
  if numLe distSquared toleranceSquared then Transparent
  else if numLe distSquared doubleToleranceSquared then Fade
  else Opaque.

Definition alphaOf (distSquared : jsnum) (tolerance : Z) : float :=
  match band distSquared tolerance with
  | Transparent => 0%float
  | Fade =>
      let dist := PrimFloat.sqrt (toFloat distSquared) in
      ((dist - num tolerance) / num tolerance)%float
  | Opaque => 1%float
  end.

Definition distSquaredOf (px : jsnum * jsnum * jsnum) (bgColor : Color) : jsnum :=
  let '(pr, pg, pb) := px in
  let dr := sub pr (r bgColor) in
  let dg := sub pg (g bgColor) in
  let db := sub pb (b bgColor) in
  sumSquares dr dg db.

(** The number one iteration stores in the alpha byte of a pixel. *)
Definition pixelAlpha (px : jsnum * jsnum * jsnum) (bgColor : Color)
    (tolerance : Z) : jsnum :=
  Math_round (alphaOf (distSquaredOf px bgColor) tolerance * 255)%float.

(** One iteration of the loop of lines 99-126, on the buffer itself. *)
Definition step (bgColor : Color) (tolerance : Z) (buf : list Z) (i : Z)
  : list Z :=
  let offset := i * 4 in
  writeAt buf (offset + 3) (pixelAlpha (rgbAt buf i) bgColor tolerance).

(** [!options.bgColor || options.bgColor === 'auto'] *)
Definition isAuto (bgColor : option string) : bool :=
  match bgColor with
  | None => true
  | Some s => String.eqb s "" || String.eqb s "auto"
  end.

(** Lines 73-95: the background colour of a call. *)
Definition chooseBackground (input : Decoded) (optBgColor : option string)
  : Error + Color :=
  if isAuto optBgColor then inr (estimateBackground input)
  else parseColor (default "" optBgColor).

Definition removeBackgroundLocal (input : Decoded) (optBgColor : option string)
    (optTolerance : option Z) : Error + Decoded :=
  let tolerance := default 30 optTolerance in
  let info := input in
  match chooseBackground input optBgColor with
  | inl e => inl e
  | inr bgColor =>
      let pixelCount := width info * height info in
      let buf := foldl (step bgColor tolerance) (data input) (seqZ 0 pixelCount) in
      inr (mkDecoded buf (width info) (height info))
  end.

End ChromaKey.

(** ** The command line: the tolerance check of [parseArgs]
    ([src/cli.ts]) and the default background of
    [extractTransparencyFromImage] ([src/alpha.ts]) *)

Module Cli.

(** Lines 192-197, on the result [tol] of [parseInt(args[++i], 10)]
    ([None] is [NaN]); [printError] ends the process. *)
Definition checkTolerance (tol : jsnum) : Error + Z :=
  match tol with
  | None => inl InvalidTolerance
  | Some t => if (t <? 0) || (255 <? t) then inl InvalidTolerance else inr t
  end.

(** [options.bgColor || 'auto'] in [extractTransparencyFromImage]. *)
Definition orAuto (bgColor : option string) : string :=
  match bgColor with
  | None => "auto"
  | Some s => if String.eqb s "" then "auto" else s
  end.

End Cli.

(** ** The arithmetic of the specification, over the real numbers

    These definitions follow the words of the specification, not the code:
    the code is compared with them. *)

Module Spec.

#[local] Open Scope R_scope.

(** Rounding to the nearest integer, a tie going up: [floor (x + 1/2)]. *)
Definition round (x : R) : Z := Int_part (x + / 2).

Definition clamp (x lo hi : R) : R := Rmax lo (Rmin hi x).

(** The Euclidean distance between two RGB triples. *)
Definition pixelDist (W B : Z * Z * Z) : R :=
  let '(rW, gW, bW) := W in
  let '(rB, gB, bB) := B in
  sqrt ((IZR rW - IZR rB) ^ 2 + (IZR gW - IZR gB) ^ 2 + (IZR bW - IZR bB) ^ 2).

(** [bgDist = sqrt(3 * 255^2)] *)
Definition bgDist : R := sqrt (3 * 255 ^ 2).

(** [round(clamp(1 - pixelDist / bgDist, 0, 1) * 255)] *)
Definition alphaByte (pixelDist : R) : Z :=
  round (clamp (1 - pixelDist / bgDist) 0 1 * 255).

(** [round(sum / 4)], the rounded mean of four corner values. *)
Definition mean4 (sum : Z) : Z := round (IZR sum / 4).

End Spec.

(** ** Auxiliary notions for the proofs *)

(** The sign carried by a binary64 value that is not [NaN]. *)
Definition sign_is (s : bool) (x : spec_float) : Prop :=
  match x with
  | S754_zero s' | S754_infinity s' | S754_finite s' _ _ => s' = s
  | S754_nan => False
  end.

(** Zero or a positive finite number. *)
Definition nonneg_finite (x : float) : bool :=
  match Prim2SF x with
  | S754_zero false | S754_finite false _ _ => true
  | _ => false
  end.

(** A pixel of bytes as the loops read it from a buffer. *)
Definition read3 (p : Z * Z * Z) : jsnum * jsnum * jsnum :=
  let '(pr, pg, pb) := p in (Some pr, Some pg, Some pb).

(** One of the four numbers a pixel is made of, by its position. *)
Definition component (k : Z) (o : jsnum * jsnum * jsnum * jsnum) : jsnum :=
  let '(o0, o1, o2, o3) := o in
  if k =? 0 then o0 else if k =? 1 then o1 else if k =? 2 then o2 else o3.

(** ** Decision procedures run over the whole input range

    A pixel channel is one of 256 values, so the sum of three squared
    channel differences is one of [0 .. 3 * 255^2]: what the binary64
    pipeline does is decided by running it on every such value. *)

Module Exhaustive.

(** [P lo && P (lo + 1) && ... && P (lo + n - 1)] *)
Fixpoint forallZ (lo : Z) (n : nat) (P : Z -> bool) : bool :=
  match n with
  | O => true
  | S n' => P lo && forallZ (lo + 1) n' P
  end.

(** The largest sum of squares: [3 * 255^2]. *)
Definition maxSumSq : Z := 195075.

(** The largest squared distance of the fade band: [(2 * 255)^2]. *)
Definition maxBandSq : Z := 260100.

(** The alpha byte of difference matting is [255 - m] with [m] the
    integer nearest to [sqrt (sumSq / 3)]. *)
Definition matteAlphaOk (sumSq : Z) : bool :=
  match Math_round (Matting.alphaOf (Matting.pixelDist (Some sumSq)) * 255)%float with
  | Some k =>
      let m := 255 - k in
      (0 <=? k) && (k <=? 255)
      && ((k =? 255) || (3 * (2 * m - 1) * (2 * m - 1) <? 4 * sumSq))
      && (4 * sumSq <? 3 * (2 * m + 1) * (2 * m + 1))
  | None => false
  end.

(** The alpha of difference matting is on one side of the guard [0.01]. *)
Definition guardOk (sumSq : Z) : bool :=
  let alpha := Matting.alphaOf (Matting.pixelDist (Some sumSq)) in
  (alpha <=? 0.01)%float || (0.01 <? alpha)%float.

(** [Math.sqrt] separates consecutive integers. *)
Definition sqrtStepOk (n : Z) : bool :=
  (PrimFloat.sqrt (num n) <? PrimFloat.sqrt (num (n + 1)))%float.

(** A byte divided by an alpha of 1 and rounded is that byte. *)
Definition opaqueOk (cB : Z) : bool :=
  match Math_round (Math_min 255 (num cB / 1)%float) with
  | Some k => k =? cB
  | None => false
  end.

(** The binary64 value of a byte is zero or positive. *)
Definition byteNumOk (cB : Z) : bool := nonneg_finite (num cB).

(** One channel of [Matting.recover]. *)
Definition channelOf (alpha : float) (cB : Z) : float :=
  if (0.01 <? alpha)%float then (num cB / alpha)%float else 0%float.

(** The rounded mean of four corner bytes, computed in binary64, is
    [floor ((sum + 2) / 4)]. *)
Definition meanOk (sum : Z) : bool :=
  match Math_round (num sum / 4)%float with
  | Some k => k =? (sum + 2) / 4
  | None => false
  end.

(** A tolerance from 1 to 255 is not zero as a binary64 number. *)
Definition divisorOk (tolerance : Z) : bool :=
  negb (num tolerance =? 0)%float.

(** The alpha of the fade band: [(Math.sqrt(distSquared) - tolerance) /
    tolerance]. *)
Definition fadeAlpha (tolerance distSquared : Z) : float :=
  ((PrimFloat.sqrt (num distSquared) - num tolerance) / num tolerance)%float.



(** 255 times an alpha lies between 0 and 255. *)
Definition scaledOk (a : float) : bool :=
  (0 <=? a * 255)%float && (a * 255 <=? 255)%float.

(** [fadeAlpha] on a tolerance already in binary64 and a squared distance
    held in a machine integer, for the run over all bands. *)
Definition fadeAlphaI (tolerance : float) (distSquared : PrimInt63.int) : float :=
  ((PrimFloat.sqrt (of_uint63 distSquared) - tolerance) / tolerance)%float.

(** From [distSquared] on and [n] times, the alpha of the fade band is
    above the alpha [prev] of the squared distance before, and within
    range. *)
Fixpoint ascending (tolerance : float) (prev : float) (distSquared : PrimInt63.int)
    (n : nat) : bool :=
  match n with
  | O => true
  | S n' =>
      let a := fadeAlphaI tolerance distSquared in
      (prev <? a)%float && scaledOk a
      && ascending tolerance a (distSquared + 1)%uint63 n'
  end.

(** The whole band of a tolerance, from [T^2 + 1] to [(2 T)^2]. *)
Definition bandOk (tolerance : Z) : bool :=
  ascending (num tolerance)
            (fadeAlphaI (num tolerance) (Uint63.of_Z (tolerance * tolerance)))
            (Uint63.of_Z (tolerance * tolerance + 1))
            (Z.to_nat (3 * tolerance * tolerance)).

End Exhaustive.

(** ** Sample images *)

Module Samples.

(** Two pixels on white: a transparent one and an opaque one. *)
Definition onWhite : Decoded :=
  mkDecoded [255; 255; 255; 255;  200; 100; 50; 255] 2 1.

(** The same two pixels on black. *)
Definition onBlack : Decoded :=
  mkDecoded [0; 0; 0; 255;  200; 100; 50; 255] 2 1.

(** The pass on black, decoded with its sides exchanged: 1 by 2. *)
Definition onBlackTransposed : Decoded :=
  mkDecoded [0; 0; 0; 255;  200; 100; 50; 255] 1 2.

(** Three by two, green in three corners, with an edge pixel and a red
    pixel. *)
Definition green : Decoded :=
  mkDecoded [0; 255; 0; 255;  10; 250; 5; 255;  0; 255; 0; 255;
             30; 220; 30; 7;  255; 0; 0; 255;  0; 255; 0; 255] 3 2.

End Samples.

(** ** The code around the engines

    What follows embeds the code the two engines are reached through: the
    model table [getModelsForMethod] of [src/alpha.ts], [parseArgs] and the
    handlers of the transparency commands of [src/cli.ts], [detectMimeType]
    of [src/gemini.ts], [maskApiKey] and the key-entry listener of
    [src/config.ts].  The calls of the API, the files and the terminal are
    left out: a handler is embedded up to the call it makes.

    A JavaScript string is a sequence of UTF-16 code units.  A Rocq string
    stands for a string whose code units are all below 256, one character
    for one code unit: [length], [slice], [===], [startsWith] and the
    comparison [>=] are those of the sequence. *)

(** ** [parseInt] and the string methods the code calls *)

Module JSString.

Definition code (c : Ascii.ascii) : Z := Z.of_N (Ascii.N_of_ascii c).

(** The white space and line terminators [parseInt] skips, among the code
    units below 256: TAB, LF, VT, FF, CR, SP and NBSP. *)
Definition isWhiteSpace (c : Ascii.ascii) : bool :=
  let n := code c in
  ((9 <=? n) && (n <=? 13)) || (n =? 32) || (n =? 160).

Fixpoint trimStart (s : string) : string :=
  match s with
  | EmptyString => EmptyString
  | String c s' => if isWhiteSpace c then trimStart s' else s
  end.

Definition decimalDigit (c : Ascii.ascii) : option Z :=
  let n := code c in
  if (48 <=? n) && (n <=? 57) then Some (n - 48) else None.

(** The value of the longest prefix of [s] made of decimal digits, after
    the digits already read ([acc]); [None] when there is no digit. *)
Fixpoint digitsValue (s : string) (acc : option Z) : option Z :=
  match s with
  | EmptyString => acc
  | String c s' =>
      match decimalDigit c with
      | Some d => digitsValue s' (Some (10 * default 0 acc + d))
      | None => acc
      end
  end.

(** [parseInt(s, 10)]: leading white space is skipped, one sign is read,
    then the digits up to the first character that is not one; [NaN]
    ([None]) without a digit.  The result is the integer written; a
    JavaScript number keeps it exactly up to [2^53], and rounds it above,
    which no comparison with a smaller integer can tell; [-0] is [0]. *)
Definition parseInt (s : string) : jsnum :=
  match trimStart s with
  | EmptyString => None
  | String c rest =>
      if code c =? 45 then n ← digitsValue rest None; Some (- n)
      else if code c =? 43 then digitsValue rest None
      else digitsValue (String c rest) None
  end.

(** [s.slice(0, -1)] *)
Definition dropLast (s : string) : string :=
  String.substring 0 (String.length s - 1) s.

(** [s.slice(-n)] *)
Definition sliceLast (n : nat) (s : string) : string :=
  String.substring (String.length s - n) n s.

(** [s >= ' '], the comparison of strings code unit by code unit. *)
Definition geSpace (s : string) : bool := String.leb " " s.

(** Truthiness of a value that is a string or [undefined]. *)
Definition truthy (s : option string) : bool :=
  match s with
  | Some s => negb (String.eqb s "")
  | None => false
  end.

End JSString.

(** ** [src/gemini.ts]: models and [detectMimeType] *)

Module Gemini.

(** ['nano-banana' | 'nano-banana-pro'] *)
Inductive Model : Type :=
  | NanoBanana
  | NanoBananaPro.

Definition MODELS (model : Model) : string :=
  match model with
  | NanoBanana => "gemini-2.5-flash-image"
  | NanoBananaPro => "gemini-3-pro-image-preview"
  end.

(** [ImageConfig] *)
Record ImageConfig : Type := mkImageConfig {
  aspectRatio : option string;
  imageSize : option string;
}.

(** [buffer[index] === value]; a read outside the buffer gives
    [undefined], which is no number. *)
Definition byteIs (buffer : list Z) (index value : Z) : bool :=
  match readAt buffer index with
  | Some x => x =? value
  | None => false
  end.

Definition detectMimeType (buffer : list Z) : string :=
  if byteIs buffer 0 0x89 && byteIs buffer 1 0x50 && byteIs buffer 2 0x4E
     && byteIs buffer 3 0x47
  then "image/png"
  else if byteIs buffer 0 0xFF && byteIs buffer 1 0xD8 && byteIs buffer 2 0xFF
  then "image/jpeg"
  else if byteIs buffer 0 0x47 && byteIs buffer 1 0x49 && byteIs buffer 2 0x46
          && byteIs buffer 3 0x38
  then "image/gif"
  else if byteIs buffer 0 0x52 && byteIs buffer 1 0x49 && byteIs buffer 2 0x46
          && byteIs buffer 3 0x46
          && byteIs buffer 8 0x57 && byteIs buffer 9 0x45 && byteIs buffer 10 0x42
          && byteIs buffer 11 0x50
  then "image/webp"
  else "image/png".

End Gemini.

(** ** [src/utils.ts]: the types of image *)

Module Utils.

(** ['image' | 'icon' | 'logo' | 'ui'] *)
Inductive ImageType : Type :=
  | Image
  | Icon
  | Logo
  | UI.

End Utils.

(** ** [src/alpha.ts]: the models of a transparency method *)

Module Methods.

Import Gemini.

(** ['pro-pro' | 'pro-flash' | 'flash-flash' | 'local'] *)
Inductive TransparentMethod : Type :=
  | ProPro
  | ProFlash
  | FlashFlash
  | Local.

#[global] Instance TransparentMethod_eq_dec : EqDecision TransparentMethod.
Proof. solve_decision. Defined.

Record Models : Type := mkModels {
  generate : Model;
  edit : Model;
}.

Definition getModelsForMethod (method : TransparentMethod) : Models :=
  match method with
  | ProPro => mkModels NanoBananaPro NanoBananaPro
  | ProFlash => mkModels NanoBananaPro NanoBanana
  | FlashFlash => mkModels NanoBanana NanoBanana
  | Local => mkModels NanoBanana NanoBanana
  end.

End Methods.

(** ** [src/config.ts]: [maskApiKey] and the key-entry handler *)

Module Config.

Import JSString.

Definition maskApiKey (key : string) : string :=
  if (String.length key <=? 8)%nat then "****"
  else String.substring 0 4 key +:+ "..." +:+ sliceLast 4 key.

(** What a chunk of input leaves the prompt in: still reading, with the
    characters kept so far; resolved with them; or the process ended
    (Ctrl+C). *)
Inductive Entry : Type :=
  | Reading (input : string)
  | Resolved (input : string)
  | Exited.

Definition newline : string := String (Ascii.ascii_of_N 10) EmptyString.
Definition carriageReturn : string := String (Ascii.ascii_of_N 13) EmptyString.
Definition ctrlC : string := String (Ascii.ascii_of_N 3) EmptyString.
Definition del : string := String (Ascii.ascii_of_N 127) EmptyString.
Definition backspace : string := String (Ascii.ascii_of_N 8) EmptyString.

(** [onData], the listener of [promptForApiKey] (lines 211-234), on the
    variable [input] it closes over; what it writes to the terminal is
    left out. *)
Definition onData (input : string) (char : string) : Entry :=
  if String.eqb char newline || String.eqb char carriageReturn then Resolved input
  else if String.eqb char ctrlC then Exited
  else if String.eqb char del || String.eqb char backspace then
    if (0 <? String.length input)%nat then Reading (dropLast input)
    else Reading input
  else if geSpace char then Reading (input +:+ char)
  else Reading input.

(** The listener on the chunks the terminal delivers, one after the
    other; it is removed once the promise is resolved. *)
Fixpoint listen (input : string) (chunks : list string) : Entry :=
  match chunks with
  | [] => Reading input
  | char :: chunks' =>
      match onData input char with
      | Reading input' => listen input' chunks'
      | done => done
      end
  end.

End Config.

(** ** [src/cli.ts]: [parseArgs] and the handlers of the transparency
    commands *)

Module Args.

Import JSString Gemini Utils Methods.

Record ParsedArgs : Type := mkParsedArgs {
  outputDir : option string;
  inputImage : option string;
  prompt : option string;
  method : option TransparentMethod;
  model : option Model;
  resolution : option string;
  aspectRatio : option string;
  referenceImages : option (list string);
  bgColor : option string;
  tolerance : option Z;
  name : option string;
  open : option bool;
  showCost : option bool;
}.

(** [{}] *)
Definition empty : ParsedArgs :=
  mkParsedArgs None None None None None None None None None None None None None.

(** The messages [parseArgs] hands to [printError], which ends the
    process: ['Invalid method: ...'], ['Invalid tolerance: must be 0-255'],
    ['Invalid model: ...'], ['Invalid resolution: ...'],
    ['Invalid aspect ratio: ...'], ['Unknown flag(s): ...'] and
    ['Too many reference images: ...']. *)
Inductive ArgError : Type :=
  | InvalidMethod (given : string)
  | InvalidToleranceArg
  | InvalidModel (given : string)
  | InvalidResolution (given : string)
  | InvalidAspectRatio (given : string)
  | UnknownFlags (flags : list string)
  | TooManyReferenceImages (count : nat).

Definition VALID_ASPECT_RATIOS : list string :=
  ["1:1"; "2:3"; "3:2"; "3:4"; "4:3"; "4:5"; "5:4"; "9:16"; "16:9"; "21:9"].

Definition VALID_RESOLUTIONS : list string := ["1K"; "2K"; "4K"].

Definition VALID_FLAGS : list string :=
  ["-o"; "-i"; "-r"; "--method"; "--bg-color"; "--tolerance";
   "--model"; "--resolution"; "--aspect-ratio"; "--name"; "--open"; "--cost"].

Definition MAX_REFERENCE_IMAGES : nat := 14.

(** [list.includes(s)] *)
Definition includes (l : list string) (s : string) : bool :=
  existsb (String.eqb s) l.

(** The four variables of the loop. *)
Record Scan : Type := mkScan {
  result : ParsedArgs;
  promptParts : list string;
  refImages : list string;
  unknownFlags : list string;
}.

Definition setResult (st : Scan) (res : ParsedArgs) : Scan :=
  mkScan res (promptParts st) (refImages st) (unknownFlags st).

(** The messages of the handlers: those of [parseArgs], ['Output directory
    required. Use -o <dir>'], ['Prompt required'], ['Input image required.
    Use -i <image>'] and ['--method local is only valid for
    edit-transparent ...']. *)
Inductive CliError : Type :=
  | BadArgs (e : ArgError)
  | OutputDirRequired
  | PromptRequired
  | InputImageRequired
  | LocalMethodOnlyForEdit.

Definition requireOutputDir (parsed : ParsedArgs) : CliError + string :=
  if truthy (outputDir parsed) then inr (default "" (outputDir parsed))
  else inl OutputDirRequired.

Definition requirePrompt (parsed : ParsedArgs) : CliError + string :=
  if truthy (prompt parsed) then inr (default "" (prompt parsed))
  else inl PromptRequired.

Definition requireInputImage (parsed : ParsedArgs) : CliError + string :=
  if truthy (inputImage parsed) then inr (default "" (inputImage parsed))
  else inl InputImageRequired.

(** [parsed.method || 'pro-pro'] *)
Definition methodOf (parsed : ParsedArgs) : TransparentMethod :=
  default ProPro (method parsed).

(** [parsed.name ? `${parsed.name}.png` : undefined] *)
Definition filenameOf (parsed : ParsedArgs) : option string :=
  if truthy (name parsed) then Some (default "" (name parsed) +:+ ".png")
  else None.

(** Lines 410-411: the models whose prices the estimate of a transparent
    generation adds up. *)
Definition transparentCostModels (method : TransparentMethod) : Model * Model :=
  let genModel := if decide (method = FlashFlash) then NanoBanana else NanoBananaPro in
  let editModel := if decide (method = ProPro) then NanoBananaPro else NanoBanana in
  (genModel, editModel).

(** Line 455: the model whose price the estimate of a background removal
    doubles. *)
Definition editTransparentCostModel (method : TransparentMethod) : Model :=
  if decide (method = ProPro) then NanoBananaPro else NanoBanana.

(** [buildImageConfig] *)
Definition buildImageConfig (parsed : ParsedArgs) : option ImageConfig :=
  if negb (truthy (resolution parsed)) && negb (truthy (aspectRatio parsed)) then None
  else Some (mkImageConfig (aspectRatio parsed) (resolution parsed)).

(** What [handleTransparent] hands to [generateWithTransparency]: the
    prompt, the output directory and the options; of the reference images
    the paths, the files being read before the call. *)
Record Generation : Type := mkGeneration {
  genPrompt : string;
  genOutputDir : string;
  genMethod : TransparentMethod;
  genType : ImageType;
  genImageConfig : option ImageConfig;
  genFilename : option string;
  genReferenceImages : option (list string);
}.

(** Lines 245-246 of [src/alpha.ts]: the models [generateWithTransparency]
    calls the API with. *)
Definition generationModels (call : Generation) : Models :=
  getModelsForMethod (genMethod call).

(** What a handler comes to: the estimate was shown and declined, or the
    call is made. *)
Inductive Handled (A : Type) : Type :=
  | Cancelled
  | Called (call : A).

Arguments Cancelled {A}.
Arguments Called {A} call.

(** What [handleEditTransparent] hands to [extractTransparencyFromImage]. *)
Record Removal : Type := mkRemoval {
  remInputPath : string;
  remOutputDir : string;
  remMethod : TransparentMethod;
  remImageConfig : option ImageConfig;
  remBgColor : option string;
  remTolerance : option Z;
  remFilename : option string;
}.

Section Basename.

(** [basename] of Node's [path] module: it depends on the platform (the
    separators are those of POSIX or of Windows). *)
Variable basename : string -> string.

(** One iteration of the loop of lines 174-232 on [arg = args[i]], with
    [next = args[i + 1]]: the variables after it, and whether [++i] took
    the next argument. *)
Definition iteration (arg : string) (next : option string) (st : Scan)
  : ArgError + (Scan * bool) :=
  let value := default "" next in
  let p := result st in
  if String.eqb arg "-o" && truthy next then
    inr (setResult st
           (mkParsedArgs (Some value) (inputImage p) (prompt p) (method p) (model p)
              (resolution p) (aspectRatio p) (referenceImages p) (bgColor p)
              (tolerance p) (name p) (open p) (showCost p)), true)
  else if String.eqb arg "-i" && truthy next then
    inr (setResult st
           (mkParsedArgs (outputDir p) (Some value) (prompt p) (method p) (model p)
              (resolution p) (aspectRatio p) (referenceImages p) (bgColor p)
              (tolerance p) (name p) (open p) (showCost p)), true)
  else if String.eqb arg "-r" && truthy next then
    inr (mkScan p (promptParts st) (refImages st ++ [value]) (unknownFlags st), true)
  else if String.eqb arg "--method" && truthy next then
    let setMethod m :=
      inr (setResult st
             (mkParsedArgs (outputDir p) (inputImage p) (prompt p) (Some m) (model p)
                (resolution p) (aspectRatio p) (referenceImages p) (bgColor p)
                (tolerance p) (name p) (open p) (showCost p)), true) in
    if String.eqb value "pro-pro" then setMethod ProPro
    else if String.eqb value "pro-flash" then setMethod ProFlash
    else if String.eqb value "flash-flash" then setMethod FlashFlash
    else if String.eqb value "local" then setMethod Local
    else inl (InvalidMethod value)
  else if String.eqb arg "--bg-color" && truthy next then
    inr (setResult st
           (mkParsedArgs (outputDir p) (inputImage p) (prompt p) (method p) (model p)
              (resolution p) (aspectRatio p) (referenceImages p) (Some value)
              (tolerance p) (name p) (open p) (showCost p)), true)
  else if String.eqb arg "--tolerance" && truthy next then
    match Cli.checkTolerance (parseInt value) with
    | inl _ => inl InvalidToleranceArg
    | inr tol =>
        inr (setResult st
               (mkParsedArgs (outputDir p) (inputImage p) (prompt p) (method p)
                  (model p) (resolution p) (aspectRatio p) (referenceImages p)
                  (bgColor p) (Some tol) (name p) (open p) (showCost p)), true)
    end
  else if String.eqb arg "--model" && truthy next then
    let setModel m :=
      inr (setResult st
             (mkParsedArgs (outputDir p) (inputImage p) (prompt p) (method p) (Some m)
                (resolution p) (aspectRatio p) (referenceImages p) (bgColor p)
                (tolerance p) (name p) (open p) (showCost p)), true) in
    if String.eqb value "nano-banana" then setModel NanoBanana
    else if String.eqb value "nano-banana-pro" then setModel NanoBananaPro
    else inl (InvalidModel value)
  else if String.eqb arg "--resolution" && truthy next then
    if includes VALID_RESOLUTIONS value then
      inr (setResult st
             (mkParsedArgs (outputDir p) (inputImage p) (prompt p) (method p) (model p)
                (Some value) (aspectRatio p) (referenceImages p) (bgColor p)
                (tolerance p) (name p) (open p) (showCost p)), true)
    else inl (InvalidResolution value)
  else if String.eqb arg "--aspect-ratio" && truthy next then
    if includes VALID_ASPECT_RATIOS value then
      inr (setResult st
             (mkParsedArgs (outputDir p) (inputImage p) (prompt p) (method p) (model p)
                (resolution p) (Some value) (referenceImages p) (bgColor p)
                (tolerance p) (name p) (open p) (showCost p)), true)
    else inl (InvalidAspectRatio value)
  else if String.eqb arg "--name" && truthy next then
    inr (setResult st
           (mkParsedArgs (outputDir p) (inputImage p) (prompt p) (method p) (model p)
              (resolution p) (aspectRatio p) (referenceImages p) (bgColor p)
              (tolerance p) (Some (basename value)) (open p) (showCost p)), true)
  else if String.eqb arg "--open" then
    inr (setResult st
           (mkParsedArgs (outputDir p) (inputImage p) (prompt p) (method p) (model p)
              (resolution p) (aspectRatio p) (referenceImages p) (bgColor p)
              (tolerance p) (name p) (Some true) (showCost p)), false)
  else if String.eqb arg "--cost" then
    inr (setResult st
           (mkParsedArgs (outputDir p) (inputImage p) (prompt p) (method p) (model p)
              (resolution p) (aspectRatio p) (referenceImages p) (bgColor p)
              (tolerance p) (name p) (open p) (Some true)), false)
  else if String.prefix "-" arg then
    inr (mkScan p (promptParts st) (refImages st) (unknownFlags st ++ [arg]), false)
  else
    inr (mkScan p (promptParts st ++ [arg]) (refImages st) (unknownFlags st), false).

(** The loop of lines 174-232, from [args[i]] on. *)
Fixpoint loop (args : list string) (st : Scan) : ArgError + Scan :=
  match args with
  | [] => inr st
  | arg :: rest =>
      match iteration arg (head rest) st with
      | inl e => inl e
      | inr (st', false) => loop rest st'
      | inr (st', true) =>
          match rest with
          | [] => inr st'
          | _ :: rest' => loop rest' st'
          end
      end
  end.

Definition parseArgs (args : list string) : ArgError + ParsedArgs :=
  match loop args (mkScan empty [] [] []) with
  | inl e => inl e
  | inr st =>
      if (0 <? length (unknownFlags st))%nat then inl (UnknownFlags (unknownFlags st))
      else
        let p := result st in
        let p :=
          if (0 <? length (promptParts st))%nat then
            mkParsedArgs (outputDir p) (inputImage p)
              (Some (String.concat " " (promptParts st))) (method p) (model p)
              (resolution p) (aspectRatio p) (referenceImages p) (bgColor p)
              (tolerance p) (name p) (open p) (showCost p)
          else p in
        if (0 <? length (refImages st))%nat then
          if (MAX_REFERENCE_IMAGES <? length (refImages st))%nat
          then inl (TooManyReferenceImages (length (refImages st)))
          else
            inr (mkParsedArgs (outputDir p) (inputImage p) (prompt p) (method p)
                   (model p) (resolution p) (aspectRatio p) (Some (refImages st))
                   (bgColor p) (tolerance p) (name p) (open p) (showCost p))
        else inr p
  end.

(** [handleTransparent] (lines 394-445) up to the call it makes;
    [confirmed] is the answer to the estimate, asked for with [--cost]
    only. *)
Definition handleTransparent (args : list string) (type : ImageType)
    (confirmed : bool) : CliError + Handled Generation :=
  match parseArgs args with
  | inl e => inl (BadArgs e)
  | inr parsed =>
      match requireOutputDir parsed with
      | inl e => inl e
      | inr outputDir =>
          match requirePrompt parsed with
          | inl e => inl e
          | inr prompt =>
              let method := methodOf parsed in
              if decide (method = Local) then inl LocalMethodOnlyForEdit
              else if default false (showCost parsed) && negb confirmed then inr Cancelled
              else
                inr (Called (mkGeneration prompt outputDir method type
                               (buildImageConfig parsed) (filenameOf parsed)
                               (referenceImages parsed)))
          end
      end
  end.

(** [handleEditTransparent] (lines 447-483) up to the call it makes. *)
Definition handleEditTransparent (args : list string) (confirmed : bool)
  : CliError + Handled Removal :=
  match parseArgs args with
  | inl e => inl (BadArgs e)
  | inr parsed =>
      match requireOutputDir parsed with
      | inl e => inl e
      | inr outputDir =>
          match requireInputImage parsed with
          | inl e => inl e
          | inr inputImage =>
              let method := methodOf parsed in
              if default false (showCost parsed) && negb (bool_decide (method = Local))
                 && negb confirmed
              then inr Cancelled
              else
                inr (Called (mkRemoval inputImage outputDir method
                               (buildImageConfig parsed) (bgColor parsed)
                               (tolerance parsed) (filenameOf parsed)))
          end
      end
  end.

End Basename.

(** The local branch of [extractTransparencyFromImage] ([src/alpha.ts],
    lines 323-341) on the decoded input: [removeBackgroundLocal] with
    [bgColor || 'auto'] and [tolerance ?? 30]. *)
Definition extractLocal (call : Removal) (input : Decoded) : Error + Decoded :=
  ChromaKey.removeBackgroundLocal input (Some (Cli.orAuto (remBgColor call)))
    (Some (default 30 (remTolerance call))).

End Args.

(** ** The alpha bytes of the fade band, run over all bands *)

Module ByteOrder.

Import Exhaustive.

(** From [distSquared] on and [n] times, 255 times the alpha of the fade
    band is not below [prev], its value at the squared distance before. *)
Fixpoint scaledAscending (tolerance : float) (prev : float)
    (distSquared : PrimInt63.int) (n : nat) : bool :=
  match n with
  | O => true
  | S n' =>
      let a := (fadeAlphaI tolerance distSquared * 255)%float in
      (prev <=? a)%float && scaledAscending tolerance a (distSquared + 1)%uint63 n'
  end.

(** The band of a tolerance, from [T^2 + 2] to [(2 T)^2]. *)
Definition scaledBandOk (tolerance : Z) : bool :=
  scaledAscending (num tolerance)
    (fadeAlphaI (num tolerance) (Uint63.of_Z (tolerance * tolerance + 1)) * 255)%float
    (Uint63.of_Z (tolerance * tolerance + 2))
    (Z.to_nat (3 * tolerance * tolerance - 1)).

End ByteOrder.

(** ** More sample images *)

Module MoreSamples.

(** Three by one: a red pixel between two grey corners. *)
Definition greyEnds : Decoded :=
  mkDecoded [9; 9; 9; 255;  200; 0; 0; 255;  9; 9; 9; 255] 3 1.

End MoreSamples.

(** ** Spellings of a colour *)

Module Spelling.

(** A hexadecimal digit in upper case: ['a'] to ['f'] become ['A'] to
    ['F'], every other character is kept. *)
Definition upperHex (c : Ascii.ascii) : Ascii.ascii :=
  let n := Ascii.N_of_ascii c in
  if ((97 <=? n) && (n <=? 102))%N then Ascii.ascii_of_N (n - 32) else c.

(** A string of six characters. *)
Definition six (c1 c2 c3 c4 c5 c6 : Ascii.ascii) : list Ascii.ascii :=
  [c1; c2; c3; c4; c5; c6].

(** A string with one ['#'] put between two parts of it. *)
Definition withHash (before after : list Ascii.ascii) : string :=
  String.string_of_list_ascii (before ++ ChromaKey.hash :: after).

End Spelling.

(** ** A platform for the examples *)

Module Platform.

(** [path.basename] on a name that holds no separator: the name itself. *)
Definition plainBasename (path : string) : string := path.

End Platform.

(** ** Notions for the command line *)

Module ArgsNotions.

(** The tolerance of parsed arguments, when there is one, is within
    range. *)
Definition toleranceOk (p : Args.ParsedArgs) : Prop :=
  match Args.tolerance p with
  | Some t => 0 <= t <= 255
  | None => True
  end.

End ArgsNotions.

(** ** [src/utils.ts]: the other revision of [extractAlphaTwoPass]

    [src/utils.ts] holds a second [extractAlphaTwoPass] (lines 94-172),
    which squares with [Math.pow] and clamps with [Math.max] and
    [Math.min]. *)

Module Revision.

(** [Math.max]: [NaN] as soon as an argument is; of the two zeros, the
    positive one. *)
Definition Math_max (a b : float) : float :=
  if is_nan a || is_nan b then nan
  else if (a <? b)%float then b
  else if (b <? a)%float then a
  else if get_sign a then b else a.

(** [Math.pow(x, 2)] on an integer-valued number: the engines return
    [x * x] for an exponent of 2, which is exact below [2^26]. *)
Definition Math_pow2 (x : jsnum) : jsnum := mul x x.

(** Lines 135-137. *)
Definition distOf (pW pB : jsnum * jsnum * jsnum) : float :=
  let '(rW, gW, bW) := pW in
  let '(rB, gB, bB) := pB in
  PrimFloat.sqrt
    (toFloat (add (add (Math_pow2 (sub rW rB)) (Math_pow2 (sub gW gB)))
                  (Math_pow2 (sub bW bB)))).

(** Lines 141-144: [Math.max(0, Math.min(1, alpha))]. *)
Definition alphaOf (pixelDist : float) : float :=
  let alpha := (1 - pixelDist / Matting.bgDist)%float in
  Math_max 0 (Math_min 1 alpha).

(** Lines 149-164. *)
Definition pixelOut (pW pB : jsnum * jsnum * jsnum)
  : jsnum * jsnum * jsnum * jsnum :=
  let '(rB, gB, bB) := pB in
  let alpha := alphaOf (distOf pW pB) in
  let '(rOut, gOut, bOut) := Matting.recover alpha rB gB bB in
  (Math_round (Math_min 255 rOut), Math_round (Math_min 255 gOut),
   Math_round (Math_min 255 bOut), Math_round (alpha * 255)%float).

(** One iteration of the loop of lines 122-165. *)
Definition step (dataWhite dataBlack outputBuffer : list Z) (i : Z) : list Z :=
  let offset := i * 4 in
  let '(o0, o1, o2, o3) := pixelOut (rgbAt dataWhite i) (rgbAt dataBlack i) in
  let outputBuffer := writeAt outputBuffer offset o0 in
  let outputBuffer := writeAt outputBuffer (offset + 1) o1 in
  let outputBuffer := writeAt outputBuffer (offset + 2) o2 in
  writeAt outputBuffer (offset + 3) o3.

Definition extractAlphaTwoPass (imgOnWhite imgOnBlack : Decoded)
  : Error + Decoded :=
  let dataWhite := data imgOnWhite in
  let meta := imgOnWhite in
  let dataBlack := data imgOnBlack in
  if negb (length dataWhite =? length dataBlack)%nat then inl DimensionMismatch
  else
    let outputBuffer := replicate (length dataWhite) 0 in
    let outputBuffer :=
      foldl (step dataWhite dataBlack) outputBuffer
        (seqZ 0 (width meta * height meta)) in
    inr (mkDecoded outputBuffer (width meta) (height meta)).

(** The two clamps give the same binary64 number. *)
Definition clampOk (sumSq : Z) : bool :=
  PrimFloat.Leibniz.eqb (alphaOf (Matting.pixelDist (Some sumSq)))
                        (Matting.alphaOf (Matting.pixelDist (Some sumSq))).

End Revision.
(** ** The order of binary64 values

    The comparisons of primitive floats are specified by the Standard
    Library through [Prim2SF] and [SFcompare]; the latter compares finite
    values of equal sign by exponent, then by mantissa. *)

Module FloatOrder.

#[local] Ltac by_compare_specs :=
  change (Pos.compare_cont Eq) with Pos.compare;
  repeat match goal with
    | |- context [Z.compare ?a ?b] => destruct (Z.compare_spec a b)
    | |- context [Pos.compare ?a ?b] => destruct (Pos.compare_spec a b)
    end;
  simpl; try congruence; try lia.

Lemma SFcompare_Lt_trans (a b c : spec_float) :
  SFcompare a b = Some Lt -> SFcompare b c = Some Lt -> SFcompare a c = Some Lt.
Proof.
  destruct a as [sa|sa| |sa ma ea], b as [sb|sb| |sb mb eb],
    c as [sc|sc| |sc mc ec]; simpl;
    repeat match goal with s : bool |- _ => destruct s end; simpl;
    try congruence; by_compare_specs.
Qed.

Lemma SFcompare_Lt_antisym (a b : spec_float) :
  SFcompare a b = Some Lt -> SFcompare b a = Some Gt.
Proof.
  destruct a as [sa|sa| |sa ma ea], b as [sb|sb| |sb mb eb]; simpl;
    repeat match goal with s : bool |- _ => destruct s end; simpl;
    try congruence; by_compare_specs.
Qed.

Lemma SFcompare_Gt_antisym (a b : spec_float) :
  SFcompare a b = Some Gt -> SFcompare b a = Some Lt.
Proof.
  destruct a as [sa|sa| |sa ma ea], b as [sb|sb| |sb mb eb]; simpl;
    repeat match goal with s : bool |- _ => destruct s end; simpl;
    try congruence; by_compare_specs.
Qed.

Lemma SFcompare_Eq_sym (a b : spec_float) :
  SFcompare a b = Some Eq -> SFcompare b a = Some Eq.
Proof.
  destruct a as [sa|sa| |sa ma ea], b as [sb|sb| |sb mb eb]; simpl;
    repeat match goal with s : bool |- _ => destruct s end; simpl;
    try congruence; by_compare_specs.
Qed.

Lemma SFcompare_None (a b : spec_float) :
  SFcompare a b = None -> a = S754_nan \/ b = S754_nan.
Proof.
  destruct a as [sa|sa| |sa ma ea], b as [sb|sb| |sb mb eb]; simpl;
    auto; discriminate.
Qed.

Lemma SFcompare_refl (a : spec_float) :
  a <> S754_nan -> SFcompare a a = Some Eq.
Proof.
  destruct a as [sa|sa| |sa ma ea]; simpl; try congruence.
  - destruct sa; reflexivity.
  - change (Pos.compare_cont Eq) with Pos.compare.
    rewrite Z.compare_refl, Pos.compare_refl. destruct sa; reflexivity.
Qed.

Lemma ltb_trans (x y z : float) :
  (x <? y)%float = true -> (y <? z)%float = true -> (x <? z)%float = true.
Proof.
  rewrite !FloatAxioms.ltb_spec. unfold SFltb.
  destruct (SFcompare (Prim2SF x) (Prim2SF y)) as [[]|] eqn:Hxy; try discriminate.
  destruct (SFcompare (Prim2SF y) (Prim2SF z)) as [[]|] eqn:Hyz; try discriminate.
  now rewrite (SFcompare_Lt_trans _ _ _ Hxy Hyz).
Qed.

Lemma ltb_leb_false (x y : float) :
  (x <? y)%float = true -> (y <=? x)%float = false.
Proof.
  rewrite FloatAxioms.ltb_spec, FloatAxioms.leb_spec. unfold SFltb, SFleb.
  destruct (SFcompare (Prim2SF x) (Prim2SF y)) as [[]|] eqn:Hxy; try discriminate.
  now rewrite (SFcompare_Lt_antisym _ _ Hxy).
Qed.

Lemma ltb_eqb_false (x y : float) :
  (x <? y)%float = true -> (y =? x)%float = false.
Proof.
  rewrite FloatAxioms.ltb_spec, FloatAxioms.eqb_spec. unfold SFltb, SFeqb.
  destruct (SFcompare (Prim2SF x) (Prim2SF y)) as [[]|] eqn:Hxy; try discriminate.
  now rewrite (SFcompare_Lt_antisym _ _ Hxy).
Qed.

Lemma leb_ltb_false (x y : float) :
  (x <=? y)%float = true -> (y <? x)%float = false.
Proof.
  rewrite FloatAxioms.ltb_spec, FloatAxioms.leb_spec. unfold SFltb, SFleb.
  destruct (SFcompare (Prim2SF x) (Prim2SF y)) as [[]|] eqn:Hxy; try discriminate.
  - now rewrite (SFcompare_Eq_sym _ _ Hxy).
  - now rewrite (SFcompare_Lt_antisym _ _ Hxy).
Qed.

Lemma ltb_leb (x y : float) :
  (x <? y)%float = true -> (x <=? y)%float = true.
Proof.
  rewrite FloatAxioms.ltb_spec, FloatAxioms.leb_spec. unfold SFltb, SFleb.
  now destruct (SFcompare (Prim2SF x) (Prim2SF y)) as [[]|].
Qed.

(** A number that compares with another one is not [NaN]. *)
Lemma leb_not_nan_r (x y : float) :
  (x <=? y)%float = true -> is_nan y = false.
Proof.
  rewrite FloatAxioms.leb_spec. unfold SFleb, is_nan. intros H.
  rewrite FloatAxioms.eqb_spec. unfold SFeqb.
  rewrite SFcompare_refl; [reflexivity|].
  intros Hn. rewrite Hn in H. destruct (Prim2SF x); discriminate H.
Qed.

(** Neither below nor above, and comparable: equal, so not above. *)
Lemma not_ltb_leb (x y : float) :
  is_nan x = false -> is_nan y = false ->
  (y <? x)%float = false -> (x <=? y)%float = true.
Proof.
  unfold is_nan. rewrite FloatAxioms.ltb_spec, FloatAxioms.leb_spec, !FloatAxioms.eqb_spec. unfold SFltb, SFleb, SFeqb.
  intros Hx Hy Hlt.
  destruct (SFcompare (Prim2SF x) (Prim2SF y)) as [[]|] eqn:Hxy; try reflexivity.
  - apply SFcompare_Gt_antisym in Hxy. rewrite Hxy in Hlt. discriminate.
  - apply SFcompare_None in Hxy as [H|H]; rewrite H in *; discriminate.
Qed.

Lemma digits2_pos_bound (m : positive) : Z.pos m < 2 ^ Z.pos (digits2_pos m).
Proof.
  induction m as [m IH|m IH|]; simpl digits2_pos; [| |reflexivity];
    rewrite Pos2Z.inj_succ, Z.pow_succ_r by lia; lia.
Qed.

(** A valid binary64 mantissa has at most 53 bits. *)
Lemma valid_mantissa_bound (s : bool) (m : positive) (e : Z) :
  valid_binary (S754_finite s m e) = true -> Z.pos m < 2 ^ 53.
Proof.
  unfold SpecFloat.valid_binary, bounded, canonical_mantissa, fexp.
  intros H. apply andb_prop in H as [H _]. apply Z.eqb_eq in H.
  pose proof (digits2_pos_bound m) as Hm.
  assert (Z.pos (digits2_pos m) <= 53) as Hd
    by (unfold SpecFloat.fexp, prec in H; lia).
  eapply Z.lt_le_trans; [exact Hm|].
  apply Z.pow_le_mono_r; lia.
Qed.

(** A number between [0] and [255] rounds to a byte: storing it in a
    [Uint8Array] does not wrap. *)
Lemma Math_round_byte (y : float) :
  (0 <=? y)%float = true -> (y <=? 255)%float = true ->
  exists n, Math_round y = Some n /\ 0 <= n <= 255.
Proof.
  rewrite !FloatAxioms.leb_spec. unfold Math_round.
  pose proof (Prim2SF_valid y) as Hv.
  replace (Prim2SF 0) with (S754_zero false) by (vm_compute; reflexivity).
  replace (Prim2SF 255) with (S754_finite false 8972014882652160 (-45))
    by (vm_compute; reflexivity).
  destruct (Prim2SF y) as [s|s| |s m e]; intros H0 H;
    [exists 0; split; [reflexivity|lia]
    |destruct s; [discriminate H0|discriminate H]|discriminate H0|].
  - destruct s; [discriminate H0|].
    apply valid_mantissa_bound in Hv.
    assert (e < -45 \/ e = -45 /\ Z.pos m <= 8972014882652160) as He.
    { unfold SFleb, SFcompare in H.
      change (Pos.compare_cont Eq) with Pos.compare in H.
      destruct (e ?= -45) eqn:Hc; [|left; apply Z.compare_lt_iff, Hc|discriminate H].
      apply Z.compare_eq in Hc. right. split; [exact Hc|].
      destruct (m ?= 8972014882652160)%positive eqn:Hm; [| |discriminate H].
      - apply Pos.compare_eq in Hm. rewrite Hm. apply Z.le_refl.
      - apply Pos.compare_lt_iff in Hm. apply Z.lt_le_incl. exact Hm. }
    destruct (Z.leb_spec 0 e); [lia|].
    eexists. split; [reflexivity|].
    rewrite Z.shiftr_div_pow2, Z.shiftl_mul_pow2 by lia.
    replace (1 - e) with (Z.succ (- e)) by lia.
    rewrite Z.pow_succ_r by lia.
    assert (2 ^ 45 <= 2 ^ (- e)) as Hp by (apply Z.pow_le_mono_r; lia).
    change (2 ^ 45) with 35184372088832 in Hp.
    change (2 ^ 53) with 9007199254740992 in Hv.
    set (P := 2 ^ (- e)) in *.
    split.
    + apply Z.div_pos; lia.
    + apply Z.lt_succ_r. apply Z.div_lt_upper_bound; [lia|].
      destruct He as [He|[-> He]]; [|subst P; change (2 ^ (- -45)) with 35184372088832; lia].
      assert (2 ^ 46 <= P) as Hq by (apply Z.pow_le_mono_r; lia).
      change (2 ^ 46) with 70368744177664 in Hq. lia.
Qed.

(** *** The sign of a quotient

    [SFdiv] rounds the quotient of the two mantissas; shifting and
    rounding keep a mantissa that is not negative, so that the quotient of
    two numbers that are not negative is neither negative nor [NaN]. *)

Lemma shr_1_nonneg (mrs : shr_record) :
  0 <= shr_m mrs -> 0 <= shr_m (shr_1 mrs).
Proof.
  destruct mrs as [m r0 s0]. destruct m as [|[p|p|]|p]; simpl; lia.
Qed.

Lemma iter_pos_invariant {A : Type} (f : A -> A) (P : A -> Prop) :
  (forall x, P x -> P (f x)) ->
  forall (p : positive) (x : A), P x -> P (SpecFloat.iter_pos f p x).
Proof.
  intros Hf. induction p as [p IH|p IH|]; intros x Hx; simpl; auto.
Qed.

Lemma shr_fexp_nonneg (m e : Z) (l : location) :
  0 <= m -> 0 <= shr_m (fst (shr_fexp prec emax m e l)).
Proof.
  intros Hm. unfold shr_fexp, shr.
  assert (0 <= shr_m (shr_record_of_loc m l)) as H0
    by (destruct l as [|[]]; exact Hm).
  destruct (fexp prec emax (Zdigits2 m + e) - e) as [|p|p]; simpl; try exact H0.
  apply (iter_pos_invariant shr_1 (fun x => 0 <= shr_m x) shr_1_nonneg), H0.
Qed.

Lemma round_nearest_even_nonneg (m : Z) (l : location) :
  0 <= m -> 0 <= round_nearest_even m l.
Proof.
  intros Hm. destruct l as [|[]]; simpl; try lia.
  destruct (Z.even m); lia.
Qed.

Lemma binary_round_aux_sign (s : bool) (m e : Z) (l : location) :
  0 <= m -> sign_is s (binary_round_aux prec emax s m e l).
Proof.
  intros Hm. unfold binary_round_aux.
  pose proof (shr_fexp_nonneg m e l Hm) as H1.
  destruct (shr_fexp prec emax m e l) as [mrs' e']. simpl in H1.
  pose proof (shr_fexp_nonneg _ e' loc_Exact
                (round_nearest_even_nonneg _ (loc_of_shr_record mrs') H1)) as H2.
  destruct (shr_fexp prec emax _ e' loc_Exact) as [mrs'' e'']. simpl in H2.
  destruct (shr_m mrs'') as [|p|p]; [reflexivity| |lia].
  destruct (e'' <=? emax - prec); reflexivity.
Qed.

Lemma SFdiv_core_nonneg (m1 m2 : positive) (e1 e2 : Z) :
  0 <= fst (fst (SFdiv_core_binary prec emax (Z.pos m1) e1 (Z.pos m2) e2)).
Proof.
  unfold SFdiv_core_binary.
  set (sh := _ - _ - Z.min _ _).
  set (m' := match sh with Z.pos _ => _ | Z0 => _ | Z.neg _ => _ end).
  assert (0 <= m') as Hm'.
  { unfold m'. destruct sh; try lia. apply Z.shiftl_nonneg. lia. }
  pose proof (Z.div_pos m' (Z.pos m2) Hm' ltac:(lia)) as Hq.
  unfold Z.div in Hq. destruct (Z.div_eucl m' (Z.pos m2)) as [q rm]. exact Hq.
Qed.

Lemma div_nonneg (x y lo : float) :
  nonneg_finite x = true -> Prim2SF lo = S754_zero false \/ nonneg_finite lo = true ->
  (lo <? y)%float = true ->
  (0 <=? x / y)%float = true.
Proof.
  unfold nonneg_finite. intros Hx Hlo Hy.
  rewrite FloatAxioms.ltb_spec in Hy. rewrite FloatAxioms.leb_spec, div_spec.
  replace (Prim2SF 0) with (S754_zero false) by (vm_compute; reflexivity).
  assert (exists m e, Prim2SF y = S754_finite false m e \/ Prim2SF y = S754_infinity false)
    as (my & ey & Hy').
  { unfold SFltb in Hy.
    destruct (Prim2SF lo) as [sl|sl| |sl ml el], (Prim2SF y) as [sy|sy| |sy m e];
      simpl in Hy; try discriminate Hy;
      try (destruct Hlo as [Hlo|Hlo]; discriminate Hlo);
      try (destruct sl; destruct Hlo as [Hlo|Hlo]; discriminate Hlo);
      destruct sy; try discriminate Hy;
      try (exists 1%positive, 0; right; reflexivity);
      try (exists m, e; left; reflexivity).
    all: destruct sl; try discriminate Hy;
      destruct Hlo as [Hlo|Hlo]; discriminate Hlo. }
  destruct (Prim2SF x) as [sx|sx| |sx mx ex]; try discriminate Hx;
    destruct sx; try discriminate Hx;
    destruct Hy' as [-> | ->]; try reflexivity.
  unfold SF64div, SFdiv.
  pose proof (SFdiv_core_nonneg mx my ex ey) as Hq.
  destruct (SFdiv_core_binary prec emax (Z.pos mx) ex (Z.pos my) ey) as [[mz ez] lz].
  simpl in Hq.
  pose proof (binary_round_aux_sign (xorb false false) mz ez lz Hq) as Hs.
  destruct (binary_round_aux prec emax (xorb false false) mz ez lz) as [s|s| |s m e];
    simpl in Hs; [subst s; reflexivity ..|contradiction|subst s; reflexivity].
Qed.

(** [Math.min(255, x)] of a number that is not negative stays between 0
    and 255. *)
Lemma Math_min_255_range (x : float) :
  (0 <=? x)%float = true ->
  (0 <=? Math_min 255 x)%float = true /\ (Math_min 255 x <=? 255)%float = true.
Proof.
  intros Hx. unfold Math_min.
  rewrite (leb_not_nan_r _ _ Hx).
  replace (is_nan 255) with false by (vm_compute; reflexivity).
  replace (get_sign 255) with false by (vm_compute; reflexivity).
  simpl orb. cbv iota.
  destruct (x <? 255)%float eqn:H1.
  - split; [exact Hx|apply ltb_leb, H1].
  - assert ((0 <=? 255)%float = true /\ (255 <=? 255)%float = true) as H255
      by (split; vm_compute; reflexivity).
    destruct (255 <? x)%float eqn:H2; [exact H255|].
    split; [exact Hx|].
    apply not_ltb_leb; [exact (leb_not_nan_r _ _ Hx)|vm_compute; reflexivity|exact H2].
Qed.

End FloatOrder.


(** ** [Math.round] and the order of binary64 values

    Between 0 and 255 a binary64 number has a negative exponent; of two
    such numbers the smaller one has the smaller exponent or, the exponents
    being equal, the smaller mantissa, and the integer [Math.round] returns
    follows that order. *)

Module RoundOrder.

Lemma digits2_pos_lower (m : positive) : 2 ^ (Z.pos (digits2_pos m) - 1) <= Z.pos m.
Proof.
  induction m as [m IH|m IH|]; simpl digits2_pos; [| |reflexivity];
    rewrite Pos2Z.inj_succ;
    replace (Z.succ (Z.pos (digits2_pos m)) - 1)
      with (Z.succ (Z.pos (digits2_pos m) - 1)) by lia;
    rewrite Z.pow_succ_r by lia; lia.
Qed.

(** The exponent of a valid binary64 number is that of its mantissa:
    either the mantissa has 53 bits, or the exponent is the smallest one. *)
Lemma valid_exponent (s : bool) (m : positive) (e : Z) :
  valid_binary (S754_finite s m e) = true ->
  Z.pos m < 2 ^ 53 /\ -1074 <= e /\ (-1074 < e -> 2 ^ 52 <= Z.pos m).
Proof.
  intros Hv. split; [exact (FloatOrder.valid_mantissa_bound s m e Hv)|].
  unfold SpecFloat.valid_binary, bounded, canonical_mantissa in Hv.
  apply andb_prop in Hv as [H _]. apply Z.eqb_eq in H.
  unfold SpecFloat.fexp, prec, SpecFloat.emin, emax in H.
  split; [lia|]. intros He.
  assert (Z.pos (digits2_pos m) = 53) as Hd by lia.
  pose proof (digits2_pos_lower m) as Hl. rewrite Hd in Hl. exact Hl.
Qed.

(** [Math.round] of a positive number with a negative exponent. *)
Lemma Math_round_negative_exponent (x : float) (m : positive) (e : Z) :
  Prim2SF x = S754_finite false m e -> e < 0 ->
  Math_round x = Some ((2 * Z.pos m + 2 ^ (- e)) / 2 ^ (1 - e)).
Proof.
  intros Hx He. unfold Math_round. rewrite Hx.
  destruct (Z.leb_spec 0 e); [lia|].
  rewrite Z.shiftr_div_pow2, Z.shiftl_mul_pow2 by lia.
  rewrite Z.mul_1_l. reflexivity.
Qed.

(** Of two numbers between 0 and 255, the smaller one does not round to
    the larger integer. *)
Lemma Math_round_mono (x y : float) :
  (0 <=? x)%float = true -> (x <=? y)%float = true -> (y <=? 255)%float = true ->
  exists kx ky, Math_round x = Some kx /\ Math_round y = Some ky /\ 0 <= kx <= ky.
Proof.
  intros H0 Hxy H255.
  pose proof (Prim2SF_valid x) as Hvx. pose proof (Prim2SF_valid y) as Hvy.
  rewrite FloatAxioms.leb_spec in H0, Hxy, H255.
  replace (Prim2SF 0) with (S754_zero false) in H0 by (vm_compute; reflexivity).
  replace (Prim2SF 255) with (S754_finite false 8972014882652160 (-45)) in H255
    by (vm_compute; reflexivity).
  destruct (Prim2SF x) as [sx|sx| |sx mx ex] eqn:Ex;
    [|destruct sx; [discriminate H0|destruct (Prim2SF y) as [| [] | |[]]; discriminate]
     |discriminate H0|].
  - (* x is a zero *)
    assert (Math_round x = Some 0) as Hrx by (unfold Math_round; rewrite Ex; reflexivity).
    destruct (Prim2SF y) as [sy|sy| |sy my ey] eqn:Ey.
    + exists 0, 0. unfold Math_round at 2. rewrite Ey. auto with lia.
    + destruct sy; [discriminate Hxy|discriminate H255].
    + discriminate Hxy.
    + destruct sy; [discriminate Hxy|].
      assert (ey < 0) as Hey.
      { unfold SFleb, SFcompare in H255.
        destruct (ey ?= -45) eqn:Hc;
          [apply Z.compare_eq in Hc; clear - Hc; lia
          |apply (proj1 (Z.compare_lt_iff _ _)) in Hc; clear - Hc; lia
          |discriminate H255]. }
      exists 0. eexists. split; [exact Hrx|].
      split; [exact (Math_round_negative_exponent y my ey Ey Hey)|].
      split; [lia|]. apply Z.div_pos; [|apply Z.pow_pos_nonneg; lia].
      pose proof (Z.pow_pos_nonneg 2 (- ey) ltac:(lia) ltac:(lia)). lia.
  - (* x is a positive number *)
    destruct sx; [discriminate H0|].
    destruct (Prim2SF y) as [sy|sy| |sy my ey] eqn:Ey;
      [destruct sy; discriminate Hxy
      |destruct sy; [discriminate Hxy|discriminate H255]
      |discriminate Hxy|].
    destruct sy; [discriminate Hxy|].
    assert (ey < 0) as Hey.
    { unfold SFleb, SFcompare in H255.
      destruct (ey ?= -45) eqn:Hc;
        [apply Z.compare_eq in Hc; clear - Hc; lia
        |apply (proj1 (Z.compare_lt_iff _ _)) in Hc; clear - Hc; lia
        |discriminate H255]. }
    assert (ex < ey \/ ex = ey /\ Z.pos mx <= Z.pos my) as Hord.
    { unfold SFleb, SFcompare in Hxy.
      change (Pos.compare_cont Eq) with Pos.compare in Hxy.
      destruct (ex ?= ey) eqn:Hc;
        [|left; apply Z.compare_lt_iff, Hc|discriminate Hxy].
      apply Z.compare_eq in Hc. right. split; [exact Hc|].
      destruct (mx ?= my)%positive eqn:Hm; [| |discriminate Hxy].
      - apply Pos.compare_eq in Hm. rewrite Hm. apply Z.le_refl.
      - apply Pos.compare_lt_iff in Hm. apply Z.lt_le_incl. exact Hm. }
    destruct (valid_exponent _ _ _ Hvx) as (Hmx & Hex & _).
    destruct (valid_exponent _ _ _ Hvy) as (_ & _ & Hmy).
    eexists. eexists.
    split; [exact (Math_round_negative_exponent x mx ex Ex ltac:(lia))|].
    split; [exact (Math_round_negative_exponent y my ey Ey Hey)|].
    assert (0 < 2 ^ (- ex)) as Hpx by (apply Z.pow_pos_nonneg; lia).
    split; [apply Z.div_pos; [lia|apply Z.pow_pos_nonneg; lia]|].
    destruct Hord as [Hlt|[-> Hle]].
    + (* the exponents differ: the larger number has a full mantissa *)
      specialize (Hmy ltac:(lia)).
      set (d := ey - ex).
      assert (0 < d) as Hd by (unfold d; lia).
      assert (2 <= 2 ^ d) as Hpd.
      { change 2 with (2 ^ 1) at 1. apply Z.pow_le_mono_r; lia. }
      assert (2 ^ (- ex) = 2 ^ (- ey) * 2 ^ d) as E1.
      { rewrite <- Z.pow_add_r by lia. f_equal. unfold d. lia. }
      assert (2 ^ (1 - ex) = 2 ^ (1 - ey) * 2 ^ d) as E2.
      { rewrite <- Z.pow_add_r by lia. f_equal. unfold d. lia. }
      assert (0 < 2 ^ (1 - ey)) as Hpy by (apply Z.pow_pos_nonneg; lia).
      rewrite <- (Z.div_mul_cancel_r (2 * Z.pos my + 2 ^ (- ey)) (2 ^ (1 - ey)) (2 ^ d))
        by lia.
      rewrite <- E2. apply Z.div_le_mono; [apply Z.pow_pos_nonneg; lia|].
      rewrite E1. change (2 ^ 53) with 9007199254740992 in Hmx.
      change (2 ^ 52) with 4503599627370496 in Hmy.
      assert (Z.pos my * 2 <= Z.pos my * 2 ^ d) by (apply Z.mul_le_mono_nonneg_l; lia).
      lia.
    + apply Z.div_le_mono; [apply Z.pow_pos_nonneg; lia|lia].
Qed.

End RoundOrder.

(** ** The real-number formulas in integer terms *)

Module SpecFacts.

#[local] Open Scope R_scope.

Lemma round_unique (x : R) (k : Z) :
  IZR k - / 2 <= x < IZR k + / 2 -> Spec.round x = k.
Proof.
  intros [Hlo Hhi]. unfold Spec.round. symmetry.
  apply Int_part_spec. lra.
Qed.

Lemma bgDist_sqr : Spec.bgDist * Spec.bgDist = 195075.
Proof. unfold Spec.bgDist. rewrite sqrt_sqrt; lra. Qed.

Lemma bgDist_pos : 0 < Spec.bgDist.
Proof. unfold Spec.bgDist. apply sqrt_lt_R0. lra. Qed.

(** The byte of the specification is [255 - m], where [m] is the integer
    nearest to [sqrt (sumSq / 3)]: no square root is left in the
    condition, and no tie occurs since [3 * (2 m + 1)^2] is odd. *)
Lemma alphaByte_unique (sumSq k : Z) :
  (0 <= sumSq <= 195075)%Z -> (0 <= k <= 255)%Z ->
  (k = 255 \/ 3 * (2 * (255 - k) - 1) * (2 * (255 - k) - 1) < 4 * sumSq)%Z ->
  (4 * sumSq < 3 * (2 * (255 - k) + 1) * (2 * (255 - k) + 1))%Z ->
  Spec.alphaByte (sqrt (IZR sumSq)) = k.
Proof.
  intros [HS0 HS1] [Hk0 Hk1] Hlo Hhi.
  unfold Spec.alphaByte.
  pose proof bgDist_sqr as HD2. pose proof bgDist_pos as HD.
  set (D := Spec.bgDist) in *.
  apply IZR_le in HS0, HS1, Hk0, Hk1. apply IZR_lt in Hhi.
  assert (0 <= sqrt (IZR sumSq)) as Hs by apply sqrt_pos.
  assert (sqrt (IZR sumSq) * sqrt (IZR sumSq) = IZR sumSq) as Hs2
    by (apply sqrt_sqrt; lra).
  set (s := sqrt (IZR sumSq)) in *.
  set (t := s / D).
  assert (t * D = s) as HtD by (unfold t; field; lra).
  assert (0 <= t) as Ht0 by (unfold t; apply Rle_mult_inv_pos; lra).
  assert (t * t * 195075 = IZR sumSq) as Ht2.
  { rewrite <- Hs2, <- HtD, <- HD2. ring. }
  assert (t <= 1) as Ht1 by nra.
  assert (Spec.clamp (1 - t) 0 1 = 1 - t) as ->.
  { unfold Spec.clamp. rewrite Rmin_right by lra. apply Rmax_right. lra. }
  apply round_unique.
  repeat rewrite ?mult_IZR, ?minus_IZR, ?plus_IZR in Hhi.
  set (K := IZR k) in *. set (S := IZR sumSq) in *.
  split.
  - (* 255 t < (255 - K) + 1/2 *)
    assert (2 * (255 * t) < 2 * (255 - K) + 1); [|lra].
    apply Rnot_le_lt. intros Hc.
    assert ((2 * (255 - K) + 1) * (2 * (255 - K) + 1) <= (2 * (255 * t)) * (2 * (255 * t)))
      by (apply Rmult_le_compat; lra).
    nra.
  - destruct Hlo as [->|Hlo].
    + subst K. nra.
    + apply IZR_lt in Hlo.
      repeat rewrite ?mult_IZR, ?minus_IZR, ?plus_IZR in Hlo.
      fold K S in Hlo.
      assert (2 * (255 - K) - 1 < 2 * (255 * t)); [|lra].
      apply Rnot_le_lt. intros Hc.
      assert ((2 * (255 * t)) * (2 * (255 * t)) <= (2 * (255 - K) - 1) * (2 * (255 - K) - 1))
        by (apply Rmult_le_compat; nra).
      nra.
Qed.

(** The Euclidean distance is the square root of the integer the code
    sums up. *)
Lemma pixelDist_sumSq (rW gW bW rB gB bB : Z) :
  Spec.pixelDist (rW, gW, bW) (rB, gB, bB)
  = sqrt (IZR ((rW - rB) * (rW - rB) + (gW - gB) * (gW - gB)
               + (bW - bB) * (bW - bB))).
Proof.
  unfold Spec.pixelDist. f_equal.
  rewrite !plus_IZR, !mult_IZR, !minus_IZR. ring.
Qed.

(** The rounded mean of four values, without a real number. *)
Lemma mean4_div (sum : Z) : Spec.mean4 sum = ((sum + 2) / 4)%Z.
Proof.
  unfold Spec.mean4. apply round_unique.
  pose proof (Z.div_mod (sum + 2) 4 ltac:(lia)) as Hdm.
  pose proof (Z.mod_pos_bound (sum + 2) 4 ltac:(lia)) as Hm.
  remember ((sum + 2) / 4)%Z as q eqn:Hq.
  remember ((sum + 2) mod 4)%Z as m eqn:Hm'.
  assert (IZR sum = 4 * IZR q + IZR m - 2) as HR.
  { rewrite <- mult_IZR, <- plus_IZR, <- minus_IZR. f_equal. lia. }
  rewrite HR. destruct Hm as [Hm0 Hm1]. apply IZR_le in Hm0.
  assert (m <= 3)%Z as Hm3 by lia. apply IZR_le in Hm3.
  lra.
Qed.

End SpecFacts.

(** ** What the exhaustive runs establish *)

Module ExhaustiveFacts.

Import Exhaustive.

Lemma forallZ_spec (P : Z -> bool) (n : nat) (lo : Z) :
  forallZ lo n P = true ->
  forall z, lo <= z < lo + Z.of_nat n -> P z = true.
Proof.
  revert lo. induction n as [|n IH]; intros lo H z Hz; [lia|].
  simpl in H. apply andb_prop in H as [H0 H1].
  destruct (Z.eq_dec z lo) as [->|Hne]; [exact H0|].
  apply (IH (lo + 1) H1). lia.
Qed.

Lemma matteAlphaOk_all :
  forallZ 0 (Z.to_nat (maxSumSq + 1)) matteAlphaOk = true.
Proof. vm_compute. reflexivity. Qed.

Lemma sqrtStepOk_all :
  forallZ 0 (Z.to_nat maxBandSq) sqrtStepOk = true.
Proof. vm_compute. reflexivity. Qed.

Lemma guardOk_all :
  forallZ 0 (Z.to_nat (maxSumSq + 1)) guardOk = true.
Proof. vm_compute. reflexivity. Qed.

Lemma opaqueOk_all : forallZ 0 256 opaqueOk = true.
Proof. vm_compute. reflexivity. Qed.

Lemma byteNumOk_all : forallZ 0 256 byteNumOk = true.
Proof. vm_compute. reflexivity. Qed.

Lemma meanOk_all : forallZ 0 1021 meanOk = true.
Proof. vm_compute. reflexivity. Qed.

Lemma divisorOk_all : forallZ 1 255 divisorOk = true.
Proof. vm_compute. reflexivity. Qed.



Lemma bandOk_all : forallZ 1 255 bandOk = true.
Proof. vm_compute. reflexivity. Qed.

Lemma of_Z_succ (d : Z) :
  0 <= d < 2 ^ 62 -> (Uint63.of_Z d + 1)%uint63 = Uint63.of_Z (d + 1).
Proof.
  intros Hd. apply Uint63.to_Z_inj.
  rewrite Uint63.add_spec, !Uint63.of_Z_spec, Uint63.to_Z_1.
  assert (2 ^ 62 < wB) as HB by reflexivity.
  rewrite (Z.mod_small d wB) by lia.
  rewrite (Z.mod_small (d + 1) wB) by lia. reflexivity.
Qed.

Lemma fadeAlphaI_of_Z (tolerance d : Z) :
  0 <= d -> fadeAlphaI (num tolerance) (Uint63.of_Z d) = fadeAlpha tolerance d.
Proof.
  intros Hd. unfold fadeAlphaI, fadeAlpha.
  assert (num d = of_uint63 (Uint63.of_Z d)) as ->
    by (unfold num; destruct (Z.ltb_spec d 0); [lia|reflexivity]).
  reflexivity.
Qed.

Lemma ascending_spec (tolerance : Z) (n : nat) (d : Z) :
  1 <= d -> d + Z.of_nat n < 2 ^ 62 ->
  ascending (num tolerance) (fadeAlpha tolerance (d - 1)) (Uint63.of_Z d) n = true ->
  forall z, d <= z < d + Z.of_nat n ->
    (fadeAlpha tolerance (z - 1) <? fadeAlpha tolerance z)%float = true
    /\ scaledOk (fadeAlpha tolerance z) = true.
Proof.
  revert d. induction n as [|n IH]; intros d Hd Hn H z Hz; [lia|].
  simpl in H. rewrite fadeAlphaI_of_Z in H by lia.
  apply andb_prop in H as [H Hrest]. apply andb_prop in H as [Hlt Hsc].
  destruct (Z.eq_dec z d) as [->|Hne]; [split; assumption|].
  apply (IH (d + 1)); [lia|lia| |lia].
  rewrite of_Z_succ in Hrest by lia.
  replace (d + 1 - 1) with d by lia. exact Hrest.
Qed.

(** In the band of a tolerance from 1 to 255, each squared distance has an
    alpha above that of the squared distance before, and within range. *)
Lemma band_step (tolerance z : Z) :
  1 <= tolerance <= 255 ->
  tolerance * tolerance < z <= (tolerance * 2) * (tolerance * 2) ->
  (fadeAlpha tolerance (z - 1) <? fadeAlpha tolerance z)%float = true
  /\ scaledOk (fadeAlpha tolerance z) = true.
Proof.
  intros HT Hz.
  pose proof (forallZ_spec _ _ _ bandOk_all tolerance ltac:(lia)) as H.
  assert (0 <= tolerance * tolerance <= 65025) as Hsq by nia.
  unfold bandOk in H. rewrite fadeAlphaI_of_Z in H by lia.
  replace (tolerance * tolerance) with (tolerance * tolerance + 1 - 1) in H at 1 by lia.
  assert (2 ^ 62 = 4611686018427387904) as E62 by reflexivity.
  assert (Z.of_nat (Z.to_nat (3 * tolerance * tolerance)) = 3 * (tolerance * tolerance))
    as En by lia.
  apply (ascending_spec tolerance (Z.to_nat (3 * tolerance * tolerance))
           (tolerance * tolerance + 1)); [lia|lia|exact H|lia].
Qed.


(** [Math.sqrt] is strictly increasing on the integers up to [510^2]. *)
Lemma sqrt_lt (a b : Z) :
  0 <= a < b -> b <= maxBandSq ->
  (PrimFloat.sqrt (num a) <? PrimFloat.sqrt (num b))%float = true.
Proof.
  intros [Ha Hab] Hb.
  assert (forall k : nat, a + 1 + Z.of_nat k <= maxBandSq ->
            (PrimFloat.sqrt (num a) <? PrimFloat.sqrt (num (a + 1 + Z.of_nat k)))%float
            = true) as Hk.
  { induction k as [|k IH]; intros Hle.
    - replace (a + 1 + Z.of_nat 0) with (a + 1) by lia.
      apply (forallZ_spec _ _ _ sqrtStepOk_all a). unfold maxBandSq in *. lia.
    - eapply FloatOrder.ltb_trans; [apply IH; lia|].
      replace (a + 1 + Z.of_nat (S k)) with (a + 1 + Z.of_nat k + 1) by lia.
      apply (forallZ_spec _ _ _ sqrtStepOk_all (a + 1 + Z.of_nat k)).
      unfold maxBandSq in *. lia. }
  specialize (Hk (Z.to_nat (b - a - 1))).
  replace (a + 1 + Z.of_nat (Z.to_nat (b - a - 1))) with b in Hk by lia.
  apply Hk. lia.
Qed.

(** The alpha byte of difference matting, in the words of the
    specification. *)
Lemma matte_alpha_byte (sumSq : Z) :
  0 <= sumSq <= maxSumSq ->
  Math_round (Matting.alphaOf (Matting.pixelDist (Some sumSq)) * 255)%float
  = Some (Spec.alphaByte (sqrt (IZR sumSq)))
  /\ 0 <= Spec.alphaByte (sqrt (IZR sumSq)) <= 255.
Proof.
  intros HS.
  pose proof (forallZ_spec _ _ _ matteAlphaOk_all sumSq) as H.
  unfold maxSumSq in *. specialize (H ltac:(lia)).
  unfold matteAlphaOk in H.
  destruct (Math_round _) as [k|]; [|discriminate H].
  apply andb_prop in H as [H Hhi]. apply andb_prop in H as [H Hlo].
  apply andb_prop in H as [Hk0 Hk1].
  apply Z.leb_le in Hk0, Hk1. apply Z.ltb_lt in Hhi.
  assert (k = 255 \/ 3 * (2 * (255 - k) - 1) * (2 * (255 - k) - 1) < 4 * sumSq)
    as Hlo'.
  { apply orb_prop in Hlo as [Hlo|Hlo]; [left; apply Z.eqb_eq, Hlo|right; apply Z.ltb_lt, Hlo]. }
  rewrite (SpecFacts.alphaByte_unique sumSq k) by (auto; lia).
  split; [reflexivity|lia].
Qed.

(** The byte does not grow with the sum of squares. *)
Lemma alphaByte_antitone (s1 s2 : Z) :
  0 <= s1 <= s2 -> s2 <= maxSumSq ->
  Spec.alphaByte (sqrt (IZR s2)) <= Spec.alphaByte (sqrt (IZR s1)).
Proof.
  intros Hs Hs2.
  pose proof (forallZ_spec _ _ _ matteAlphaOk_all s1) as H1.
  pose proof (forallZ_spec _ _ _ matteAlphaOk_all s2) as H2.
  unfold maxSumSq in *. specialize (H1 ltac:(lia)). specialize (H2 ltac:(lia)).
  destruct (matte_alpha_byte s1 ltac:(unfold maxSumSq; lia)) as [E1 _].
  destruct (matte_alpha_byte s2 ltac:(unfold maxSumSq; lia)) as [E2 _].
  unfold matteAlphaOk in H1, H2. rewrite E1 in H1. rewrite E2 in H2.
  set (k1 := Spec.alphaByte (sqrt (IZR s1))) in *.
  set (k2 := Spec.alphaByte (sqrt (IZR s2))) in *.
  apply andb_prop in H1 as [H1 Hhi1]. apply andb_prop in H1 as [H1 Hlo1].
  apply andb_prop in H1 as [Hk10 Hk11].
  apply andb_prop in H2 as [H2 Hhi2]. apply andb_prop in H2 as [H2 Hlo2].
  apply andb_prop in H2 as [Hk20 Hk21].
  apply Z.leb_le in Hk10, Hk11, Hk20, Hk21. apply Z.ltb_lt in Hhi1, Hhi2.
  apply orb_prop in Hlo2 as [Hlo2|Hlo2].
  - apply Z.eqb_eq in Hlo2.
    destruct (Z.le_gt_cases k2 k1) as [|Hgt]; [assumption|exfalso].
    (* k2 = 255 forces s2 = 0, hence s1 = 0 and k1 = 255 *)
    rewrite Hlo2 in Hhi2. assert (s2 = 0) by lia. assert (s1 = 0) by lia.
    subst s1. apply orb_prop in Hlo1 as [Hlo1|Hlo1];
      [apply Z.eqb_eq in Hlo1; lia|apply Z.ltb_lt in Hlo1; nia].
  - apply Z.ltb_lt in Hlo2.
    destruct (Z.le_gt_cases k2 k1) as [|Hgt]; [assumption|exfalso].
    (* k1 < k2: the bracket of s1 lies above the bracket of s2 *)
    assert (2 * (255 - k2) + 1 <= 2 * (255 - k1) - 1) by lia.
    assert (k1 <> 255) by lia.
    apply orb_prop in Hlo1 as [Hlo1|Hlo1]; [apply Z.eqb_eq in Hlo1; lia|].
    apply Z.ltb_lt in Hlo1. nia.
Qed.

End ExhaustiveFacts.

(** ** The alpha byte of the fade band does not decrease *)

Module ByteOrderFacts.

Import Exhaustive ExhaustiveFacts ByteOrder.

Lemma scaledBandOk_all : forallZ 1 255 scaledBandOk = true.
Proof. vm_compute. reflexivity. Qed.

Lemma scaledAscending_spec (tolerance : Z) (n : nat) (d : Z) :
  1 <= d -> d + Z.of_nat n < 2 ^ 62 ->
  scaledAscending (num tolerance) (fadeAlpha tolerance (d - 1) * 255)%float
    (Uint63.of_Z d) n = true ->
  forall z, d <= z < d + Z.of_nat n ->
    (fadeAlpha tolerance (z - 1) * 255 <=? fadeAlpha tolerance z * 255)%float = true.
Proof.
  revert d. induction n as [|n IH]; intros d Hd Hn H z Hz; [lia|].
  simpl in H. rewrite fadeAlphaI_of_Z in H by lia.
  apply andb_prop in H as [Hle Hrest].
  destruct (Z.eq_dec z d) as [->|Hne]; [assumption|].
  apply (IH (d + 1)); [lia|lia| |lia].
  rewrite of_Z_succ in Hrest by lia.
  replace (d + 1 - 1) with d by lia. exact Hrest.
Qed.

(** In the band of a tolerance from 1 to 255, 255 times the alpha does
    not decrease from one squared distance to the next. *)
Lemma scaled_step (tolerance z : Z) :
  1 <= tolerance <= 255 ->
  tolerance * tolerance + 1 < z <= (tolerance * 2) * (tolerance * 2) ->
  (fadeAlpha tolerance (z - 1) * 255 <=? fadeAlpha tolerance z * 255)%float = true.
Proof.
  intros HT Hz.
  pose proof (forallZ_spec _ _ _ scaledBandOk_all tolerance ltac:(lia)) as H.
  assert (0 <= tolerance * tolerance <= 65025) as Hsq by nia.
  unfold scaledBandOk in H. rewrite fadeAlphaI_of_Z in H by lia.
  replace (tolerance * tolerance + 1) with (tolerance * tolerance + 2 - 1) in H at 1
    by lia.
  assert (2 ^ 62 = 4611686018427387904) as E62 by reflexivity.
  apply (scaledAscending_spec tolerance (Z.to_nat (3 * tolerance * tolerance - 1))
           (tolerance * tolerance + 2)); [lia|lia|exact H|lia].
Qed.

(** The byte of the fade band: it exists, and it does not decrease from
    one squared distance to the next. *)
Lemma fade_byte_step (tolerance z : Z) :
  1 <= tolerance <= 255 ->
  tolerance * tolerance + 1 < z <= (tolerance * 2) * (tolerance * 2) ->
  exists k1 k2,
    Math_round (fadeAlpha tolerance (z - 1) * 255)%float = Some k1
    /\ Math_round (fadeAlpha tolerance z * 255)%float = Some k2
    /\ 0 <= k1 <= k2.
Proof.
  intros HT Hz.
  destruct (band_step tolerance (z - 1) HT ltac:(lia)) as [_ Hs1].
  destruct (band_step tolerance z HT ltac:(lia)) as [_ Hs2].
  apply andb_prop in Hs1 as [Hlo1 _]. apply andb_prop in Hs2 as [_ Hhi2].
  exact (RoundOrder.Math_round_mono _ _ Hlo1 (scaled_step tolerance z HT Hz) Hhi2).
Qed.

(** The byte of the fade band does not decrease with the squared
    distance. *)
Lemma fade_byte_mono (tolerance d1 d2 : Z) :
  1 <= tolerance <= 255 ->
  tolerance * tolerance < d1 -> d1 <= d2 ->
  d2 <= (tolerance * 2) * (tolerance * 2) ->
  exists k1 k2,
    Math_round (fadeAlpha tolerance d1 * 255)%float = Some k1
    /\ Math_round (fadeAlpha tolerance d2 * 255)%float = Some k2
    /\ 0 <= k1 /\ k1 <= k2 /\ k2 <= 255.
Proof.
  intros HT H1 H12 H2.
  assert (forall d, tolerance * tolerance < d <= (tolerance * 2) * (tolerance * 2) ->
            exists k, Math_round (fadeAlpha tolerance d * 255)%float = Some k
                      /\ 0 <= k <= 255) as Hbyte.
  { intros d Hd. destruct (band_step tolerance d HT Hd) as [_ Hs].
    apply andb_prop in Hs as [Hlo Hhi].
    exact (FloatOrder.Math_round_byte _ Hlo Hhi). }
  destruct (Hbyte d1 ltac:(lia)) as (k1 & Hk1 & Hr1).
  exists k1.
  assert (forall n : nat, d1 + Z.of_nat n <= (tolerance * 2) * (tolerance * 2) ->
            exists k, Math_round (fadeAlpha tolerance (d1 + Z.of_nat n) * 255)%float
                      = Some k /\ k1 <= k <= 255) as Hn.
  { induction n as [|n IH]; intros Hle.
    - exists k1. rewrite Z.add_0_r. split; [exact Hk1|lia].
    - destruct (IH ltac:(lia)) as (k & Hk & Hr).
      destruct (fade_byte_step tolerance (d1 + Z.of_nat (S n)) HT ltac:(lia))
        as (ka & kb & Hka & Hkb & Hab).
      replace (d1 + Z.of_nat (S n) - 1) with (d1 + Z.of_nat n) in Hka by lia.
      rewrite Hk in Hka. injection Hka as <-.
      destruct (Hbyte (d1 + Z.of_nat (S n)) ltac:(lia)) as (kc & Hkc & Hrc).
      rewrite Hkb in Hkc. injection Hkc as <-.
      exists kb. split; [exact Hkb|lia]. }
  destruct (Hn (Z.to_nat (d2 - d1))) as (k2 & Hk2 & Hr2); [lia|].
  replace (d1 + Z.of_nat (Z.to_nat (d2 - d1))) with d2 in Hk2 by lia.
  exists k2. split; [exact Hk1|]. split; [exact Hk2|lia].
Qed.

End ByteOrderFacts.

(** ** Buffers *)

Module Buffer.

Lemma length_writeAt (buf : list Z) (off : Z) (v : jsnum) :
  length (writeAt buf off v) = length buf.
Proof.
  unfold writeAt. destruct (off <? 0); [reflexivity|apply length_insert].
Qed.

Lemma readAt_writeAt (buf : list Z) (off j : Z) (v : jsnum) :
  readAt (writeAt buf off v) j
  = if decide (j = off /\ 0 <= off < Z.of_nat (length buf))
    then Some (ToUint8 v) else readAt buf j.
Proof.
  unfold readAt, writeAt.
  destruct (Z.ltb_spec j 0) as [Hj|Hj].
  { rewrite decide_False by lia. reflexivity. }
  destruct (Z.ltb_spec off 0) as [Ho|Ho].
  { rewrite decide_False by lia. reflexivity. }
  destruct (decide (j = off /\ 0 <= off < Z.of_nat (length buf))) as [[-> Hlt]|Hn].
  - apply list_lookup_insert_eq. lia.
  - destruct (decide (j = off)) as [->|Hne].
    + rewrite list_insert_ge by lia. reflexivity.
    + apply list_lookup_insert_ne. lia.
Qed.

Lemma readAt_is_Some (buf : list Z) (off : Z) :
  0 <= off < Z.of_nat (length buf) -> is_Some (readAt buf off).
Proof.
  intros H. unfold readAt. destruct (Z.ltb_spec off 0); [lia|].
  apply lookup_lt_is_Some. lia.
Qed.

Lemma readAt_None (buf : list Z) (off : Z) :
  Z.of_nat (length buf) <= off -> readAt buf off = None.
Proof.
  intros H. unfold readAt. destruct (Z.ltb_spec off 0); [reflexivity|].
  apply lookup_ge_None. lia.
Qed.

Lemma readAt_byte (buf : list Z) (off z : Z) :
  Forall is_byte buf -> readAt buf off = Some z -> is_byte z.
Proof.
  intros Hb. unfold readAt. destruct (off <? 0); [discriminate|].
  intros H. exact (Forall_lookup_1 _ _ _ _ Hb H).
Qed.

Lemma ToUint8_byte (k : Z) : 0 <= k <= 255 -> ToUint8 (Some k) = k.
Proof. intros H. simpl. apply Z.mod_small. lia. Qed.

Lemma component_0 (o0 o1 o2 o3 : jsnum) : component 0 (o0, o1, o2, o3) = o0.
Proof. reflexivity. Qed.

Lemma component_1 (o0 o1 o2 o3 : jsnum) : component 1 (o0, o1, o2, o3) = o1.
Proof. reflexivity. Qed.

Lemma component_2 (o0 o1 o2 o3 : jsnum) : component 2 (o0, o1, o2, o3) = o2.
Proof. reflexivity. Qed.

Lemma component_3 (o0 o1 o2 o3 : jsnum) : component 3 (o0, o1, o2, o3) = o3.
Proof. reflexivity. Qed.

(** Two buffers that read alike are the same buffer. *)
Lemma readAt_ext (buf1 buf2 : list Z) :
  (forall j, 0 <= j -> readAt buf1 j = readAt buf2 j) -> buf1 = buf2.
Proof.
  intros H. apply list_eq. intros i.
  specialize (H (Z.of_nat i) ltac:(lia)). unfold readAt in H.
  destruct (Z.ltb_spec (Z.of_nat i) 0); [lia|].
  rewrite Nat2Z.id in H. exact H.
Qed.

(** A decoded image has the three channels of each of its pixels. *)
Lemma rgbAt_raw (img : Decoded) (i : Z) :
  raw_rgba img -> 0 <= i < width img * height img ->
  exists pr pg pb,
    rgbAt (data img) i = (Some pr, Some pg, Some pb)
    /\ is_byte pr /\ is_byte pg /\ is_byte pb.
Proof.
  intros [Hw Hh Hlen Hbytes] Hi. unfold rgbAt.
  destruct (readAt_is_Some (data img) (i * 4) ltac:(lia)) as [pr Hr].
  destruct (readAt_is_Some (data img) (i * 4 + 1) ltac:(lia)) as [pg Hg].
  destruct (readAt_is_Some (data img) (i * 4 + 2) ltac:(lia)) as [pb Hb].
  exists pr, pg, pb. rewrite Hr, Hg, Hb.
  split; [reflexivity|split; [|split]]; eapply readAt_byte; eassumption.
Qed.

End Buffer.

(** ** Difference matting: the loop and the pixel *)

Module MattingFacts.

Import Exhaustive ExhaustiveFacts Buffer.

(** The loop fills the output buffer pixel by pixel; nothing it reads is
    something it wrote. *)
Lemma matting_fold_read (dataWhite dataBlack : list Z) (n : nat) (out : list Z) (j : Z) :
  readAt (foldl (Matting.step dataWhite dataBlack) out (seqZ 0 (Z.of_nat n))) j
  = (if decide (0 <= j < 4 * Z.of_nat n /\ j < Z.of_nat (length out))
     then Some (ToUint8 (component (j mod 4)
                  (Matting.pixelOut (rgbAt dataWhite (j / 4)) (rgbAt dataBlack (j / 4)))))
     else readAt out j)
  /\ length (foldl (Matting.step dataWhite dataBlack) out (seqZ 0 (Z.of_nat n)))
     = length out.
Proof.
  induction n as [|n [IHr IHl]].
  - simpl. split; [|reflexivity]. rewrite decide_False by lia. reflexivity.
  - rewrite seqZ_S, foldl_app. simpl foldl.
    set (buf := foldl _ out (seqZ 0 (Z.of_nat n))) in *.
    unfold Matting.step. cbv zeta.
    replace (0 + Z.of_nat n) with (Z.of_nat n) by lia.
    destruct (Matting.pixelOut (rgbAt dataWhite (Z.of_nat n))
                (rgbAt dataBlack (Z.of_nat n))) as [[[o0 o1] o2] o3] eqn:Hout.
    split; [|rewrite !length_writeAt; exact IHl].
    rewrite !readAt_writeAt, !length_writeAt, IHl.
    assert (forall k, 0 <= k < 4 -> j = Z.of_nat n * 4 + k ->
              j mod 4 = k /\ j / 4 = Z.of_nat n) as Hdm.
    { intros k Hk ->. split.
      - rewrite Z.add_comm, Z.mod_add by lia. apply Z.mod_small. lia.
      - rewrite Z.add_comm, Z.div_add by lia. rewrite Z.div_small by lia. lia. }
    repeat match goal with
      | |- context [decide (j = ?o /\ ?P)] =>
          destruct (decide (j = o /\ P)) as [[Hj Hr]|?]
      end;
      try (first [destruct (Hdm 0 ltac:(lia) ltac:(lia)) as [E1 E2]
                 |destruct (Hdm 1 ltac:(lia) ltac:(lia)) as [E1 E2]
                 |destruct (Hdm 2 ltac:(lia) ltac:(lia)) as [E1 E2]
                 |destruct (Hdm 3 ltac:(lia) ltac:(lia)) as [E1 E2]];
           rewrite E1, E2, decide_True by lia; rewrite Hout; reflexivity).
    rewrite IHr.
    destruct (decide (0 <= j < 4 * Z.of_nat n /\ j < Z.of_nat (length out)))
      as [Hin|Hnin].
    + rewrite decide_True by lia. reflexivity.
    + destruct (decide (0 <= j < 4 * Z.of_nat (S n) /\ j < Z.of_nat (length out)))
        as [Hin'|Hnin']; [exfalso; lia|reflexivity].
Qed.

(** The sum of squares of three byte differences. *)
Lemma sumSquares_bytes (rW gW bW rB gB bB : Z) :
  is_byte rW -> is_byte gW -> is_byte bW ->
  is_byte rB -> is_byte gB -> is_byte bB ->
  0 <= (rW - rB) * (rW - rB) + (gW - gB) * (gW - gB) + (bW - bB) * (bW - bB)
    <= maxSumSq.
Proof.
  unfold is_byte, maxSumSq. intros.
  assert (forall d, -255 <= d <= 255 -> 0 <= d * d <= 65025) as Hsq.
  { intros d Hd. split; [apply Z.square_nonneg|].
    assert (0 <= (255 - d) * (255 + d)) by (apply Z.mul_nonneg_nonneg; lia).
    lia. }
  pose proof (Hsq (rW - rB) ltac:(lia)). pose proof (Hsq (gW - gB) ltac:(lia)).
  pose proof (Hsq (bW - bB) ltac:(lia)). lia.
Qed.

(** The distance the code computes for a pixel of bytes. *)
Lemma distOf_bytes (rW gW bW rB gB bB : Z) :
  Matting.distOf (Some rW, Some gW, Some bW) (Some rB, Some gB, Some bB)
  = Matting.pixelDist
      (Some ((rW - rB) * (rW - rB) + (gW - gB) * (gW - gB)
             + (bW - bB) * (bW - bB))).
Proof. reflexivity. Qed.

Lemma recover_channels (alpha : float) (rB gB bB : Z) :
  Matting.recover alpha (Some rB) (Some gB) (Some bB)
  = (channelOf alpha rB, channelOf alpha gB, channelOf alpha bB).
Proof.
  unfold Matting.recover, channelOf. simpl toFloat.
  destruct (0.01 <? alpha)%float; reflexivity.
Qed.

(** The four numbers of an output pixel, for a pixel of bytes. *)
Lemma pixelOut_bytes (rW gW bW rB gB bB : Z) :
  let alpha :=
    Matting.alphaOf (Matting.distOf (Some rW, Some gW, Some bW)
                                    (Some rB, Some gB, Some bB)) in
  Matting.pixelOut (Some rW, Some gW, Some bW) (Some rB, Some gB, Some bB)
  = (Math_round (Math_min 255 (channelOf alpha rB)),
     Math_round (Math_min 255 (channelOf alpha gB)),
     Math_round (Math_min 255 (channelOf alpha bB)),
     Math_round (alpha * 255)%float).
Proof.
  intros alpha. unfold Matting.pixelOut. fold alpha.
  rewrite recover_channels. reflexivity.
Qed.

Lemma num_byte_nonneg (c : Z) : is_byte c -> nonneg_finite (num c) = true.
Proof.
  intros Hc. apply (forallZ_spec _ _ _ byteNumOk_all c). unfold is_byte in Hc. lia.
Qed.

(** A recovered channel, clamped and rounded, is a byte. *)
Lemma channel_byte (alpha : float) (c : Z) :
  is_byte c ->
  exists n, Math_round (Math_min 255 (channelOf alpha c)) = Some n /\ 0 <= n <= 255.
Proof.
  intros Hc.
  assert ((0 <=? channelOf alpha c)%float = true) as H0.
  { unfold channelOf. destruct (0.01 <? alpha)%float eqn:Ha; [|reflexivity].
    apply (FloatOrder.div_nonneg _ _ 0.01%float);
      [apply num_byte_nonneg, Hc|right; vm_compute; reflexivity|exact Ha]. }
  destruct (FloatOrder.Math_min_255_range _ H0) as [Hlo Hhi].
  exact (FloatOrder.Math_round_byte _ Hlo Hhi).
Qed.

(** The alpha byte of a pixel of bytes is the byte of the specification. *)
Lemma alpha_byte_spec (rW gW bW rB gB bB : Z) :
  is_byte rW -> is_byte gW -> is_byte bW ->
  is_byte rB -> is_byte gB -> is_byte bB ->
  Math_round (Matting.alphaOf (Matting.distOf (Some rW, Some gW, Some bW)
                                              (Some rB, Some gB, Some bB)) * 255)%float
  = Some (Spec.alphaByte (Spec.pixelDist (rW, gW, bW) (rB, gB, bB)))
  /\ 0 <= Spec.alphaByte (Spec.pixelDist (rW, gW, bW) (rB, gB, bB)) <= 255.
Proof.
  intros. rewrite distOf_bytes, SpecFacts.pixelDist_sumSq.
  apply matte_alpha_byte. apply sumSquares_bytes; assumption.
Qed.

(** What the loop leaves in the output buffer, pixel by pixel. *)
Lemma extract_reads (white black : Decoded) :
  raw_rgba white -> raw_rgba black ->
  width white = width black -> height white = height black ->
  exists out,
    Matting.extractAlphaTwoPass white black = inr out
    /\ width out = width white /\ height out = height white
    /\ forall i k, 0 <= i < width white * height white -> 0 <= k < 4 ->
         readAt (data out) (i * 4 + k)
         = Some (ToUint8 (component k
                   (Matting.pixelOut (rgbAt (data white) i) (rgbAt (data black) i)))).
Proof.
  intros [Hw Hh Hlen _] [_ _ Hlen' _] Ew Eh.
  unfold Matting.extractAlphaTwoPass.
  assert (length (data white) = length (data black)) as El by (rewrite <- Ew, <- Eh in Hlen'; lia).
  rewrite (proj2 (Nat.eqb_eq _ _) El). simpl negb. cbv iota.
  eexists. split; [reflexivity|]. simpl. split; [reflexivity|]. split; [reflexivity|].
  intros i k Hi Hk.
  assert (0 <= width white * height white) as Hn by lia.
  rewrite <- (Z2Nat.id _ Hn).
  destruct (matting_fold_read (data white) (data black)
              (Z.to_nat (width white * height white))
              (replicate (length (data white)) 0) (i * 4 + k)) as [-> _].
  rewrite length_replicate, decide_True by lia.
  replace ((i * 4 + k) mod 4) with k
    by (rewrite Z.add_comm, Z.mod_add by lia; symmetry; apply Z.mod_small; lia).
  replace ((i * 4 + k) / 4) with i
    by (rewrite Z.add_comm, Z.div_add by lia; rewrite Z.div_small by lia; lia).
  reflexivity.
Qed.

(** The distance of the code orders pixels as the sums of squares do. *)
Lemma pixelDist_leb (s1 s2 : Z) :
  0 <= s1 <= maxSumSq -> 0 <= s2 <= maxSumSq ->
  (Matting.pixelDist (Some s1) <=? Matting.pixelDist (Some s2))%float = true ->
  s1 <= s2.
Proof.
  intros H1 H2 Hle. destruct (Z.le_gt_cases s1 s2) as [|Hgt]; [assumption|exfalso].
  unfold Matting.pixelDist in Hle. simpl toFloat in Hle.
  rewrite (FloatOrder.ltb_leb_false _ _ (sqrt_lt s2 s1 ltac:(lia)
             ltac:(unfold maxSumSq, maxBandSq in *; lia))) in Hle.
  discriminate Hle.
Qed.

(** The distance of the code is zero for a sum of squares of zero only. *)
Lemma pixelDist_eqb_0 (s : Z) :
  0 <= s <= maxSumSq ->
  (Matting.pixelDist (Some s) =? 0)%float = true -> s = 0.
Proof.
  intros Hs Heq. destruct (Z.eq_dec s 0) as [|Hne]; [assumption|exfalso].
  pose proof (sqrt_lt 0 s ltac:(lia) ltac:(unfold maxSumSq, maxBandSq in *; lia)) as Hlt.
  apply FloatOrder.ltb_eqb_false in Hlt.
  replace (PrimFloat.sqrt (num 0)) with 0%float in Hlt by (vm_compute; reflexivity).
  unfold Matting.pixelDist in Heq. simpl toFloat in Heq.
  rewrite Hlt in Heq. discriminate Heq.
Qed.

(** The distance of the specification orders them the same way. *)
Lemma pixelDist_Rle (s1 s2 : Z) :
  0 <= s1 -> 0 <= s2 -> (sqrt (IZR s1) <= sqrt (IZR s2))%R -> s1 <= s2.
Proof.
  intros H1 H2 Hle. apply le_IZR.
  apply sqrt_le_0; [apply IZR_le, H1|apply IZR_le, H2|exact Hle].
Qed.

End MattingFacts.

(** ** The local chroma key: the loop and the pixel *)

Module ChromaFacts.

Import Exhaustive ExhaustiveFacts Buffer.

(** The loop works on the buffer it reads, but writes alpha bytes only and
    reads colour bytes only: each alpha byte is computed from the colour
    of the input. *)
Lemma chroma_fold_read (bgColor : Color) (tolerance : Z) (buf : list Z) (n : nat) :
  (forall j,
     readAt (foldl (ChromaKey.step bgColor tolerance) buf (seqZ 0 (Z.of_nat n))) j
     = if decide (0 <= j < 4 * Z.of_nat n /\ j < Z.of_nat (length buf) /\ j mod 4 = 3)
       then Some (ToUint8 (ChromaKey.pixelAlpha (rgbAt buf (j / 4)) bgColor tolerance))
       else readAt buf j)
  /\ length (foldl (ChromaKey.step bgColor tolerance) buf (seqZ 0 (Z.of_nat n)))
     = length buf.
Proof.
  induction n as [|n [IHr IHl]].
  - simpl. split; [|reflexivity]. intros j. rewrite decide_False by lia. reflexivity.
  - rewrite seqZ_S, foldl_app. simpl foldl.
    set (buf' := foldl _ buf (seqZ 0 (Z.of_nat n))) in *.
    unfold ChromaKey.step. cbv zeta.
    replace (0 + Z.of_nat n) with (Z.of_nat n) by lia.
    split; [|rewrite length_writeAt; exact IHl].
    assert (rgbAt buf' (Z.of_nat n) = rgbAt buf (Z.of_nat n)) as Hrgb.
    { unfold rgbAt. rewrite !IHr.
      rewrite !decide_False; [reflexivity| | |].
      - intros (_ & _ & Hm). revert Hm.
        rewrite Z.add_comm, Z.mod_add by lia. rewrite Z.mod_small; lia.
      - intros (_ & _ & Hm). revert Hm.
        rewrite Z.add_comm, Z.mod_add by lia. rewrite Z.mod_small; lia.
      - intros (_ & _ & Hm). revert Hm. rewrite Z.mod_mul; lia. }
    rewrite Hrgb. intros j.
    rewrite readAt_writeAt, IHl, IHr.
    destruct (decide (j = Z.of_nat n * 4 + 3
                      /\ 0 <= Z.of_nat n * 4 + 3 < Z.of_nat (length buf)))
      as [[-> Hr]|Hn].
    + assert ((Z.of_nat n * 4 + 3) mod 4 = 3) as Hm
        by (rewrite Z.add_comm, Z.mod_add by lia; reflexivity).
      assert ((Z.of_nat n * 4 + 3) / 4 = Z.of_nat n) as Hd
        by (rewrite Z.add_comm, Z.div_add by lia; reflexivity).
      rewrite decide_True by lia. rewrite Hd. reflexivity.
    + destruct (decide (0 <= j < 4 * Z.of_nat n /\ j < Z.of_nat (length buf)
                        /\ j mod 4 = 3)) as [Hin|Hnin].
      * rewrite decide_True by lia. reflexivity.
      * rewrite decide_False; [reflexivity|].
        intros (Hj & Hlen & Hm). apply Hnin. split; [|auto].
        assert (j <> Z.of_nat n * 4 + 3) by (intros ->; apply Hn; split; lia).
        pose proof (Z.div_mod j 4 ltac:(lia)) as Hdm. rewrite Hm in Hdm.
        lia.
Qed.

(** Where the fade band lies. *)
Lemma band_Fade (d tolerance : Z) :
  ChromaKey.band (Some d) tolerance = ChromaKey.Fade
  <-> tolerance * tolerance < d <= (tolerance * 2) * (tolerance * 2).
Proof.
  unfold ChromaKey.band, ChromaKey.numLe.
  destruct (Z.leb_spec d (tolerance * tolerance));
    destruct (Z.leb_spec d (tolerance * 2 * (tolerance * 2)));
    split; intros Hb; try discriminate Hb; try reflexivity; lia.
Qed.

Lemma band_None (tolerance : Z) :
  ChromaKey.band None tolerance = ChromaKey.Opaque.
Proof. reflexivity. Qed.

Lemma alphaOf_Fade (d tolerance : Z) :
  tolerance * tolerance < d <= (tolerance * 2) * (tolerance * 2) ->
  ChromaKey.alphaOf (Some d) tolerance = fadeAlpha tolerance d.
Proof.
  intros H. unfold ChromaKey.alphaOf.
  rewrite (proj2 (band_Fade d tolerance) H). reflexivity.
Qed.

(** For a tolerance from 0 to 255 the number stored in an alpha byte is a
    byte already: the store does not wrap. *)
Lemma pixelAlpha_byte (px : jsnum * jsnum * jsnum) (bgColor : Color)
    (tolerance : Z) :
  0 <= tolerance <= 255 ->
  exists n, ChromaKey.pixelAlpha px bgColor tolerance = Some n /\ 0 <= n <= 255.
Proof.
  intros HT. unfold ChromaKey.pixelAlpha, ChromaKey.alphaOf.
  destruct (ChromaKey.band _ tolerance) eqn:Hband.
  - exists 0. split; [vm_compute; reflexivity|lia].
  - destruct (ChromaKey.distSquaredOf px bgColor) as [d|];
      [|rewrite band_None in Hband; discriminate Hband].
    apply band_Fade in Hband.
    assert (1 <= tolerance) as HT1 by nia.
    destruct (band_step tolerance d ltac:(lia) Hband) as [_ Hsc].
    apply andb_prop in Hsc as [Hlo Hhi].
    exact (FloatOrder.Math_round_byte _ Hlo Hhi).
  - exists 255. split; [vm_compute; reflexivity|lia].
Qed.

End ChromaFacts.

(** ** Difference matting: the claims *)

Module MattingClaims.

Import Exhaustive ExhaustiveFacts Buffer MattingFacts.

Lemma raw_onWhite : raw_rgba Samples.onWhite.
Proof.
  constructor; simpl; [lia|lia|reflexivity|].
  repeat constructor; unfold is_byte; lia.
Defined.

Lemma raw_onBlack : raw_rgba Samples.onBlack.
Proof.
  constructor; simpl; [lia|lia|reflexivity|].
  repeat constructor; unfold is_byte; lia.
Defined.

Lemma raw_onBlackTransposed : raw_rgba Samples.onBlackTransposed.
Proof.
  constructor; simpl; [lia|lia|reflexivity|].
  repeat constructor; unfold is_byte; lia.
Defined.

(** A pixel seen alike on white and on black comes out opaque, with the
    colour of the pass on black. *)
Lemma pixelOut_opaque (rW gW bW rB gB bB : Z) :
  is_byte rB -> is_byte gB -> is_byte bB ->
  (rW - rB) * (rW - rB) + (gW - gB) * (gW - gB) + (bW - bB) * (bW - bB) = 0 ->
  Matting.pixelOut (Some rW, Some gW, Some bW) (Some rB, Some gB, Some bB)
  = (Some rB, Some gB, Some bB, Some 255).
Proof.
  intros Hr Hg Hb HS.
  rewrite pixelOut_bytes. cbv zeta. rewrite distOf_bytes, HS.
  replace (Matting.alphaOf (Matting.pixelDist (Some 0))) with 1%float
    by (vm_compute; reflexivity).
  assert (forall c, is_byte c ->
            Math_round (Math_min 255 (channelOf 1 c)) = Some c) as Hc.
  { intros c Hc. unfold is_byte in Hc.
    pose proof (forallZ_spec _ _ _ opaqueOk_all c ltac:(lia)) as H.
    unfold opaqueOk in H. unfold channelOf.
    replace (0.01 <? 1)%float with true by (vm_compute; reflexivity).
    destruct (Math_round _) as [k|]; [|discriminate H].
    apply Z.eqb_eq in H. now subst k. }
  rewrite !Hc by assumption.
  replace (Math_round (1 * 255)%float) with (Some 255) by (vm_compute; reflexivity).
  reflexivity.
Qed.

(** C1. For two decoded images of the same size and every pixel [i],
    [extractAlphaTwoPass] succeeds and the alpha byte it writes for [i] is
    [round(clamp(1 - pixelDist / bgDist, 0, 1) * 255)] computed over the
    real numbers, [pixelDist] being the Euclidean distance between the two
    observations of the pixel and [bgDist = sqrt(3 * 255^2)]; when that
    distance is 0, or when the [pixelDist] the code computes is 0, the byte
    is 255 and the output colour is the colour of the pass on black. *)
Theorem matting_alpha_byte_formula (white black : Decoded) (i : Z) :
  raw_rgba white -> raw_rgba black ->
  width white = width black -> height white = height black ->
  0 <= i < width white * height white ->
  exists out W B,
    Matting.extractAlphaTwoPass white black = inr out
    /\ rgbAt (data white) i = read3 W
    /\ rgbAt (data black) i = read3 B
    /\ readAt (data out) (i * 4 + 3)
       = Some (Spec.alphaByte (Spec.pixelDist W B))
    /\ (Spec.pixelDist W B = 0%R
        \/ (Matting.distOf (read3 W) (read3 B) =? 0)%float = true ->
        readAt (data out) (i * 4 + 3) = Some 255
        /\ rgbAt (data out) i = read3 B).
Proof.
  intros Hwhite Hblack Ew Eh Hi.
  destruct (extract_reads white black Hwhite Hblack Ew Eh)
    as (out & Hout & _ & _ & Hread).
  destruct (rgbAt_raw white i Hwhite Hi) as (rW & gW & bW & HW & HrW & HgW & HbW).
  destruct (rgbAt_raw black i Hblack ltac:(rewrite <- Ew, <- Eh; exact Hi))
    as (rB & gB & bB & HB & HrB & HgB & HbB).
  exists out, (rW, gW, bW), (rB, gB, bB).
  split; [exact Hout|]. split; [exact HW|]. split; [exact HB|].
  pose proof (Hread i 3 Hi ltac:(lia)) as H3.
  rewrite HW, HB in H3.
  destruct (alpha_byte_spec rW gW bW rB gB bB HrW HgW HbW HrB HgB HbB) as [Ha Hrange].
  split.
  - rewrite H3, pixelOut_bytes. cbv zeta. rewrite component_3.
    rewrite Ha, ToUint8_byte by exact Hrange. reflexivity.
  - intros Hd0.
    pose proof (sumSquares_bytes rW gW bW rB gB bB HrW HgW HbW HrB HgB HbB) as HS.
    assert ((rW - rB) * (rW - rB) + (gW - gB) * (gW - gB)
            + (bW - bB) * (bW - bB) = 0) as Hd.
    { destruct Hd0 as [Hd|Hd].
      - rewrite SpecFacts.pixelDist_sumSq in Hd.
        apply sqrt_eq_0 in Hd; [|apply IZR_le, HS]. apply eq_IZR in Hd. exact Hd.
      - simpl read3 in Hd. rewrite distOf_bytes in Hd.
        exact (pixelDist_eqb_0 _ HS Hd). }
    pose proof (pixelOut_opaque rW gW bW rB gB bB HrB HgB HbB Hd) as Hop.
    split.
    + rewrite H3, Hop, component_3. reflexivity.
    + unfold rgbAt.
      pose proof (Hread i 0 Hi ltac:(lia)) as H0.
      pose proof (Hread i 1 Hi ltac:(lia)) as H1.
      pose proof (Hread i 2 Hi ltac:(lia)) as H2.
      rewrite Z.add_0_r in H0.
      rewrite H0, H1, H2, HW, HB, Hop, component_0, component_1, component_2.
      unfold is_byte in *. rewrite !ToUint8_byte by assumption. reflexivity.
Qed.

Lemma matting_alpha_byte_formula_witness :
  (raw_rgba Samples.onWhite /\ raw_rgba Samples.onBlack
   /\ width Samples.onWhite = width Samples.onBlack
   /\ height Samples.onWhite = height Samples.onBlack
   /\ 0 <= 1 < width Samples.onWhite * height Samples.onWhite)
  /\ exists out W B,
       Matting.extractAlphaTwoPass Samples.onWhite Samples.onBlack = inr out
       /\ rgbAt (data Samples.onWhite) 1 = read3 W
       /\ rgbAt (data Samples.onBlack) 1 = read3 B
       /\ readAt (data out) (1 * 4 + 3)
          = Some (Spec.alphaByte (Spec.pixelDist W B))
       /\ (Spec.pixelDist W B = 0%R
           \/ (Matting.distOf (read3 W) (read3 B) =? 0)%float = true ->
           readAt (data out) (1 * 4 + 3) = Some 255
           /\ rgbAt (data out) 1 = read3 B).
Proof.
  assert (0 <= 1 < width Samples.onWhite * height Samples.onWhite) as Hi
    by (simpl; lia).
  split.
  - repeat split; try reflexivity; try apply raw_onWhite; try apply raw_onBlack;
      apply Hi.
  - exact (matting_alpha_byte_formula Samples.onWhite Samples.onBlack 1
             raw_onWhite raw_onBlack eq_refl eq_refl Hi).
Defined.

(** What the guard of lines 157-159 does catch: two decoded images with
    different numbers of pixels. *)
Lemma length_guard (white black : Decoded) :
  raw_rgba white -> raw_rgba black ->
  width white * height white <> width black * height black ->
  Matting.extractAlphaTwoPass white black = inl DimensionMismatch.
Proof.
  intros [_ _ Hlen _] [_ _ Hlen' _] Hne. unfold Matting.extractAlphaTwoPass.
  destruct (Nat.eqb_spec (length (data white)) (length (data black))) as [E|_];
    [exfalso; lia|reflexivity].
Qed.

(** C2. The guard compares the lengths of the two buffers, not the
    dimensions: a 2 by 1 pass on white and a 1 by 2 pass on black, both
    well formed and of different width and height, are not rejected, and an
    output image is produced. *)
Theorem transposed_dimensions_not_rejected :
  raw_rgba Samples.onWhite /\ raw_rgba Samples.onBlackTransposed
  /\ width Samples.onWhite <> width Samples.onBlackTransposed
  /\ height Samples.onWhite <> height Samples.onBlackTransposed
  /\ Matting.extractAlphaTwoPass Samples.onWhite Samples.onBlackTransposed
     = inr (mkDecoded [0; 0; 0; 0;  200; 100; 50; 255] 2 1).
Proof.
  split; [exact raw_onWhite|]. split; [exact raw_onBlackTransposed|].
  split; [discriminate|]. split; [discriminate|].
  vm_compute. reflexivity.
Qed.

(** C5. For every pixel of two decoded images of the same size: the
    alpha is on one side of the guard; at most [0.01], no quotient is formed
    and the output colour is (0, 0, 0); above [0.01], each output channel
    is [round(min(255, channel / alpha))] of the pass on black; in both
    cases the call succeeds and the three numbers stored are bytes (no
    [NaN], no infinity, nothing above 255 reaches the buffer). *)
Theorem matting_colour_recovery (white black : Decoded) (i : Z) :
  raw_rgba white -> raw_rgba black ->
  width white = width black -> height white = height black ->
  0 <= i < width white * height white ->
  exists out rB gB bB,
    Matting.extractAlphaTwoPass white black = inr out
    /\ rgbAt (data black) i = (Some rB, Some gB, Some bB)
    /\ let alpha :=
         Matting.alphaOf (Matting.distOf (rgbAt (data white) i)
                                         (rgbAt (data black) i)) in
       ((alpha <=? 0.01)%float = true \/ (0.01 <? alpha)%float = true)
       /\ ((alpha <=? 0.01)%float = true ->
           Matting.recover alpha (Some rB) (Some gB) (Some bB)
           = (0%float, 0%float, 0%float)
           /\ rgbAt (data out) i = (Some 0, Some 0, Some 0))
       /\ ((0.01 <? alpha)%float = true ->
           rgbAt (data out) i
           = (Math_round (Math_min 255 (num rB / alpha)),
              Math_round (Math_min 255 (num gB / alpha)),
              Math_round (Math_min 255 (num bB / alpha))))
       /\ exists ro go bo,
            rgbAt (data out) i = (Some ro, Some go, Some bo)
            /\ is_byte ro /\ is_byte go /\ is_byte bo.
Proof.
  intros Hwhite Hblack Ew Eh Hi.
  destruct (extract_reads white black Hwhite Hblack Ew Eh)
    as (out & Hout & _ & _ & Hread).
  destruct (rgbAt_raw white i Hwhite Hi) as (rW & gW & bW & HW & HrW & HgW & HbW).
  destruct (rgbAt_raw black i Hblack ltac:(rewrite <- Ew, <- Eh; exact Hi))
    as (rB & gB & bB & HB & HrB & HgB & HbB).
  exists out, rB, gB, bB.
  split; [exact Hout|]. split; [exact HB|].
  rewrite HW, HB. intros alpha.
  assert (rgbAt (data out) i
          = (Math_round (Math_min 255 (channelOf alpha rB)),
             Math_round (Math_min 255 (channelOf alpha gB)),
             Math_round (Math_min 255 (channelOf alpha bB)))
          /\ exists ro go bo,
               rgbAt (data out) i = (Some ro, Some go, Some bo)
               /\ is_byte ro /\ is_byte go /\ is_byte bo) as [Hrgb Hbytes].
  { unfold rgbAt.
    pose proof (Hread i 0 Hi ltac:(lia)) as H0.
    pose proof (Hread i 1 Hi ltac:(lia)) as H1.
    pose proof (Hread i 2 Hi ltac:(lia)) as H2.
    rewrite Z.add_0_r in H0.
    rewrite H0, H1, H2, HW, HB, pixelOut_bytes. cbv zeta. fold alpha.
    rewrite component_0, component_1, component_2.
    destruct (channel_byte alpha rB HrB) as (ro & -> & Hro).
    destruct (channel_byte alpha gB HgB) as (go & -> & Hgo).
    destruct (channel_byte alpha bB HbB) as (bo & -> & Hbo).
    rewrite !ToUint8_byte by assumption.
    split; [reflexivity|]. exists ro, go, bo. auto. }
  split; [|split; [|split]].
  - pose proof (sumSquares_bytes rW gW bW rB gB bB HrW HgW HbW HrB HgB HbB) as HS.
    pose proof (forallZ_spec _ _ _ guardOk_all
                  ((rW - rB) * (rW - rB) + (gW - gB) * (gW - gB)
                   + (bW - bB) * (bW - bB))
                  ltac:(unfold maxSumSq in *; lia)) as Hg.
    unfold guardOk in Hg. apply orb_prop in Hg.
    unfold alpha. rewrite distOf_bytes. exact Hg.
  - intros Hle. pose proof (FloatOrder.leb_ltb_false _ _ Hle) as Hlt.
    unfold Matting.recover. rewrite Hlt. split; [reflexivity|].
    rewrite Hrgb. unfold channelOf. rewrite Hlt.
    replace (Math_round (Math_min 255 0)) with (Some 0) by (vm_compute; reflexivity).
    reflexivity.
  - intros Hlt. rewrite Hrgb. unfold channelOf. rewrite Hlt. reflexivity.
  - exact Hbytes.
Qed.

Lemma matting_colour_recovery_witness :
  (raw_rgba Samples.onWhite /\ raw_rgba Samples.onBlack
   /\ width Samples.onWhite = width Samples.onBlack
   /\ height Samples.onWhite = height Samples.onBlack
   /\ 0 <= 0 < width Samples.onWhite * height Samples.onWhite)
  /\ exists out rB gB bB,
       Matting.extractAlphaTwoPass Samples.onWhite Samples.onBlack = inr out
       /\ rgbAt (data Samples.onBlack) 0 = (Some rB, Some gB, Some bB)
       /\ let alpha :=
            Matting.alphaOf (Matting.distOf (rgbAt (data Samples.onWhite) 0)
                                            (rgbAt (data Samples.onBlack) 0)) in
          ((alpha <=? 0.01)%float = true \/ (0.01 <? alpha)%float = true)
          /\ ((alpha <=? 0.01)%float = true ->
              Matting.recover alpha (Some rB) (Some gB) (Some bB)
              = (0%float, 0%float, 0%float)
              /\ rgbAt (data out) 0 = (Some 0, Some 0, Some 0))
          /\ ((0.01 <? alpha)%float = true ->
              rgbAt (data out) 0
              = (Math_round (Math_min 255 (num rB / alpha)),
                 Math_round (Math_min 255 (num gB / alpha)),
                 Math_round (Math_min 255 (num bB / alpha))))
          /\ exists ro go bo,
               rgbAt (data out) 0 = (Some ro, Some go, Some bo)
               /\ is_byte ro /\ is_byte go /\ is_byte bo.
Proof.
  assert (0 <= 0 < width Samples.onWhite * height Samples.onWhite) as Hi
    by (simpl; lia).
  split.
  - repeat split; try reflexivity; try apply raw_onWhite; try apply raw_onBlack;
      apply Hi.
  - exact (matting_colour_recovery Samples.onWhite Samples.onBlack 0
             raw_onWhite raw_onBlack eq_refl eq_refl Hi).
Defined.

(** C7. Of two pixels of one run, the one with the larger distance
    between its two observations does not get the larger alpha byte,
    whether the distances compared are the Euclidean distances or the
    binary64 numbers [pixelDist] the code computes. *)
Theorem matting_alpha_antitone (white black : Decoded) (i1 i2 : Z) :
  raw_rgba white -> raw_rgba black ->
  width white = width black -> height white = height black ->
  0 <= i1 < width white * height white ->
  0 <= i2 < width white * height white ->
  exists out W1 B1 W2 B2 a1 a2,
    Matting.extractAlphaTwoPass white black = inr out
    /\ rgbAt (data white) i1 = read3 W1 /\ rgbAt (data black) i1 = read3 B1
    /\ rgbAt (data white) i2 = read3 W2 /\ rgbAt (data black) i2 = read3 B2
    /\ readAt (data out) (i1 * 4 + 3) = Some a1
    /\ readAt (data out) (i2 * 4 + 3) = Some a2
    /\ ((Spec.pixelDist W1 B1 <= Spec.pixelDist W2 B2)%R -> a2 <= a1)
    /\ ((Matting.distOf (read3 W1) (read3 B1)
         <=? Matting.distOf (read3 W2) (read3 B2))%float = true -> a2 <= a1).
Proof.
  intros Hwhite Hblack Ew Eh Hi1 Hi2.
  destruct (extract_reads white black Hwhite Hblack Ew Eh)
    as (out & Hout & _ & _ & Hread).
  destruct (rgbAt_raw white i1 Hwhite Hi1) as (rW1 & gW1 & bW1 & HW1 & ? & ? & ?).
  destruct (rgbAt_raw black i1 Hblack ltac:(rewrite <- Ew, <- Eh; exact Hi1))
    as (rB1 & gB1 & bB1 & HB1 & ? & ? & ?).
  destruct (rgbAt_raw white i2 Hwhite Hi2) as (rW2 & gW2 & bW2 & HW2 & ? & ? & ?).
  destruct (rgbAt_raw black i2 Hblack ltac:(rewrite <- Ew, <- Eh; exact Hi2))
    as (rB2 & gB2 & bB2 & HB2 & ? & ? & ?).
  destruct (alpha_byte_spec rW1 gW1 bW1 rB1 gB1 bB1) as [Ha1 Hr1]; try assumption.
  destruct (alpha_byte_spec rW2 gW2 bW2 rB2 gB2 bB2) as [Ha2 Hr2]; try assumption.
  pose proof (sumSquares_bytes rW1 gW1 bW1 rB1 gB1 bB1) as HS1.
  pose proof (sumSquares_bytes rW2 gW2 bW2 rB2 gB2 bB2) as HS2.
  do 6 (specialize (HS1 ltac:(assumption)); specialize (HS2 ltac:(assumption))).
  exists out, (rW1, gW1, bW1), (rB1, gB1, bB1), (rW2, gW2, bW2), (rB2, gB2, bB2).
  eexists. eexists.
  split; [exact Hout|]. do 4 (split; [assumption|]).
  split.
  { rewrite (Hread i1 3 Hi1 ltac:(lia)), HW1, HB1, pixelOut_bytes. cbv zeta.
    rewrite component_3, Ha1, ToUint8_byte by exact Hr1. reflexivity. }
  split.
  { rewrite (Hread i2 3 Hi2 ltac:(lia)), HW2, HB2, pixelOut_bytes. cbv zeta.
    rewrite component_3, Ha2, ToUint8_byte by exact Hr2. reflexivity. }
  rewrite !SpecFacts.pixelDist_sumSq. simpl read3. rewrite !distOf_bytes.
  split; intros Hle; apply alphaByte_antitone; try lia; split; try lia.
  - apply pixelDist_Rle; [lia|lia|exact Hle].
  - apply pixelDist_leb; [lia|lia|exact Hle].
Qed.

Lemma matting_alpha_antitone_witness :
  (raw_rgba Samples.onWhite /\ raw_rgba Samples.onBlack
   /\ width Samples.onWhite = width Samples.onBlack
   /\ height Samples.onWhite = height Samples.onBlack
   /\ 0 <= 1 < width Samples.onWhite * height Samples.onWhite
   /\ 0 <= 0 < width Samples.onWhite * height Samples.onWhite)
  /\ exists out W1 B1 W2 B2 a1 a2,
       Matting.extractAlphaTwoPass Samples.onWhite Samples.onBlack = inr out
       /\ rgbAt (data Samples.onWhite) 1 = read3 W1
       /\ rgbAt (data Samples.onBlack) 1 = read3 B1
       /\ rgbAt (data Samples.onWhite) 0 = read3 W2
       /\ rgbAt (data Samples.onBlack) 0 = read3 B2
       /\ readAt (data out) (1 * 4 + 3) = Some a1
       /\ readAt (data out) (0 * 4 + 3) = Some a2
       /\ ((Spec.pixelDist W1 B1 <= Spec.pixelDist W2 B2)%R -> a2 <= a1)
       /\ ((Matting.distOf (read3 W1) (read3 B1)
            <=? Matting.distOf (read3 W2) (read3 B2))%float = true -> a2 <= a1).
Proof.
  assert (0 <= 1 < width Samples.onWhite * height Samples.onWhite) as Hi1
    by (simpl; lia).
  assert (0 <= 0 < width Samples.onWhite * height Samples.onWhite) as Hi2
    by (simpl; lia).
  split.
  - repeat split; try reflexivity; try apply raw_onWhite; try apply raw_onBlack;
      try apply Hi1; apply Hi2.
  - exact (matting_alpha_antitone Samples.onWhite Samples.onBlack 1 0
             raw_onWhite raw_onBlack eq_refl eq_refl Hi1 Hi2).
Defined.

End MattingClaims.

(** ** The local chroma key: the claims *)

Module ChromaClaims.

Import Exhaustive ExhaustiveFacts Buffer ChromaFacts.

Lemma raw_green : raw_rgba Samples.green.
Proof.
  constructor; simpl; [lia|lia|reflexivity|].
  repeat constructor; unfold is_byte; lia.
Defined.

(** What a successful call returns, byte by byte. *)
Lemma remove_reads (input : Decoded) (optBgColor : option string)
    (optTolerance : option Z) (out : Decoded) :
  ChromaKey.removeBackgroundLocal input optBgColor optTolerance = inr out ->
  exists bgColor,
    ChromaKey.chooseBackground input optBgColor = inr bgColor
    /\ width out = width input /\ height out = height input
    /\ length (data out) = length (data input)
    /\ forall j,
         readAt (data out) j
         = if decide (0 <= j < 4 * (width input * height input)
                      /\ j < Z.of_nat (length (data input)) /\ j mod 4 = 3)
           then Some (ToUint8 (ChromaKey.pixelAlpha (rgbAt (data input) (j / 4))
                                 bgColor (default 30 optTolerance)))
           else readAt (data input) j.
Proof.
  unfold ChromaKey.removeBackgroundLocal.
  destruct (ChromaKey.chooseBackground input optBgColor) as [e|bgColor];
    [discriminate|].
  intros [= <-]. exists bgColor. simpl.
  split; [reflexivity|]. split; [reflexivity|]. split; [reflexivity|].
  destruct (Z.le_gt_cases 0 (width input * height input)) as [Hn|Hn].
  - rewrite <- (Z2Nat.id _ Hn).
    destruct (chroma_fold_read bgColor (default 30 optTolerance) (data input)
                (Z.to_nat (width input * height input))) as [Hr Hl].
    split; [exact Hl|]. intros j. rewrite Hr, Z2Nat.id by exact Hn. reflexivity.
  - rewrite seqZ_nil by lia. simpl. split; [reflexivity|].
    intros j. rewrite decide_False by lia. reflexivity.
Qed.

(** The colour bytes of the output are those of the input. *)
Lemma remove_colour (input : Decoded) (optBgColor : option string)
    (optTolerance : option Z) (out : Decoded) :
  ChromaKey.removeBackgroundLocal input optBgColor optTolerance = inr out ->
  forall j, j mod 4 <> 3 -> readAt (data out) j = readAt (data input) j.
Proof.
  intros H j Hj. destruct (remove_reads _ _ _ _ H) as (bg & _ & _ & _ & _ & Hr).
  rewrite Hr, decide_False by tauto. reflexivity.
Qed.

Lemma rgbAt_ext (buf1 buf2 : list Z) (i : Z) :
  (forall j, j mod 4 <> 3 -> readAt buf1 j = readAt buf2 j) ->
  rgbAt buf1 i = rgbAt buf2 i.
Proof.
  intros H. unfold rgbAt. rewrite !H; [reflexivity| | |].
  - rewrite Z.add_comm, Z.mod_add by lia. rewrite Z.mod_small; lia.
  - rewrite Z.add_comm, Z.mod_add by lia. rewrite Z.mod_small; lia.
  - rewrite Z.mod_mul; lia.
Qed.

(** C6. A successful call on a decoded image leaves the R, G and B bytes
    of every pixel as they were read, and stores in the alpha byte of every
    pixel [Math.round(alpha * 255)], [alpha] being computed from the colour
    of the pixel, the background colour chosen and the tolerance (30 when
    absent); for a tolerance from 0 to 255 that number is a byte, so the
    store keeps it as it is. *)
Theorem chroma_key_writes_alpha_only (input : Decoded)
    (optBgColor : option string) (optTolerance : option Z) (out : Decoded) :
  raw_rgba input ->
  ChromaKey.removeBackgroundLocal input optBgColor optTolerance = inr out ->
  width out = width input /\ height out = height input
  /\ length (data out) = length (data input)
  /\ (forall j, j mod 4 <> 3 -> readAt (data out) j = readAt (data input) j)
  /\ exists bgColor,
       ChromaKey.chooseBackground input optBgColor = inr bgColor
       /\ forall i, 0 <= i < width input * height input ->
            let alpha :=
              ChromaKey.alphaOf (ChromaKey.distSquaredOf (rgbAt (data input) i) bgColor)
                                (default 30 optTolerance) in
            rgbAt (data out) i = rgbAt (data input) i
            /\ readAt (data out) (i * 4 + 3)
               = Some (ToUint8 (Math_round (alpha * 255)%float))
            /\ (0 <= default 30 optTolerance <= 255 ->
                readAt (data out) (i * 4 + 3) = Math_round (alpha * 255)%float).
Proof.
  intros [Hw Hh Hlen _] H.
  destruct (remove_reads _ _ _ _ H) as (bg & Hbg & Ew & Eh & El & Hr).
  split; [exact Ew|]. split; [exact Eh|]. split; [exact El|].
  split; [exact (remove_colour _ _ _ _ H)|].
  exists bg. split; [exact Hbg|]. intros i Hi alpha.
  split; [apply rgbAt_ext, (remove_colour _ _ _ _ H)|].
  assert (readAt (data out) (i * 4 + 3)
          = Some (ToUint8 (Math_round (alpha * 255)%float))) as Ha.
  { rewrite Hr, decide_True.
    - replace ((i * 4 + 3) / 4) with i
        by (rewrite Z.add_comm, Z.div_add by lia; reflexivity).
      reflexivity.
    - split; [lia|]. split; [lia|].
      rewrite Z.add_comm, Z.mod_add by lia. reflexivity. }
  split; [exact Ha|]. intros HT. rewrite Ha.
  destruct (pixelAlpha_byte (rgbAt (data input) i) bg _ HT) as (n & Hn & Hrange).
  unfold ChromaKey.pixelAlpha in Hn. fold alpha in Hn.
  rewrite Hn, ToUint8_byte by exact Hrange. reflexivity.
Qed.

Lemma chroma_key_writes_alpha_only_witness :
  exists out,
    (raw_rgba Samples.green
     /\ ChromaKey.removeBackgroundLocal Samples.green None None = inr out)
    /\ width out = width Samples.green /\ height out = height Samples.green
    /\ length (data out) = length (data Samples.green)
    /\ (forall j, j mod 4 <> 3 -> readAt (data out) j = readAt (data Samples.green) j)
    /\ exists bgColor,
         ChromaKey.chooseBackground Samples.green None = inr bgColor
         /\ forall i, 0 <= i < width Samples.green * height Samples.green ->
              let alpha :=
                ChromaKey.alphaOf
                  (ChromaKey.distSquaredOf (rgbAt (data Samples.green) i) bgColor)
                  (default 30 None) in
              rgbAt (data out) i = rgbAt (data Samples.green) i
              /\ readAt (data out) (i * 4 + 3)
                 = Some (ToUint8 (Math_round (alpha * 255)%float))
              /\ (0 <= default 30 None <= 255 ->
                  readAt (data out) (i * 4 + 3) = Math_round (alpha * 255)%float).
Proof.
  eexists. split.
  - split; [exact raw_green|]. vm_compute. reflexivity.
  - exact (chroma_key_writes_alpha_only Samples.green None None _
             raw_green eq_refl).
Defined.

(** C8. A second run on the output of a successful run, with the same
    background argument and the same tolerance, returns that output
    again: the same alpha bytes (and the same colour bytes). *)
Theorem chroma_key_idempotent (input : Decoded) (optBgColor : option string)
    (optTolerance : option Z) (out : Decoded) :
  ChromaKey.removeBackgroundLocal input optBgColor optTolerance = inr out ->
  ChromaKey.removeBackgroundLocal out optBgColor optTolerance = inr out.
Proof.
  intros H.
  pose proof (remove_colour _ _ _ _ H) as Hcol.
  destruct (remove_reads _ _ _ _ H) as (bg & Hbg & Ew & Eh & El & Hr).
  assert (ChromaKey.chooseBackground out optBgColor = inr bg) as Hbg'.
  { revert Hbg. unfold ChromaKey.chooseBackground.
    destruct (ChromaKey.isAuto optBgColor); [|auto].
    intros [= <-]. f_equal.
    unfold ChromaKey.estimateBackground, ChromaKey.corners. rewrite Ew, Eh.
    assert (forall c, 0 <= c < 3 -> forall offsets,
              Forall (fun o => o mod 4 = 0) offsets ->
              forall acc,
              foldl (fun sum offset => add sum (readAt (data out) (offset + c)))
                    acc offsets
              = foldl (fun sum offset => add sum (readAt (data input) (offset + c)))
                    acc offsets) as Hsum.
    { intros c Hc offsets Hall. induction Hall as [|o offsets Ho _ IH]; intros acc;
        [reflexivity|]. simpl. rewrite IH. f_equal. f_equal.
      apply Hcol.
      assert (o = o / 4 * 4) as Eo
        by (pose proof (Z.div_mod o 4 ltac:(lia)); lia).
      rewrite Eo, Z.add_comm, Z.mod_add by lia. rewrite Z.mod_small; lia. }
    assert (Forall (fun o => o mod 4 = 0)
              [0; (width input - 1) * 4; (height input - 1) * width input * 4;
               ((height input - 1) * width input + (width input - 1)) * 4])
      as Hoff by (repeat constructor; try apply Z.mod_mul; lia).
    unfold ChromaKey.cornerSum.
    rewrite !(fun c Hc => Hsum c Hc _ Hoff) by lia. reflexivity. }
  unfold ChromaKey.removeBackgroundLocal. rewrite Hbg'. f_equal.
  destruct out as [dout wout hout]. simpl in *. subst wout hout. f_equal.
  apply readAt_ext. intros j Hj.
  destruct (Z.le_gt_cases 0 (width input * height input)) as [Hn|Hn];
    [|rewrite seqZ_nil by lia; reflexivity].
  rewrite <- (Z2Nat.id _ Hn).
  destruct (chroma_fold_read bg (default 30 optTolerance) dout
              (Z.to_nat (width input * height input))) as [Hr2 _].
  rewrite Hr2, Z2Nat.id, El by exact Hn.
  destruct (decide (0 <= j < 4 * (width input * height input)
                    /\ j < Z.of_nat (length (data input)) /\ j mod 4 = 3))
    as [Hin|Hnin]; [|reflexivity].
  rewrite (rgbAt_ext dout (data input) _ Hcol).
  rewrite (Hr j), decide_True by exact Hin. reflexivity.
Qed.

Lemma chroma_key_idempotent_witness :
  exists out,
    ChromaKey.removeBackgroundLocal Samples.green None None = inr out
    /\ ChromaKey.removeBackgroundLocal out None None = inr out.
Proof.
  eexists. split; [vm_compute; reflexivity|].
  exact (chroma_key_idempotent Samples.green None None _ eq_refl).
Defined.

(** The rounded mean of the code: [Math.round(sum / 4)] in binary64. *)
Lemma mean_round (sum : Z) :
  0 <= sum <= 1020 ->
  Math_round (toFloat (Some sum) / 4)%float = Some (Spec.mean4 sum).
Proof.
  intros Hs. pose proof (forallZ_spec _ _ _ meanOk_all sum ltac:(lia)) as H.
  unfold meanOk in H. simpl toFloat.
  destruct (Math_round _) as [k|]; [|discriminate H].
  apply Z.eqb_eq in H. rewrite SpecFacts.mean4_div. now subst k.
Qed.

(** C9. On a decoded image (at least 1 by 1) the estimator returns, channel
    by channel, [round((topLeft + topRight + bottomLeft + bottomRight) / 4)]
    over the corner pixels of indices [0], [width - 1], [(height - 1) *
    width] and [(height - 1) * width + (width - 1)], that is of byte
    offsets four times these; it is the background of a call without
    [bgColor] or with ['auto']. *)
Theorem estimator_rounded_corner_mean (img : Decoded) :
  raw_rgba img ->
  exists r1 g1 b1 r2 g2 b2 r3 g3 b3 r4 g4 b4,
    rgbAt (data img) 0 = (Some r1, Some g1, Some b1)
    /\ rgbAt (data img) (width img - 1) = (Some r2, Some g2, Some b2)
    /\ rgbAt (data img) ((height img - 1) * width img) = (Some r3, Some g3, Some b3)
    /\ rgbAt (data img) ((height img - 1) * width img + (width img - 1))
       = (Some r4, Some g4, Some b4)
    /\ ChromaKey.estimateBackground img
       = mkColor (Some (Spec.mean4 (r1 + r2 + r3 + r4)))
                 (Some (Spec.mean4 (g1 + g2 + g3 + g4)))
                 (Some (Spec.mean4 (b1 + b2 + b3 + b4)))
    /\ ChromaKey.chooseBackground img None = inr (ChromaKey.estimateBackground img)
    /\ ChromaKey.chooseBackground img (Some "auto")
       = inr (ChromaKey.estimateBackground img).
Proof.
  intros Hraw. pose proof Hraw as [Hw Hh Hlen Hbytes].
  destruct (rgbAt_raw img 0 Hraw ltac:(nia))
    as (r1 & g1 & b1 & H1 & Hr1 & Hg1 & Hb1).
  destruct (rgbAt_raw img (width img - 1) Hraw ltac:(nia))
    as (r2 & g2 & b2 & H2 & Hr2 & Hg2 & Hb2).
  destruct (rgbAt_raw img ((height img - 1) * width img) Hraw ltac:(nia))
    as (r3 & g3 & b3 & H3 & Hr3 & Hg3 & Hb3).
  destruct (rgbAt_raw img ((height img - 1) * width img + (width img - 1)) Hraw
              ltac:(nia))
    as (r4 & g4 & b4 & H4 & Hr4 & Hg4 & Hb4).
  exists r1, g1, b1, r2, g2, b2, r3, g3, b3, r4, g4, b4.
  do 4 (split; [assumption|]).
  split; [|split; reflexivity].
  unfold ChromaKey.estimateBackground, ChromaKey.cornerSum, ChromaKey.corners.
  unfold rgbAt in H1, H2, H3, H4.
  injection H1 as E10 E11 E12. injection H2 as E20 E21 E22.
  injection H3 as E30 E31 E32. injection H4 as E40 E41 E42.
  simpl foldl. rewrite !Z.add_0_r.
  change (0 * 4) with 0 in E10, E11, E12. change (0 + 1) with 1 in E11.
  change (0 + 2) with 2 in E12. change (0 + 1) with 1. change (0 + 2) with 2.
  rewrite E10, E11, E12, E20, E21, E22, E30, E31, E32, E40, E41, E42.
  simpl add. unfold is_byte in *.
  rewrite !mean_round by lia. reflexivity.
Qed.

Lemma estimator_rounded_corner_mean_witness :
  raw_rgba Samples.green
  /\ exists r1 g1 b1 r2 g2 b2 r3 g3 b3 r4 g4 b4,
       rgbAt (data Samples.green) 0 = (Some r1, Some g1, Some b1)
       /\ rgbAt (data Samples.green) (width Samples.green - 1)
          = (Some r2, Some g2, Some b2)
       /\ rgbAt (data Samples.green) ((height Samples.green - 1) * width Samples.green)
          = (Some r3, Some g3, Some b3)
       /\ rgbAt (data Samples.green)
            ((height Samples.green - 1) * width Samples.green
             + (width Samples.green - 1))
          = (Some r4, Some g4, Some b4)
       /\ ChromaKey.estimateBackground Samples.green
          = mkColor (Some (Spec.mean4 (r1 + r2 + r3 + r4)))
                    (Some (Spec.mean4 (g1 + g2 + g3 + g4)))
                    (Some (Spec.mean4 (b1 + b2 + b3 + b4)))
       /\ ChromaKey.chooseBackground Samples.green None
          = inr (ChromaKey.estimateBackground Samples.green)
       /\ ChromaKey.chooseBackground Samples.green (Some "auto")
          = inr (ChromaKey.estimateBackground Samples.green).
Proof.
  split; [exact raw_green|].
  exact (estimator_rounded_corner_mean Samples.green raw_green).
Defined.



(** C10. For a tolerance from 0 to 255 the division of the fade branch
    never has a zero divisor: the branch is entered only with a tolerance
    of at least 1, whose binary64 value is not zero; with a tolerance of 0
    the branch is not entered at all, and the alpha of a pixel is 0 when
    its squared distance is 0 and 1 when it is positive. *)
Theorem chroma_no_division_by_zero (tolerance : Z)
    (px : jsnum * jsnum * jsnum) (bgColor : Color) :
  0 <= tolerance <= 255 ->
  (ChromaKey.band (ChromaKey.distSquaredOf px bgColor) tolerance = ChromaKey.Fade ->
   1 <= tolerance /\ (num tolerance =? 0)%float = false)
  /\ (tolerance = 0 ->
      ChromaKey.band (ChromaKey.distSquaredOf px bgColor) tolerance
      <> ChromaKey.Fade
      /\ (ChromaKey.distSquaredOf px bgColor = Some 0 ->
          ChromaKey.alphaOf (ChromaKey.distSquaredOf px bgColor) tolerance
          = 0%float)
      /\ (forall d, ChromaKey.distSquaredOf px bgColor = Some d -> 0 < d ->
          ChromaKey.alphaOf (ChromaKey.distSquaredOf px bgColor) tolerance
          = 1%float)).
Proof.
  intros HT.
  assert (ChromaKey.band (ChromaKey.distSquaredOf px bgColor) tolerance
          = ChromaKey.Fade -> 1 <= tolerance) as Hfade.
  { destruct (ChromaKey.distSquaredOf px bgColor) as [d|]; [|discriminate].
    intros Hb. apply band_Fade in Hb. nia. }
  split.
  - intros Hb. specialize (Hfade Hb). split; [exact Hfade|].
    pose proof (forallZ_spec _ _ _ divisorOk_all tolerance ltac:(lia)) as H.
    unfold divisorOk in H. now apply negb_true_iff in H.
  - intros ->. split; [intros Hb; specialize (Hfade Hb); lia|]. split.
    + intros ->. reflexivity.
    + intros d -> Hd. unfold ChromaKey.alphaOf, ChromaKey.band, ChromaKey.numLe.
      change (0 * 0) with 0. change (0 * 2 * (0 * 2)) with 0.
      destruct (Z.leb_spec d 0); [lia|reflexivity].
Qed.

Lemma chroma_no_division_by_zero_witness :
  0 <= 0 <= 255
  /\ (ChromaKey.band
        (ChromaKey.distSquaredOf (Some 255, Some 0, Some 0)
           (mkColor (Some 0) (Some 255) (Some 0))) 0 = ChromaKey.Fade ->
      1 <= 0 /\ (num 0 =? 0)%float = false)
  /\ (0 = 0 ->
      ChromaKey.band
        (ChromaKey.distSquaredOf (Some 255, Some 0, Some 0)
           (mkColor (Some 0) (Some 255) (Some 0))) 0 <> ChromaKey.Fade
      /\ (ChromaKey.distSquaredOf (Some 255, Some 0, Some 0)
            (mkColor (Some 0) (Some 255) (Some 0)) = Some 0 ->
          ChromaKey.alphaOf
            (ChromaKey.distSquaredOf (Some 255, Some 0, Some 0)
               (mkColor (Some 0) (Some 255) (Some 0))) 0 = 0%float)
      /\ (forall d,
            ChromaKey.distSquaredOf (Some 255, Some 0, Some 0)
              (mkColor (Some 0) (Some 255) (Some 0)) = Some d -> 0 < d ->
            ChromaKey.alphaOf
              (ChromaKey.distSquaredOf (Some 255, Some 0, Some 0)
                 (mkColor (Some 0) (Some 255) (Some 0))) 0 = 1%float)).
Proof.
  assert (0 <= 0 <= 255) as HT by lia.
  split; [exact HT|].
  exact (chroma_no_division_by_zero 0 (Some 255, Some 0, Some 0)
           (mkColor (Some 0) (Some 255) (Some 0)) HT).
Defined.

End ChromaClaims.

(** ** Difference matting: further properties of [extractAlphaTwoPass] *)

Module MattingProps.

Import Exhaustive ExhaustiveFacts Buffer MattingFacts.

(** What a typed array stores is a byte, whatever number it is given. *)
Lemma ToUint8_is_byte (v : jsnum) : is_byte (ToUint8 v).
Proof.
  unfold is_byte. destruct v as [n|]; simpl; [|lia].
  pose proof (Z.mod_pos_bound n 256 ltac:(lia)). lia.
Qed.

Lemma writeAt_bytes (buf : list Z) (off : Z) (v : jsnum) :
  Forall is_byte buf -> Forall is_byte (writeAt buf off v).
Proof.
  intros H. unfold writeAt. destruct (off <? 0); [exact H|].
  apply Forall_insert; [exact H|apply ToUint8_is_byte].
Qed.

Lemma matting_fold_bytes (dataWhite dataBlack : list Z) (pixels : list Z)
    (out : list Z) :
  Forall is_byte out ->
  Forall is_byte (foldl (Matting.step dataWhite dataBlack) out pixels).
Proof.
  revert out. induction pixels as [|i pixels IH]; intros out H; [exact H|].
  simpl. apply IH. unfold Matting.step.
  destruct (Matting.pixelOut _ _) as [[[o0 o1] o2] o3].
  repeat apply writeAt_bytes. exact H.
Qed.

(** X1. Whatever the pass on black holds, a call that succeeds on a
    decoded pass on white returns a decoded image again: the dimensions of
    the pass on white, four bytes a pixel, every one of them in 0..255. *)
Theorem matting_output_well_formed (white black out : Decoded) :
  raw_rgba white ->
  Matting.extractAlphaTwoPass white black = inr out ->
  raw_rgba out /\ width out = width white /\ height out = height white.
Proof.
  intros [Hw Hh Hlen Hb] H. unfold Matting.extractAlphaTwoPass in H.
  destruct (negb _); [discriminate H|]. injection H as <-.
  split; [|split; reflexivity].
  constructor; simpl; [exact Hw|exact Hh| |].
  - assert (0 <= width white * height white) as Hn by lia.
    rewrite <- (Z2Nat.id _ Hn) at 1.
    destruct (matting_fold_read (data white) (data black)
                (Z.to_nat (width white * height white))
                (replicate (length (data white)) 0) 0) as [_ ->].
    rewrite length_replicate. exact Hlen.
  - apply matting_fold_bytes. apply Forall_replicate. unfold is_byte. lia.
Qed.

Lemma matting_output_well_formed_witness :
  (raw_rgba Samples.onWhite
   /\ Matting.extractAlphaTwoPass Samples.onWhite Samples.onBlack
      = inr (mkDecoded [0; 0; 0; 0;  200; 100; 50; 255] 2 1))
  /\ raw_rgba (mkDecoded [0; 0; 0; 0;  200; 100; 50; 255] 2 1)
  /\ width (mkDecoded [0; 0; 0; 0;  200; 100; 50; 255] 2 1) = width Samples.onWhite
  /\ height (mkDecoded [0; 0; 0; 0;  200; 100; 50; 255] 2 1) = height Samples.onWhite.
Proof.
  assert (Matting.extractAlphaTwoPass Samples.onWhite Samples.onBlack
          = inr (mkDecoded [0; 0; 0; 0;  200; 100; 50; 255] 2 1)) as H
    by (vm_compute; reflexivity).
  split; [split; [exact MattingClaims.raw_onWhite|exact H]|].
  exact (matting_output_well_formed Samples.onWhite Samples.onBlack _
           MattingClaims.raw_onWhite H).
Defined.

(** X2. Two decoded images are rejected exactly when their numbers of
    pixels differ, and [DimensionMismatch] is the only error there is:
    every pair with the same number of pixels is processed, into an image
    with the dimensions of the pass on white. *)
Theorem matting_rejects_unequal_pixel_counts_only (white black : Decoded) :
  raw_rgba white -> raw_rgba black ->
  (forall e, Matting.extractAlphaTwoPass white black = inl e ->
     e = DimensionMismatch
     /\ width white * height white <> width black * height black)
  /\ (width white * height white <> width black * height black ->
      Matting.extractAlphaTwoPass white black = inl DimensionMismatch)
  /\ (width white * height white = width black * height black ->
      exists out, Matting.extractAlphaTwoPass white black = inr out
                  /\ width out = width white /\ height out = height white).
Proof.
  intros [_ _ Hlen _] [_ _ Hlen' _]. unfold Matting.extractAlphaTwoPass.
  destruct (Nat.eqb_spec (length (data white)) (length (data black))) as [E|E];
    simpl negb; cbv iota.
  - split; [intros e He; discriminate He|].
    split; [intros Hne; exfalso; lia|].
    intros _. eexists. split; [reflexivity|]. split; reflexivity.
  - split; [intros e [= <-]; split; [reflexivity|lia]|].
    split; [reflexivity|]. intros Heq. exfalso. lia.
Qed.

Lemma matting_rejects_unequal_pixel_counts_only_witness :
  (raw_rgba Samples.onWhite /\ raw_rgba Samples.onBlackTransposed)
  /\ (forall e, Matting.extractAlphaTwoPass Samples.onWhite Samples.onBlackTransposed
                = inl e ->
        e = DimensionMismatch
        /\ width Samples.onWhite * height Samples.onWhite
           <> width Samples.onBlackTransposed * height Samples.onBlackTransposed)
  /\ (width Samples.onWhite * height Samples.onWhite
      <> width Samples.onBlackTransposed * height Samples.onBlackTransposed ->
      Matting.extractAlphaTwoPass Samples.onWhite Samples.onBlackTransposed
      = inl DimensionMismatch)
  /\ (width Samples.onWhite * height Samples.onWhite
      = width Samples.onBlackTransposed * height Samples.onBlackTransposed ->
      exists out,
        Matting.extractAlphaTwoPass Samples.onWhite Samples.onBlackTransposed = inr out
        /\ width out = width Samples.onWhite /\ height out = height Samples.onWhite).
Proof.
  split; [split; [exact MattingClaims.raw_onWhite
                 |exact MattingClaims.raw_onBlackTransposed]|].
  exact (matting_rejects_unequal_pixel_counts_only Samples.onWhite
           Samples.onBlackTransposed MattingClaims.raw_onWhite
           MattingClaims.raw_onBlackTransposed).
Defined.

(** The alpha byte of a pixel of the output, from the sum of squares of
    its two observations. *)
Lemma matting_alpha_read (white black : Decoded) (i : Z) :
  raw_rgba white -> raw_rgba black ->
  width white = width black -> height white = height black ->
  0 <= i < width white * height white ->
  exists out rW gW bW rB gB bB k,
    Matting.extractAlphaTwoPass white black = inr out
    /\ rgbAt (data white) i = (Some rW, Some gW, Some bW)
    /\ rgbAt (data black) i = (Some rB, Some gB, Some bB)
    /\ 0 <= (rW - rB) * (rW - rB) + (gW - gB) * (gW - gB) + (bW - bB) * (bW - bB)
         <= maxSumSq
    /\ Math_round
         (Matting.alphaOf
            (Matting.pixelDist
               (Some ((rW - rB) * (rW - rB) + (gW - gB) * (gW - gB)
                      + (bW - bB) * (bW - bB))%Z)) * 255)%float = Some k
    /\ 0 <= k <= 255
    /\ readAt (data out) (i * 4 + 3) = Some k.
Proof.
  intros Hwhite Hblack Ew Eh Hi.
  destruct (extract_reads white black Hwhite Hblack Ew Eh)
    as (out & Hout & _ & _ & Hread).
  destruct (rgbAt_raw white i Hwhite Hi) as (rW & gW & bW & HW & ? & ? & ?).
  destruct (rgbAt_raw black i Hblack ltac:(rewrite <- Ew, <- Eh; exact Hi))
    as (rB & gB & bB & HB & ? & ? & ?).
  pose proof (sumSquares_bytes rW gW bW rB gB bB) as HS.
  do 6 (specialize (HS ltac:(assumption))).
  destruct (matte_alpha_byte _ HS) as [Ha Hr].
  exists out, rW, gW, bW, rB, gB, bB. eexists.
  split; [exact Hout|]. split; [exact HW|]. split; [exact HB|].
  split; [exact HS|]. split; [exact Ha|]. split; [exact Hr|].
  rewrite (Hread i 3 Hi ltac:(lia)), HW, HB, pixelOut_bytes. cbv zeta.
  rewrite component_3, distOf_bytes, Ha, ToUint8_byte by exact Hr. reflexivity.
Qed.

(** What the run over all sums of squares says of one of them. *)
Lemma matte_alpha_bracket (sumSq k : Z) :
  0 <= sumSq <= maxSumSq ->
  Math_round (Matting.alphaOf (Matting.pixelDist (Some sumSq)) * 255)%float = Some k ->
  0 <= k <= 255
  /\ (k = 255 \/ 3 * (2 * (255 - k) - 1) * (2 * (255 - k) - 1) < 4 * sumSq)
  /\ 4 * sumSq < 3 * (2 * (255 - k) + 1) * (2 * (255 - k) + 1).
Proof.
  intros HS Hk.
  pose proof (forallZ_spec _ _ _ matteAlphaOk_all sumSq) as H.
  unfold maxSumSq in *. specialize (H ltac:(lia)).
  unfold matteAlphaOk in H. rewrite Hk in H.
  apply andb_prop in H as [H Hhi]. apply andb_prop in H as [H Hlo].
  apply andb_prop in H as [Hk0 Hk1].
  apply Z.leb_le in Hk0, Hk1. apply Z.ltb_lt in Hhi.
  split; [lia|]. split; [|exact Hhi].
  apply orb_prop in Hlo as [Hlo|Hlo];
    [left; apply Z.eqb_eq, Hlo|right; apply Z.ltb_lt, Hlo].
Qed.

(** X3. A pixel of the output is fully opaque (alpha byte 255) exactly
    when the two passes hold the same colour there: a difference of one
    level in one channel already lowers the alpha.  It is fully transparent
    (alpha byte 0) exactly when the sum of the squared channel differences
    is at least 194311, of the 195075 between white and black. *)
Theorem matting_opaque_iff_passes_agree (white black : Decoded) (i : Z) :
  raw_rgba white -> raw_rgba black ->
  width white = width black -> height white = height black ->
  0 <= i < width white * height white ->
  exists out rW gW bW rB gB bB,
    Matting.extractAlphaTwoPass white black = inr out
    /\ rgbAt (data white) i = (Some rW, Some gW, Some bW)
    /\ rgbAt (data black) i = (Some rB, Some gB, Some bB)
    /\ (readAt (data out) (i * 4 + 3) = Some 255
        <-> rW = rB /\ gW = gB /\ bW = bB)
    /\ (readAt (data out) (i * 4 + 3) = Some 0
        <-> 194311 <= (rW - rB) * (rW - rB) + (gW - gB) * (gW - gB)
                      + (bW - bB) * (bW - bB)).
Proof.
  intros Hwhite Hblack Ew Eh Hi.
  destruct (matting_alpha_read white black i Hwhite Hblack Ew Eh Hi)
    as (out & rW & gW & bW & rB & gB & bB & k & Hout & HW & HB & HS & Hk & Hr & Hread).
  exists out, rW, gW, bW, rB, gB, bB.
  split; [exact Hout|]. split; [exact HW|]. split; [exact HB|].
  destruct (matte_alpha_bracket _ k HS Hk) as (_ & Hlo & Hhi).
  rewrite Hread.
  pose proof (Z.square_nonneg (rW - rB)). pose proof (Z.square_nonneg (gW - gB)).
  pose proof (Z.square_nonneg (bW - bB)).
  set (S := (rW - rB) * (rW - rB) + (gW - gB) * (gW - gB)
            + (bW - bB) * (bW - bB)) in *.
  assert (S = 0 <-> rW = rB /\ gW = gB /\ bW = bB) as Hzero.
  { subst S. split.
    - intros HS0.
      assert ((rW - rB) * (rW - rB) = 0) as E1 by lia.
      assert ((gW - gB) * (gW - gB) = 0) as E2 by lia.
      assert ((bW - bB) * (bW - bB) = 0) as E3 by lia.
      apply Z.mul_eq_0 in E1, E2, E3. lia.
    - intros (-> & -> & ->). lia. }
  split.
  - rewrite <- Hzero. split.
    + intros [= ->]. lia.
    + intros HS0. f_equal. destruct Hlo as [Hlo|Hlo]; [exact Hlo|].
      rewrite HS0 in Hlo.
      pose proof (Z.square_nonneg (2 * (255 - k) - 1)). lia.
  - split.
    + intros [= ->]. destruct Hlo as [Hlo|Hlo]; lia.
    + intros HS0. f_equal.
      destruct (Z.eq_dec k 0) as [|Hne]; [assumption|exfalso].
      assert (2 * (255 - k) + 1 <= 509) as Hm by lia.
      assert (0 <= 2 * (255 - k) + 1) as Hm0 by lia.
      assert ((2 * (255 - k) + 1) * (2 * (255 - k) + 1) <= 509 * 509) as Hsq
        by (apply Z.mul_le_mono_nonneg; lia).
      lia.
Qed.

Lemma matting_opaque_iff_passes_agree_witness :
  (raw_rgba Samples.onWhite /\ raw_rgba Samples.onBlack
   /\ width Samples.onWhite = width Samples.onBlack
   /\ height Samples.onWhite = height Samples.onBlack
   /\ 0 <= 1 < width Samples.onWhite * height Samples.onWhite)
  /\ exists out rW gW bW rB gB bB,
       Matting.extractAlphaTwoPass Samples.onWhite Samples.onBlack = inr out
       /\ rgbAt (data Samples.onWhite) 1 = (Some rW, Some gW, Some bW)
       /\ rgbAt (data Samples.onBlack) 1 = (Some rB, Some gB, Some bB)
       /\ (readAt (data out) (1 * 4 + 3) = Some 255
           <-> rW = rB /\ gW = gB /\ bW = bB)
       /\ (readAt (data out) (1 * 4 + 3) = Some 0
           <-> 194311 <= (rW - rB) * (rW - rB) + (gW - gB) * (gW - gB)
                         + (bW - bB) * (bW - bB)).
Proof.
  assert (0 <= 1 < width Samples.onWhite * height Samples.onWhite) as Hi
    by (simpl; lia).
  split.
  - repeat split; try reflexivity; try apply MattingClaims.raw_onWhite;
      try apply MattingClaims.raw_onBlack; apply Hi.
  - exact (matting_opaque_iff_passes_agree Samples.onWhite Samples.onBlack 1
             MattingClaims.raw_onWhite MattingClaims.raw_onBlack eq_refl eq_refl Hi).
Defined.

(** X4. The alpha of a pixel does not depend on which of the two images
    is given as the pass on white: with the two passes exchanged every
    pixel gets the same alpha byte (the colours then come from the other
    image). *)
Theorem matting_alpha_symmetric (white black : Decoded) (i : Z) :
  raw_rgba white -> raw_rgba black ->
  width white = width black -> height white = height black ->
  0 <= i < width white * height white ->
  exists out swapped a,
    Matting.extractAlphaTwoPass white black = inr out
    /\ Matting.extractAlphaTwoPass black white = inr swapped
    /\ readAt (data out) (i * 4 + 3) = Some a
    /\ readAt (data swapped) (i * 4 + 3) = Some a.
Proof.
  intros Hwhite Hblack Ew Eh Hi.
  assert (0 <= i < width black * height black) as Hi'
    by (rewrite <- Ew, <- Eh; exact Hi).
  destruct (matting_alpha_read white black i Hwhite Hblack Ew Eh Hi)
    as (out & rW & gW & bW & rB & gB & bB & k & Hout & HW & HB & _ & Hk & _ & Hread).
  destruct (matting_alpha_read black white i Hblack Hwhite (eq_sym Ew) (eq_sym Eh) Hi')
    as (out' & rB' & gB' & bB' & rW' & gW' & bW' & k' & Hout' & HB' & HW' & _ & Hk'
        & _ & Hread').
  exists out, out', k.
  split; [exact Hout|]. split; [exact Hout'|]. split; [exact Hread|].
  rewrite Hread'. rewrite HW in HW'. rewrite HB in HB'.
  injection HW' as <- <- <-. injection HB' as <- <- <-.
  replace ((rB - rW) * (rB - rW) + (gB - gW) * (gB - gW) + (bB - bW) * (bB - bW))
    with ((rW - rB) * (rW - rB) + (gW - gB) * (gW - gB) + (bW - bB) * (bW - bB))
    in Hk' by ring.
  rewrite Hk in Hk'. symmetry. exact Hk'.
Qed.

Lemma matting_alpha_symmetric_witness :
  (raw_rgba Samples.onWhite /\ raw_rgba Samples.onBlack
   /\ width Samples.onWhite = width Samples.onBlack
   /\ height Samples.onWhite = height Samples.onBlack
   /\ 0 <= 0 < width Samples.onWhite * height Samples.onWhite)
  /\ exists out swapped a,
       Matting.extractAlphaTwoPass Samples.onWhite Samples.onBlack = inr out
       /\ Matting.extractAlphaTwoPass Samples.onBlack Samples.onWhite = inr swapped
       /\ readAt (data out) (0 * 4 + 3) = Some a
       /\ readAt (data swapped) (0 * 4 + 3) = Some a.
Proof.
  assert (0 <= 0 < width Samples.onWhite * height Samples.onWhite) as Hi
    by (simpl; lia).
  split.
  - repeat split; try reflexivity; try apply MattingClaims.raw_onWhite;
      try apply MattingClaims.raw_onBlack; apply Hi.
  - exact (matting_alpha_symmetric Samples.onWhite Samples.onBlack 0
             MattingClaims.raw_onWhite MattingClaims.raw_onBlack eq_refl eq_refl Hi).
Defined.

Lemma foldl_ext_step (f g : list Z -> Z -> list Z) (pixels : list Z) (out : list Z) :
  (forall buf i, f buf i = g buf i) -> foldl f out pixels = foldl g out pixels.
Proof.
  intros H. revert out. induction pixels as [|i pixels IH]; intros out;
    [reflexivity|]. simpl. rewrite H. apply IH.
Qed.

(** X5. The alpha channels of the two inputs are never read: two pairs of
    images of the same dimensions that hold the same R, G and B bytes give
    the same result, error or image, whatever their alpha bytes are. *)
Theorem matting_ignores_input_alpha (white black white' black' : Decoded) :
  width white' = width white -> height white' = height white ->
  length (data white') = length (data white) ->
  length (data black') = length (data black) ->
  (forall j, j mod 4 <> 3 -> readAt (data white') j = readAt (data white) j) ->
  (forall j, j mod 4 <> 3 -> readAt (data black') j = readAt (data black) j) ->
  Matting.extractAlphaTwoPass white' black' = Matting.extractAlphaTwoPass white black.
Proof.
  intros Ew Eh Elw Elb Hw Hb. unfold Matting.extractAlphaTwoPass.
  rewrite Ew, Eh, Elw, Elb.
  destruct (negb _); [reflexivity|].
  rewrite (foldl_ext_step (Matting.step (data white') (data black'))
             (Matting.step (data white) (data black))); [reflexivity|].
  intros buf i. unfold Matting.step.
  rewrite (ChromaClaims.rgbAt_ext _ _ i Hw), (ChromaClaims.rgbAt_ext _ _ i Hb).
  reflexivity.
Qed.

Lemma matting_ignores_input_alpha_witness :
  (width (mkDecoded [255; 255; 255; 0;  200; 100; 50; 17] 2 1) = width Samples.onWhite
   /\ height (mkDecoded [255; 255; 255; 0;  200; 100; 50; 17] 2 1)
      = height Samples.onWhite
   /\ length (data (mkDecoded [255; 255; 255; 0;  200; 100; 50; 17] 2 1))
      = length (data Samples.onWhite)
   /\ length (data Samples.onBlack) = length (data Samples.onBlack))
  /\ Matting.extractAlphaTwoPass
       (mkDecoded [255; 255; 255; 0;  200; 100; 50; 17] 2 1) Samples.onBlack
     = Matting.extractAlphaTwoPass Samples.onWhite Samples.onBlack.
Proof.
  split; [repeat split|].
  apply (matting_ignores_input_alpha Samples.onWhite Samples.onBlack
           (mkDecoded [255; 255; 255; 0;  200; 100; 50; 17] 2 1) Samples.onBlack);
    try reflexivity.
  intros j Hj. unfold readAt. destruct (Z.ltb_spec j 0) as [|Hj0]; [reflexivity|].
  simpl data.
  destruct (Z.to_nat j) as [|[|[|[|[|[|[|[|n]]]]]]]] eqn:Hn; try reflexivity;
    exfalso; apply Hj;
    [replace j with 3 by lia|replace j with 7 by lia]; reflexivity.
Defined.

(** X23. A pixel of the output is computed from the two observations of
    that pixel alone: in two runs, on images of any sizes, two pixels with
    the same colour on white and the same colour on black get the same
    four output bytes, whatever the rest of the images holds. *)
Theorem matting_pixel_is_local (white black white' black' : Decoded) (i j : Z) :
  raw_rgba white -> raw_rgba black ->
  width white = width black -> height white = height black ->
  raw_rgba white' -> raw_rgba black' ->
  width white' = width black' -> height white' = height black' ->
  0 <= i < width white * height white ->
  0 <= j < width white' * height white' ->
  rgbAt (data white) i = rgbAt (data white') j ->
  rgbAt (data black) i = rgbAt (data black') j ->
  exists out out',
    Matting.extractAlphaTwoPass white black = inr out
    /\ Matting.extractAlphaTwoPass white' black' = inr out'
    /\ forall k, 0 <= k < 4 ->
         readAt (data out) (i * 4 + k) = readAt (data out') (j * 4 + k).
Proof.
  intros Hw Hb Ew Eh Hw' Hb' Ew' Eh' Hi Hj HW HB.
  destruct (extract_reads white black Hw Hb Ew Eh) as (out & Hout & _ & _ & Hread).
  destruct (extract_reads white' black' Hw' Hb' Ew' Eh')
    as (out' & Hout' & _ & _ & Hread').
  exists out, out'. split; [exact Hout|]. split; [exact Hout'|].
  intros k Hk. rewrite (Hread i k Hi Hk), (Hread' j k Hj Hk), HW, HB. reflexivity.
Qed.

Lemma matting_pixel_is_local_witness :
  (raw_rgba Samples.onWhite /\ raw_rgba Samples.onBlack
   /\ raw_rgba Samples.onBlackTransposed
   /\ 0 <= 1 < width Samples.onWhite * height Samples.onWhite
   /\ rgbAt (data Samples.onWhite) 1 = rgbAt (data Samples.onBlackTransposed) 1
   /\ rgbAt (data Samples.onBlack) 1 = rgbAt (data Samples.onBlackTransposed) 1)
  /\ exists out out',
       Matting.extractAlphaTwoPass Samples.onWhite Samples.onBlack = inr out
       /\ Matting.extractAlphaTwoPass Samples.onBlackTransposed
            Samples.onBlackTransposed = inr out'
       /\ forall k, 0 <= k < 4 ->
            readAt (data out) (1 * 4 + k) = readAt (data out') (1 * 4 + k).
Proof.
  assert (0 <= 1 < width Samples.onWhite * height Samples.onWhite) as Hi
    by (simpl; lia).
  split.
  - repeat split; try reflexivity; try apply MattingClaims.raw_onWhite;
      try apply MattingClaims.raw_onBlack;
      try apply MattingClaims.raw_onBlackTransposed; apply Hi.
  - exact (matting_pixel_is_local Samples.onWhite Samples.onBlack
             Samples.onBlackTransposed Samples.onBlackTransposed 1 1
             MattingClaims.raw_onWhite MattingClaims.raw_onBlack eq_refl eq_refl
             MattingClaims.raw_onBlackTransposed MattingClaims.raw_onBlackTransposed
             eq_refl eq_refl Hi Hi eq_refl eq_refl).
Defined.

End MattingProps.

(** ** The local chroma key: further properties of [removeBackgroundLocal]
    and of the corner estimator *)

Module ChromaProps.

Import Exhaustive ExhaustiveFacts Buffer ChromaFacts ByteOrderFacts.

Lemma raw_greyEnds : raw_rgba MoreSamples.greyEnds.
Proof.
  constructor; simpl; [lia|lia|reflexivity|].
  repeat constructor; unfold is_byte; lia.
Defined.

Lemma chroma_fold_bytes (bgColor : Color) (tolerance : Z) (pixels : list Z)
    (buf : list Z) :
  Forall is_byte buf ->
  Forall is_byte (foldl (ChromaKey.step bgColor tolerance) buf pixels).
Proof.
  revert buf. induction pixels as [|i pixels IH]; intros buf H; [exact H|].
  simpl. apply IH. unfold ChromaKey.step.
  apply MattingProps.writeAt_bytes. exact H.
Qed.

(** X6. Whatever the background argument and the tolerance (even one
    outside 0..255, whose alpha the store wraps), a call that succeeds on
    a decoded image returns a decoded image: the same dimensions, four
    bytes a pixel, every one of them in 0..255. *)
Theorem chroma_output_well_formed (input : Decoded) (optBgColor : option string)
    (optTolerance : option Z) (out : Decoded) :
  raw_rgba input ->
  ChromaKey.removeBackgroundLocal input optBgColor optTolerance = inr out ->
  raw_rgba out /\ width out = width input /\ height out = height input.
Proof.
  intros [Hw Hh Hlen Hb] H.
  destruct (ChromaClaims.remove_reads _ _ _ _ H) as (bg & Hbg & Ew & Eh & El & _).
  split; [|split; assumption].
  constructor; [rewrite Ew; exact Hw|rewrite Eh; exact Hh
               |rewrite El, Ew, Eh; exact Hlen|].
  unfold ChromaKey.removeBackgroundLocal in H. rewrite Hbg in H.
  injection H as <-. simpl. apply chroma_fold_bytes. exact Hb.
Qed.

Lemma chroma_output_well_formed_witness :
  exists out,
    (raw_rgba Samples.green
     /\ ChromaKey.removeBackgroundLocal Samples.green (Some "#00ff00") (Some 300)
        = inr out)
    /\ raw_rgba out /\ width out = width Samples.green
    /\ height out = height Samples.green.
Proof.
  eexists. split.
  - split; [exact ChromaClaims.raw_green|]. vm_compute. reflexivity.
  - exact (chroma_output_well_formed Samples.green (Some "#00ff00") (Some 300) _
             ChromaClaims.raw_green eq_refl).
Defined.

(** The estimate of a decoded image, from the colours of its four
    corners. *)
Lemma estimate_of_corners (img : Decoded) :
  raw_rgba img ->
  exists r1 g1 b1 r2 g2 b2 r3 g3 b3 r4 g4 b4,
    rgbAt (data img) 0 = (Some r1, Some g1, Some b1)
    /\ rgbAt (data img) (width img - 1) = (Some r2, Some g2, Some b2)
    /\ rgbAt (data img) ((height img - 1) * width img) = (Some r3, Some g3, Some b3)
    /\ rgbAt (data img) ((height img - 1) * width img + (width img - 1))
       = (Some r4, Some g4, Some b4)
    /\ (is_byte r1 /\ is_byte r2 /\ is_byte r3 /\ is_byte r4)
    /\ (is_byte g1 /\ is_byte g2 /\ is_byte g3 /\ is_byte g4)
    /\ (is_byte b1 /\ is_byte b2 /\ is_byte b3 /\ is_byte b4)
    /\ ChromaKey.estimateBackground img
       = mkColor (Some ((r1 + r2 + r3 + r4 + 2) / 4))
                 (Some ((g1 + g2 + g3 + g4 + 2) / 4))
                 (Some ((b1 + b2 + b3 + b4 + 2) / 4)).
Proof.
  intros Hraw. pose proof Hraw as [Hw Hh Hlen Hbytes].
  destruct (rgbAt_raw img 0 Hraw ltac:(nia))
    as (r1 & g1 & b1 & H1 & Hr1 & Hg1 & Hb1).
  destruct (rgbAt_raw img (width img - 1) Hraw ltac:(nia))
    as (r2 & g2 & b2 & H2 & Hr2 & Hg2 & Hb2).
  destruct (rgbAt_raw img ((height img - 1) * width img) Hraw ltac:(nia))
    as (r3 & g3 & b3 & H3 & Hr3 & Hg3 & Hb3).
  destruct (rgbAt_raw img ((height img - 1) * width img + (width img - 1)) Hraw
              ltac:(nia))
    as (r4 & g4 & b4 & H4 & Hr4 & Hg4 & Hb4).
  exists r1, g1, b1, r2, g2, b2, r3, g3, b3, r4, g4, b4.
  do 4 (split; [assumption|]).
  do 3 (split; [auto|]).
  unfold ChromaKey.estimateBackground, ChromaKey.cornerSum, ChromaKey.corners.
  unfold rgbAt in H1, H2, H3, H4.
  injection H1 as E10 E11 E12. injection H2 as E20 E21 E22.
  injection H3 as E30 E31 E32. injection H4 as E40 E41 E42.
  simpl foldl. rewrite !Z.add_0_r.
  change (0 * 4) with 0 in E10, E11, E12. change (0 + 1) with 1 in E11.
  change (0 + 2) with 2 in E12. change (0 + 1) with 1. change (0 + 2) with 2.
  rewrite E10, E11, E12, E20, E21, E22, E30, E31, E32, E40, E41, E42.
  simpl add. unfold is_byte in *.
  rewrite !ChromaClaims.mean_round by lia. rewrite !SpecFacts.mean4_div.
  reflexivity.
Qed.

(** The rounded mean of four integers lies between the smallest and the
    largest of them. *)
Lemma mean_between (x1 x2 x3 x4 : Z) :
  Z.min (Z.min x1 x2) (Z.min x3 x4) <= (x1 + x2 + x3 + x4 + 2) / 4
  <= Z.max (Z.max x1 x2) (Z.max x3 x4).
Proof.
  pose proof (Z.le_min_l x1 x2). pose proof (Z.le_min_r x1 x2).
  pose proof (Z.le_min_l x3 x4). pose proof (Z.le_min_r x3 x4).
  pose proof (Z.le_min_l (Z.min x1 x2) (Z.min x3 x4)).
  pose proof (Z.le_min_r (Z.min x1 x2) (Z.min x3 x4)).
  pose proof (Z.le_max_l x1 x2). pose proof (Z.le_max_r x1 x2).
  pose proof (Z.le_max_l x3 x4). pose proof (Z.le_max_r x3 x4).
  pose proof (Z.le_max_l (Z.max x1 x2) (Z.max x3 x4)).
  pose proof (Z.le_max_r (Z.max x1 x2) (Z.max x3 x4)).
  set (lo := Z.min (Z.min x1 x2) (Z.min x3 x4)) in *.
  set (hi := Z.max (Z.max x1 x2) (Z.max x3 x4)) in *.
  split.
  - apply Z.div_le_lower_bound; lia.
  - apply Z.lt_succ_r. apply Z.div_lt_upper_bound; lia.
Qed.

(** The rounded mean of four bytes is a byte. *)
Lemma mean_byte (x1 x2 x3 x4 : Z) :
  is_byte x1 -> is_byte x2 -> is_byte x3 -> is_byte x4 ->
  is_byte ((x1 + x2 + x3 + x4 + 2) / 4).
Proof.
  unfold is_byte. intros. split.
  - apply Z.div_pos; lia.
  - apply Z.lt_succ_r. apply Z.div_lt_upper_bound; lia.
Qed.

(** X7. Each channel of the background the estimator returns lies
    between the smallest and the largest value of that channel over the
    four corner pixels: the estimate is never brighter or darker than
    every corner, and its channels are bytes. *)
Theorem estimate_within_corner_range (img : Decoded) :
  raw_rgba img ->
  exists r1 g1 b1 r2 g2 b2 r3 g3 b3 r4 g4 b4 er eg eb,
    rgbAt (data img) 0 = (Some r1, Some g1, Some b1)
    /\ rgbAt (data img) (width img - 1) = (Some r2, Some g2, Some b2)
    /\ rgbAt (data img) ((height img - 1) * width img) = (Some r3, Some g3, Some b3)
    /\ rgbAt (data img) ((height img - 1) * width img + (width img - 1))
       = (Some r4, Some g4, Some b4)
    /\ ChromaKey.estimateBackground img = mkColor (Some er) (Some eg) (Some eb)
    /\ Z.min (Z.min r1 r2) (Z.min r3 r4) <= er <= Z.max (Z.max r1 r2) (Z.max r3 r4)
    /\ Z.min (Z.min g1 g2) (Z.min g3 g4) <= eg <= Z.max (Z.max g1 g2) (Z.max g3 g4)
    /\ Z.min (Z.min b1 b2) (Z.min b3 b4) <= eb <= Z.max (Z.max b1 b2) (Z.max b3 b4)
    /\ is_byte er /\ is_byte eg /\ is_byte eb.
Proof.
  intros Hraw.
  destruct (estimate_of_corners img Hraw)
    as (r1 & g1 & b1 & r2 & g2 & b2 & r3 & g3 & b3 & r4 & g4 & b4
        & H1 & H2 & H3 & H4 & Hr & Hg & Hb & He).
  exists r1, g1, b1, r2, g2, b2, r3, g3, b3, r4, g4, b4.
  do 3 eexists. do 4 (split; [eassumption|]). split; [exact He|].
  destruct Hr as (? & ? & ? & ?). destruct Hg as (? & ? & ? & ?).
  destruct Hb as (? & ? & ? & ?).
  split; [apply mean_between|]. split; [apply mean_between|].
  split; [apply mean_between|].
  split; [|split]; apply mean_byte; assumption.
Qed.

Lemma estimate_within_corner_range_witness :
  raw_rgba Samples.green
  /\ exists r1 g1 b1 r2 g2 b2 r3 g3 b3 r4 g4 b4 er eg eb,
       rgbAt (data Samples.green) 0 = (Some r1, Some g1, Some b1)
       /\ rgbAt (data Samples.green) (width Samples.green - 1)
          = (Some r2, Some g2, Some b2)
       /\ rgbAt (data Samples.green) ((height Samples.green - 1) * width Samples.green)
          = (Some r3, Some g3, Some b3)
       /\ rgbAt (data Samples.green)
            ((height Samples.green - 1) * width Samples.green
             + (width Samples.green - 1))
          = (Some r4, Some g4, Some b4)
       /\ ChromaKey.estimateBackground Samples.green
          = mkColor (Some er) (Some eg) (Some eb)
       /\ Z.min (Z.min r1 r2) (Z.min r3 r4) <= er <= Z.max (Z.max r1 r2) (Z.max r3 r4)
       /\ Z.min (Z.min g1 g2) (Z.min g3 g4) <= eg <= Z.max (Z.max g1 g2) (Z.max g3 g4)
       /\ Z.min (Z.min b1 b2) (Z.min b3 b4) <= eb <= Z.max (Z.max b1 b2) (Z.max b3 b4)
       /\ is_byte er /\ is_byte eg /\ is_byte eb.
Proof.
  split; [exact ChromaClaims.raw_green|].
  exact (estimate_within_corner_range Samples.green ChromaClaims.raw_green).
Defined.

(** The alpha byte of a pixel of the output. *)
Lemma chroma_alpha_read (input : Decoded) (optBgColor : option string)
    (optTolerance : option Z) (out : Decoded) (i : Z) :
  raw_rgba input ->
  ChromaKey.removeBackgroundLocal input optBgColor optTolerance = inr out ->
  0 <= i < width input * height input ->
  exists bgColor,
    ChromaKey.chooseBackground input optBgColor = inr bgColor
    /\ readAt (data out) (i * 4 + 3)
       = Some (ToUint8 (ChromaKey.pixelAlpha (rgbAt (data input) i) bgColor
                          (default 30 optTolerance))).
Proof.
  intros [Hw Hh Hlen _] H Hi.
  destruct (ChromaClaims.remove_reads _ _ _ _ H) as (bg & Hbg & _ & _ & _ & Hr).
  exists bg. split; [exact Hbg|].
  rewrite Hr, decide_True.
  - replace ((i * 4 + 3) / 4) with i
      by (rewrite Z.add_comm, Z.div_add by lia; reflexivity).
    reflexivity.
  - split; [lia|]. split; [lia|].
    rewrite Z.add_comm, Z.mod_add by lia. reflexivity.
Qed.

(** A pixel of the colour of the background is within every tolerance. *)
Lemma pixelAlpha_background (cr cg cb : Z) (tolerance : Z) :
  ChromaKey.pixelAlpha (Some cr, Some cg, Some cb)
    (mkColor (Some cr) (Some cg) (Some cb)) tolerance = Some 0.
Proof.
  unfold ChromaKey.pixelAlpha, ChromaKey.distSquaredOf, sumSquares. simpl.
  replace ((cr - cr) * (cr - cr) + (cg - cg) * (cg - cg) + (cb - cb) * (cb - cb))
    with 0 by ring.
  unfold ChromaKey.alphaOf, ChromaKey.band, ChromaKey.numLe.
  pose proof (Z.square_nonneg tolerance).
  destruct (Z.leb_spec 0 (tolerance * tolerance)); [|lia].
  vm_compute. reflexivity.
Qed.

(** X8. When the four corner pixels of a decoded image hold one colour,
    the estimator returns exactly that colour, and a run in automatic
    mode makes every pixel of that colour, the corners among them, fully
    transparent (alpha byte 0), for every tolerance, negative ones and
    ones above 255 included. *)
Theorem uniform_corners_become_transparent (input out : Decoded)
    (optBgColor : option string) (optTolerance : option Z) (cr cg cb : Z) :
  raw_rgba input ->
  ChromaKey.isAuto optBgColor = true ->
  rgbAt (data input) 0 = (Some cr, Some cg, Some cb) ->
  rgbAt (data input) (width input - 1) = (Some cr, Some cg, Some cb) ->
  rgbAt (data input) ((height input - 1) * width input) = (Some cr, Some cg, Some cb) ->
  rgbAt (data input) ((height input - 1) * width input + (width input - 1))
  = (Some cr, Some cg, Some cb) ->
  ChromaKey.removeBackgroundLocal input optBgColor optTolerance = inr out ->
  ChromaKey.estimateBackground input = mkColor (Some cr) (Some cg) (Some cb)
  /\ forall i, 0 <= i < width input * height input ->
       rgbAt (data input) i = (Some cr, Some cg, Some cb) ->
       readAt (data out) (i * 4 + 3) = Some 0.
Proof.
  intros Hraw Hauto C1 C2 C3 C4 H.
  destruct (estimate_of_corners input Hraw)
    as (r1 & g1 & b1 & r2 & g2 & b2 & r3 & g3 & b3 & r4 & g4 & b4
        & H1 & H2 & H3 & H4 & _ & _ & _ & He).
  rewrite C1 in H1. rewrite C2 in H2. rewrite C3 in H3. rewrite C4 in H4.
  injection H1 as <- <- <-. injection H2 as <- <- <-.
  injection H3 as <- <- <-. injection H4 as <- <- <-.
  assert (forall c, (c + c + c + c + 2) / 4 = c) as Hmean.
  { intros c. replace (c + c + c + c + 2) with (2 + c * 4) by ring.
    rewrite Z.div_add by lia. reflexivity. }
  rewrite !Hmean in He. split; [exact He|].
  intros i Hi Hpx.
  destruct (chroma_alpha_read _ _ _ _ i Hraw H Hi) as (bg & Hbg & Hread).
  unfold ChromaKey.chooseBackground in Hbg. rewrite Hauto in Hbg.
  injection Hbg as <-. rewrite Hread, Hpx, He, pixelAlpha_background.
  reflexivity.
Qed.

Lemma uniform_corners_become_transparent_witness :
  exists out,
    (raw_rgba MoreSamples.greyEnds
     /\ ChromaKey.isAuto (Some "auto") = true
     /\ rgbAt (data MoreSamples.greyEnds) 0 = (Some 9, Some 9, Some 9)
     /\ rgbAt (data MoreSamples.greyEnds) (width MoreSamples.greyEnds - 1)
        = (Some 9, Some 9, Some 9)
     /\ rgbAt (data MoreSamples.greyEnds)
          ((height MoreSamples.greyEnds - 1) * width MoreSamples.greyEnds)
        = (Some 9, Some 9, Some 9)
     /\ rgbAt (data MoreSamples.greyEnds)
          ((height MoreSamples.greyEnds - 1) * width MoreSamples.greyEnds
           + (width MoreSamples.greyEnds - 1))
        = (Some 9, Some 9, Some 9)
     /\ ChromaKey.removeBackgroundLocal MoreSamples.greyEnds (Some "auto") (Some 0)
        = inr out)
    /\ ChromaKey.estimateBackground MoreSamples.greyEnds
       = mkColor (Some 9) (Some 9) (Some 9)
    /\ forall i, 0 <= i < width MoreSamples.greyEnds * height MoreSamples.greyEnds ->
         rgbAt (data MoreSamples.greyEnds) i = (Some 9, Some 9, Some 9) ->
         readAt (data out) (i * 4 + 3) = Some 0.
Proof.
  eexists. split.
  - split; [exact raw_greyEnds|]. repeat split; vm_compute; reflexivity.
  - exact (uniform_corners_become_transparent MoreSamples.greyEnds _ (Some "auto")
             (Some 0) 9 9 9 raw_greyEnds eq_refl eq_refl eq_refl eq_refl eq_refl
             eq_refl).
Defined.

(** The alpha byte, from the squared distance to the background. *)
Lemma alpha_byte_exists (tolerance d : Z) :
  0 <= tolerance <= 255 ->
  exists k,
    Math_round (ChromaKey.alphaOf (Some d) tolerance * 255)%float = Some k
    /\ 0 <= k <= 255.
Proof.
  intros HT. unfold ChromaKey.alphaOf.
  destruct (ChromaKey.band (Some d) tolerance) eqn:Hband.
  - exists 0. split; [vm_compute; reflexivity|lia].
  - apply band_Fade in Hband.
    assert (1 <= tolerance) as HT1 by nia.
    destruct (band_step tolerance d ltac:(lia) Hband) as [_ Hsc].
    apply andb_prop in Hsc as [Hlo Hhi].
    exact (FloatOrder.Math_round_byte _ Hlo Hhi).
  - exists 255. split; [vm_compute; reflexivity|lia].
Qed.

(** The alpha byte does not decrease with the squared distance. *)
Lemma alpha_byte_mono (tolerance d1 d2 : Z) :
  0 <= tolerance <= 255 -> d1 <= d2 ->
  exists k1 k2,
    Math_round (ChromaKey.alphaOf (Some d1) tolerance * 255)%float = Some k1
    /\ Math_round (ChromaKey.alphaOf (Some d2) tolerance * 255)%float = Some k2
    /\ 0 <= k1 /\ k1 <= k2 /\ k2 <= 255.
Proof.
  intros HT H12.
  pose proof (fun d => alpha_byte_exists tolerance d HT) as Hbyte.
  destruct (Hbyte d1) as (k1 & Hk1 & Hr1). destruct (Hbyte d2) as (k2 & Hk2 & Hr2).
  exists k1, k2. split; [exact Hk1|]. split; [exact Hk2|].
  split; [lia|]. split; [|lia].
  destruct (ChromaKey.band (Some d1) tolerance) eqn:Hb1.
  - (* within the tolerance: byte 0 *)
    unfold ChromaKey.alphaOf in Hk1. rewrite Hb1 in Hk1.
    replace (Math_round (0 * 255)%float) with (Some 0) in Hk1
      by (vm_compute; reflexivity).
    injection Hk1 as <-. lia.
  - apply band_Fade in Hb1.
    destruct (ChromaKey.band (Some d2) tolerance) eqn:Hb2.
    + exfalso. unfold ChromaKey.band, ChromaKey.numLe in Hb2.
      destruct (Z.leb_spec d2 (tolerance * tolerance)); [lia|].
      destruct (d2 <=? _); discriminate Hb2.
    + apply band_Fade in Hb2.
      assert (1 <= tolerance) as HT1 by nia.
      destruct (fade_byte_mono tolerance d1 d2 ltac:(lia) ltac:(lia) H12 ltac:(lia))
        as (j1 & j2 & Hj1 & Hj2 & Hj).
      rewrite alphaOf_Fade in Hk1, Hk2 by assumption.
      rewrite Hj1 in Hk1. rewrite Hj2 in Hk2.
      injection Hk1 as <-. injection Hk2 as <-. lia.
    + unfold ChromaKey.alphaOf in Hk2. rewrite Hb2 in Hk2.
      replace (Math_round (1 * 255)%float) with (Some 255) in Hk2
        by (vm_compute; reflexivity).
      injection Hk2 as <-. lia.
  - (* beyond twice the tolerance: so is the farther pixel *)
    assert (ChromaKey.band (Some d2) tolerance = ChromaKey.Opaque) as Hb2.
    { unfold ChromaKey.band, ChromaKey.numLe in *.
      destruct (Z.leb_spec d1 (tolerance * tolerance)); [discriminate Hb1|].
      destruct (Z.leb_spec d1 (tolerance * 2 * (tolerance * 2))); [discriminate Hb1|].
      destruct (Z.leb_spec d2 (tolerance * tolerance)); [lia|].
      destruct (Z.leb_spec d2 (tolerance * 2 * (tolerance * 2))); [lia|reflexivity]. }
    unfold ChromaKey.alphaOf in Hk2. rewrite Hb2 in Hk2.
    replace (Math_round (1 * 255)%float) with (Some 255) in Hk2
      by (vm_compute; reflexivity).
    injection Hk2 as <-. lia.
Qed.

(** The background a call on a decoded image chooses has three numbers
    for channels. *)
Lemma chooseBackground_channels (input : Decoded) (optBgColor : option string)
    (bgColor : Color) :
  raw_rgba input ->
  ChromaKey.chooseBackground input optBgColor = inr bgColor ->
  exists cr cg cb, bgColor = mkColor (Some cr) (Some cg) (Some cb).
Proof.
  intros Hraw. unfold ChromaKey.chooseBackground.
  destruct (ChromaKey.isAuto optBgColor).
  - intros [= <-].
    destruct (estimate_of_corners input Hraw)
      as (r1 & g1 & b1 & r2 & g2 & b2 & r3 & g3 & b3 & r4 & g4 & b4
          & _ & _ & _ & _ & _ & _ & _ & He).
    rewrite He. eauto.
  - unfold ChromaKey.parseColor. intros H.
    repeat case_match; try discriminate H; injection H as <-; eauto.
Qed.

(** X9. For a tolerance from 0 to 255, of two pixels of one run the one
    farther from the background (by the squared distance the code
    computes) never gets the smaller alpha byte: opacity does not
    decrease with the distance to the background, across the transparent
    zone, the fade band and the opaque zone. *)
Theorem chroma_alpha_monotone (input out : Decoded) (optBgColor : option string)
    (optTolerance : option Z) (i1 i2 : Z) :
  raw_rgba input ->
  0 <= default 30 optTolerance <= 255 ->
  ChromaKey.removeBackgroundLocal input optBgColor optTolerance = inr out ->
  0 <= i1 < width input * height input ->
  0 <= i2 < width input * height input ->
  exists bgColor d1 d2 a1 a2,
    ChromaKey.chooseBackground input optBgColor = inr bgColor
    /\ ChromaKey.distSquaredOf (rgbAt (data input) i1) bgColor = Some d1
    /\ ChromaKey.distSquaredOf (rgbAt (data input) i2) bgColor = Some d2
    /\ readAt (data out) (i1 * 4 + 3) = Some a1
    /\ readAt (data out) (i2 * 4 + 3) = Some a2
    /\ (d1 <= d2 -> a1 <= a2)
    /\ (d1 = d2 -> a1 = a2).
Proof.
  intros Hraw HT H Hi1 Hi2.
  destruct (chroma_alpha_read _ _ _ _ i1 Hraw H Hi1) as (bg & Hbg & Hread1).
  destruct (chroma_alpha_read _ _ _ _ i2 Hraw H Hi2) as (bg' & Hbg' & Hread2).
  rewrite Hbg in Hbg'. injection Hbg' as <-.
  destruct (chooseBackground_channels _ _ _ Hraw Hbg) as (cr & cg & cb & ->).
  destruct (rgbAt_raw input i1 Hraw Hi1) as (r1 & g1 & b1 & Hp1 & _).
  destruct (rgbAt_raw input i2 Hraw Hi2) as (r2 & g2 & b2 & Hp2 & _).
  rewrite Hp1 in *. rewrite Hp2 in *.
  unfold ChromaKey.pixelAlpha in Hread1, Hread2.
  unfold ChromaKey.distSquaredOf, sumSquares in *. simpl in Hread1, Hread2. simpl.
  set (d1 := (r1 - cr) * (r1 - cr) + (g1 - cg) * (g1 - cg) + (b1 - cb) * (b1 - cb)) in *.
  set (d2 := (r2 - cr) * (r2 - cr) + (g2 - cg) * (g2 - cg) + (b2 - cb) * (b2 - cb)) in *.
  destruct (alpha_byte_exists (default 30 optTolerance) d1 HT) as (a1 & Ha1 & ?).
  destruct (alpha_byte_exists (default 30 optTolerance) d2 HT) as (a2 & Ha2 & ?).
  exists (mkColor (Some cr) (Some cg) (Some cb)), d1, d2, a1, a2.
  split; [exact Hbg|]. split; [reflexivity|]. split; [reflexivity|].
  rewrite Ha1, ToUint8_byte in Hread1 by lia.
  rewrite Ha2, ToUint8_byte in Hread2 by lia.
  split; [exact Hread1|]. split; [exact Hread2|]. split.
  - intros Hle.
    destruct (alpha_byte_mono (default 30 optTolerance) d1 d2 HT Hle)
      as (k1 & k2 & Hk1 & Hk2 & _ & Hk & _).
    rewrite Ha1 in Hk1. rewrite Ha2 in Hk2.
    injection Hk1 as <-. injection Hk2 as <-. exact Hk.
  - intros Heq. rewrite Heq in Ha1. rewrite Ha1 in Ha2. injection Ha2 as <-.
    reflexivity.
Qed.

Lemma chroma_alpha_monotone_witness :
  exists out,
    (raw_rgba Samples.green
     /\ 0 <= default 30 (Some 200) <= 255
     /\ ChromaKey.removeBackgroundLocal Samples.green (Some "#00ff00") (Some 200)
        = inr out
     /\ 0 <= 3 < width Samples.green * height Samples.green
     /\ 0 <= 4 < width Samples.green * height Samples.green)
    /\ exists bgColor d1 d2 a1 a2,
         ChromaKey.chooseBackground Samples.green (Some "#00ff00") = inr bgColor
         /\ ChromaKey.distSquaredOf (rgbAt (data Samples.green) 3) bgColor = Some d1
         /\ ChromaKey.distSquaredOf (rgbAt (data Samples.green) 4) bgColor = Some d2
         /\ readAt (data out) (3 * 4 + 3) = Some a1
         /\ readAt (data out) (4 * 4 + 3) = Some a2
         /\ (d1 <= d2 -> a1 <= a2)
         /\ (d1 = d2 -> a1 = a2).
Proof.
  assert (0 <= default 30 (Some 200) <= 255) as HT by (simpl; lia).
  assert (0 <= 3 < width Samples.green * height Samples.green) as Hi1 by (simpl; lia).
  assert (0 <= 4 < width Samples.green * height Samples.green) as Hi2 by (simpl; lia).
  eexists. split.
  - split; [exact ChromaClaims.raw_green|]. split; [exact HT|].
    split; [vm_compute; reflexivity|]. split; [exact Hi1|exact Hi2].
  - exact (chroma_alpha_monotone Samples.green _ (Some "#00ff00") (Some 200) 3 4
             ChromaClaims.raw_green HT eq_refl Hi1 Hi2).
Defined.

(** X22. With a background colour given, the alpha of a pixel depends on
    the colour of that pixel alone, and in automatic mode on it and on the
    four corners: two pixels of the same colour, in one image or in two
    images for which the same background is chosen, get the same alpha
    byte, whatever the other pixels hold. *)
Theorem chroma_alpha_is_local (input input' out out' : Decoded)
    (optBgColor : option string) (optTolerance : option Z) (i j : Z) :
  raw_rgba input -> raw_rgba input' ->
  ChromaKey.removeBackgroundLocal input optBgColor optTolerance = inr out ->
  ChromaKey.removeBackgroundLocal input' optBgColor optTolerance = inr out' ->
  ChromaKey.isAuto optBgColor = false
  \/ ChromaKey.estimateBackground input = ChromaKey.estimateBackground input' ->
  0 <= i < width input * height input ->
  0 <= j < width input' * height input' ->
  rgbAt (data input) i = rgbAt (data input') j ->
  readAt (data out) (i * 4 + 3) = readAt (data out') (j * 4 + 3).
Proof.
  intros Hraw Hraw' H H' Hbg Hi Hj Hpx.
  destruct (chroma_alpha_read _ _ _ _ i Hraw H Hi) as (bg & Ebg & Hread).
  destruct (chroma_alpha_read _ _ _ _ j Hraw' H' Hj) as (bg' & Ebg' & Hread').
  assert (bg = bg') as <-.
  { unfold ChromaKey.chooseBackground in Ebg, Ebg'.
    destruct (ChromaKey.isAuto optBgColor).
    - destruct Hbg as [Hbg|Hbg]; [discriminate Hbg|]. congruence.
    - congruence. }
  rewrite Hread, Hread', Hpx. reflexivity.
Qed.

Lemma chroma_alpha_is_local_witness :
  exists out,
    (raw_rgba Samples.green
     /\ ChromaKey.removeBackgroundLocal Samples.green None None = inr out
     /\ (ChromaKey.isAuto None = false
         \/ ChromaKey.estimateBackground Samples.green
            = ChromaKey.estimateBackground Samples.green)
     /\ 0 <= 0 < width Samples.green * height Samples.green
     /\ 0 <= 2 < width Samples.green * height Samples.green
     /\ rgbAt (data Samples.green) 0 = rgbAt (data Samples.green) 2)
    /\ readAt (data out) (0 * 4 + 3) = readAt (data out) (2 * 4 + 3).
Proof.
  assert (0 <= 0 < width Samples.green * height Samples.green) as Hi by (simpl; lia).
  assert (0 <= 2 < width Samples.green * height Samples.green) as Hj by (simpl; lia).
  eexists. split.
  - split; [exact ChromaClaims.raw_green|]. split; [vm_compute; reflexivity|].
    split; [right; reflexivity|]. split; [exact Hi|]. split; [exact Hj|reflexivity].
  - exact (chroma_alpha_is_local Samples.green Samples.green _ _ None None 0 2
             ChromaClaims.raw_green ChromaClaims.raw_green eq_refl eq_refl
             (or_intror eq_refl) Hi Hj eq_refl).
Defined.

(** The background chosen depends on the background argument and on the
    colour bytes of the four corners only. *)
Lemma chooseBackground_ext (input input' : Decoded) (optBgColor : option string) :
  width input' = width input -> height input' = height input ->
  (forall j, j mod 4 <> 3 -> readAt (data input') j = readAt (data input) j) ->
  ChromaKey.chooseBackground input' optBgColor
  = ChromaKey.chooseBackground input optBgColor.
Proof.
  intros Ew Eh Hcol. unfold ChromaKey.chooseBackground.
  destruct (ChromaKey.isAuto optBgColor); [|reflexivity]. f_equal.
  unfold ChromaKey.estimateBackground, ChromaKey.corners. rewrite Ew, Eh.
  assert (forall c, 0 <= c < 3 -> forall offsets,
            Forall (fun o => o mod 4 = 0) offsets ->
            forall acc,
            foldl (fun sum offset => add sum (readAt (data input') (offset + c)))
                  acc offsets
            = foldl (fun sum offset => add sum (readAt (data input) (offset + c)))
                  acc offsets) as Hsum.
  { intros c Hc offsets Hall. induction Hall as [|o offsets Ho _ IH]; intros acc;
      [reflexivity|]. simpl. rewrite IH. f_equal. f_equal.
    apply Hcol.
    assert (o = o / 4 * 4) as Eo
      by (pose proof (Z.div_mod o 4 ltac:(lia)); lia).
    rewrite Eo, Z.add_comm, Z.mod_add by lia. rewrite Z.mod_small; lia. }
  assert (Forall (fun o => o mod 4 = 0)
            [0; (width input - 1) * 4; (height input - 1) * width input * 4;
             ((height input - 1) * width input + (width input - 1)) * 4])
    as Hoff by (repeat constructor; try apply Z.mod_mul; lia).
  unfold ChromaKey.cornerSum.
  rewrite !(fun c Hc => Hsum c Hc _ Hoff) by lia. reflexivity.
Qed.

(** X24. Runs do not accumulate: a run on the output of an earlier run,
    with any background argument and any tolerance, gives exactly what
    that run gives on the original image, error or image.  The earlier
    run leaves no trace but the alpha bytes, and the later one overwrites
    them. *)
Theorem chroma_runs_do_not_accumulate (input mid : Decoded)
    (optBgColor1 optBgColor2 : option string) (optTolerance1 optTolerance2 : option Z) :
  ChromaKey.removeBackgroundLocal input optBgColor1 optTolerance1 = inr mid ->
  ChromaKey.removeBackgroundLocal mid optBgColor2 optTolerance2
  = ChromaKey.removeBackgroundLocal input optBgColor2 optTolerance2.
Proof.
  intros H.
  pose proof (ChromaClaims.remove_colour _ _ _ _ H) as Hcol.
  destruct (ChromaClaims.remove_reads _ _ _ _ H) as (bg1 & _ & Ew & Eh & El & Hr).
  unfold ChromaKey.removeBackgroundLocal.
  rewrite (chooseBackground_ext input mid optBgColor2 Ew Eh Hcol).
  destruct (ChromaKey.chooseBackground input optBgColor2) as [e|bg]; [reflexivity|].
  rewrite Ew, Eh. f_equal.
  apply (f_equal (fun buf => mkDecoded buf (width input) (height input))).
  apply readAt_ext. intros j Hj.
  destruct (Z.le_gt_cases 0 (width input * height input)) as [Hn|Hn].
  - rewrite <- (Z2Nat.id _ Hn).
    destruct (chroma_fold_read bg (default 30 optTolerance2) (data mid)
                (Z.to_nat (width input * height input))) as [Hr2 _].
    destruct (chroma_fold_read bg (default 30 optTolerance2) (data input)
                (Z.to_nat (width input * height input))) as [Hr1 _].
    rewrite Hr2, Hr1, Z2Nat.id, El by exact Hn.
    rewrite (ChromaClaims.rgbAt_ext (data mid) (data input) _ Hcol).
    destruct (decide (0 <= j < 4 * (width input * height input)
                      /\ j < Z.of_nat (length (data input)) /\ j mod 4 = 3))
      as [Hin|Hnin]; [reflexivity|].
    rewrite (Hr j), decide_False by exact Hnin. reflexivity.
  - rewrite !seqZ_nil by lia. simpl.
    rewrite (Hr j), decide_False by lia. reflexivity.
Qed.

Lemma chroma_runs_do_not_accumulate_witness :
  exists mid,
    ChromaKey.removeBackgroundLocal Samples.green None (Some 10) = inr mid
    /\ ChromaKey.removeBackgroundLocal mid (Some "#00ff00") (Some 200)
       = ChromaKey.removeBackgroundLocal Samples.green (Some "#00ff00") (Some 200).
Proof.
  eexists. split; [vm_compute; reflexivity|].
  exact (chroma_runs_do_not_accumulate Samples.green _ None (Some "#00ff00")
           (Some 10) (Some 200) eq_refl).
Defined.

End ChromaProps.

(** ** [parseColor]: what it accepts and what it returns *)

Module ColorProps.

Import Spelling.

Lemma hexDigit_range (c : Ascii.ascii) (v : Z) :
  ChromaKey.hexDigit c = Some v -> 0 <= v <= 15.
Proof.
  unfold ChromaKey.hexDigit. intros H.
  repeat case_match; try discriminate H; injection H as <-; lia.
Qed.

Lemma hexPair_range (c1 c2 : Ascii.ascii) (v : Z) :
  ChromaKey.hexPair c1 c2 = Some v -> is_byte v.
Proof.
  unfold ChromaKey.hexPair, is_byte. intros H.
  destruct (ChromaKey.hexDigit c1) as [x|] eqn:Hx; [|discriminate H].
  destruct (ChromaKey.hexDigit c2) as [y|] eqn:Hy; [|discriminate H].
  simpl in H. injection H as <-.
  apply hexDigit_range in Hx, Hy. lia.
Qed.

(** X10. [parseColor] returns a colour or fails with [InvalidColor], its
    only error; the three channels of a colour it returns are integers
    from 0 to 255, never [NaN]. *)
Theorem parseColor_channels_are_bytes (color : string) :
  match ChromaKey.parseColor color with
  | inr c =>
      exists cr cg cb,
        c = mkColor (Some cr) (Some cg) (Some cb)
        /\ is_byte cr /\ is_byte cg /\ is_byte cb
  | inl e => e = InvalidColor
  end.
Proof.
  unfold ChromaKey.parseColor.
  destruct (String.eqb color "white");
    [exists 255, 255, 255; unfold is_byte; repeat split; lia|].
  destruct (String.eqb color "black");
    [exists 0, 0, 0; unfold is_byte; repeat split; lia|].
  destruct (String.list_ascii_of_string _)
    as [|c1 [|c2 [|c3 [|c4 [|c5 [|c6 [|c7 l]]]]]]]; try reflexivity.
  destruct (ChromaKey.hexPair c1 c2) as [vr|] eqn:Hr; [|reflexivity].
  destruct (ChromaKey.hexPair c3 c4) as [vg|] eqn:Hg; [|reflexivity].
  destruct (ChromaKey.hexPair c5 c6) as [vb|] eqn:Hb; [|reflexivity].
  exists vr, vg, vb. split; [reflexivity|].
  repeat split; eapply hexPair_range; eassumption.
Qed.

(** A hexadecimal digit is not ['#'], and its case does not matter. *)
Lemma hexDigit_upperHex (c : Ascii.ascii) :
  ChromaKey.hexDigit (upperHex c) = ChromaKey.hexDigit c.
Proof.
  destruct c as [[] [] [] [] [] [] [] []]; vm_compute; reflexivity.
Qed.

Lemma hexDigit_not_hash (c : Ascii.ascii) (v : Z) :
  ChromaKey.hexDigit c = Some v -> Ascii.eqb c ChromaKey.hash = false.
Proof.
  destruct c as [[] [] [] [] [] [] [] []]; vm_compute; congruence.
Qed.

Lemma removeFirstHash_withHash (before after : list Ascii.ascii) :
  Forall (fun c => Ascii.eqb c ChromaKey.hash = false) before ->
  ChromaKey.removeFirstHash (withHash before after)
  = String.string_of_list_ascii (before ++ after).
Proof.
  unfold withHash. induction 1 as [|c before Hc _ IH]; simpl.
  - reflexivity.
  - rewrite Hc, IH. reflexivity.
Qed.

Lemma removeFirstHash_without (l : list Ascii.ascii) :
  Forall (fun c => Ascii.eqb c ChromaKey.hash = false) l ->
  ChromaKey.removeFirstHash (String.string_of_list_ascii l)
  = String.string_of_list_ascii l.
Proof.
  induction 1 as [|c l Hc _ IH]; simpl; [reflexivity|].
  rewrite Hc, IH. reflexivity.
Qed.

(** Two strings of different lengths are different. *)
Lemma eqb_by_length (l : list Ascii.ascii) (s : string) :
  length l <> String.length s -> String.eqb (String.string_of_list_ascii l) s = false.
Proof.
  intros Hl. apply String.eqb_neq. intros E. apply Hl. rewrite <- E.
  clear. induction l as [|c l IH]; simpl; [reflexivity|]. now rewrite IH.
Qed.

(** The colour six hexadecimal digits spell. *)
Lemma parseColor_six (c1 c2 c3 c4 c5 c6 : Ascii.ascii) (v1 v2 v3 v4 v5 v6 : Z)
    (s : string) :
  ChromaKey.hexDigit c1 = Some v1 -> ChromaKey.hexDigit c2 = Some v2 ->
  ChromaKey.hexDigit c3 = Some v3 -> ChromaKey.hexDigit c4 = Some v4 ->
  ChromaKey.hexDigit c5 = Some v5 -> ChromaKey.hexDigit c6 = Some v6 ->
  String.eqb s "white" = false -> String.eqb s "black" = false ->
  ChromaKey.removeFirstHash s = String.string_of_list_ascii (six c1 c2 c3 c4 c5 c6) ->
  ChromaKey.parseColor s
  = inr (mkColor (Some (16 * v1 + v2)) (Some (16 * v3 + v4)) (Some (16 * v5 + v6))).
Proof.
  intros H1 H2 H3 H4 H5 H6 Hw Hb Hs. unfold ChromaKey.parseColor.
  rewrite Hw, Hb, Hs, String.list_ascii_of_string_of_list_ascii.
  unfold six, ChromaKey.hexPair. rewrite H1, H2, H3, H4, H5, H6. reflexivity.
Qed.

(** X11. Six hexadecimal digits spell one colour, of channels [16 * high
    + low], however they are written: without ['#'], with one ['#'] in
    front, with one ['#'] anywhere between the digits (the first ['#'] is
    deleted wherever it stands), and with their letters in upper case. *)
Theorem parseColor_spellings (c1 c2 c3 c4 c5 c6 : Ascii.ascii)
    (v1 v2 v3 v4 v5 v6 : Z) :
  ChromaKey.hexDigit c1 = Some v1 -> ChromaKey.hexDigit c2 = Some v2 ->
  ChromaKey.hexDigit c3 = Some v3 -> ChromaKey.hexDigit c4 = Some v4 ->
  ChromaKey.hexDigit c5 = Some v5 -> ChromaKey.hexDigit c6 = Some v6 ->
  let colour : Error + Color :=
    inr (mkColor (Some (16 * v1 + v2)) (Some (16 * v3 + v4)) (Some (16 * v5 + v6))) in
  ChromaKey.parseColor (String.string_of_list_ascii (six c1 c2 c3 c4 c5 c6)) = colour
  /\ ChromaKey.parseColor (withHash [] (six c1 c2 c3 c4 c5 c6)) = colour
  /\ (forall before after, before ++ after = six c1 c2 c3 c4 c5 c6 ->
        ChromaKey.parseColor (withHash before after) = colour)
  /\ ChromaKey.parseColor
       (String.string_of_list_ascii
          (six (upperHex c1) (upperHex c2) (upperHex c3) (upperHex c4) (upperHex c5)
               (upperHex c6))) = colour.
Proof.
  intros H1 H2 H3 H4 H5 H6 colour.
  assert (Forall (fun c => Ascii.eqb c ChromaKey.hash = false) (six c1 c2 c3 c4 c5 c6))
    as Hno by (unfold six; repeat constructor; eauto using hexDigit_not_hash).
  assert (forall before after, before ++ after = six c1 c2 c3 c4 c5 c6 ->
            ChromaKey.parseColor (withHash before after) = colour) as Hany.
  { intros before after E.
    assert (length (before ++ ChromaKey.hash :: after) = 7%nat) as Hlen.
    { pose proof (f_equal length E) as HE. rewrite length_app in HE.
      rewrite length_app. simpl in *. lia. }
    apply (parseColor_six c1 c2 c3 c4 c5 c6); try assumption.
    - apply eqb_by_length. rewrite Hlen. discriminate.
    - apply eqb_by_length. rewrite Hlen. discriminate.
    - rewrite removeFirstHash_withHash, E; [reflexivity|].
      rewrite <- E in Hno. apply Forall_app in Hno. tauto. }
  split; [|split; [apply Hany; reflexivity|split; [exact Hany|]]].
  - apply (parseColor_six c1 c2 c3 c4 c5 c6); try assumption.
    + apply eqb_by_length. discriminate.
    + apply eqb_by_length. discriminate.
    + apply removeFirstHash_without, Hno.
  - apply (parseColor_six (upperHex c1) (upperHex c2) (upperHex c3) (upperHex c4)
             (upperHex c5) (upperHex c6)); rewrite ?hexDigit_upperHex; try assumption.
    + apply eqb_by_length. discriminate.
    + apply eqb_by_length. discriminate.
    + apply removeFirstHash_without. unfold six.
      repeat constructor; eapply hexDigit_not_hash; rewrite hexDigit_upperHex;
        eassumption.
Qed.

Lemma parseColor_spellings_witness :
  let colour : Error + Color := inr (mkColor (Some 0) (Some 255) (Some 127)) in
  ChromaKey.parseColor "00ff7f" = colour
  /\ ChromaKey.parseColor "#00ff7f" = colour
  /\ ChromaKey.parseColor "00#ff7f" = colour
  /\ ChromaKey.parseColor "00FF7F" = colour.
Proof.
  (* the digits 0, f and 7 *)
  pose (d0 := Ascii.ascii_of_N 48). pose (df := Ascii.ascii_of_N 102).
  pose (d7 := Ascii.ascii_of_N 55).
  destruct (parseColor_spellings d0 d0 df df d7 df 0 0 15 15 7 15
              eq_refl eq_refl eq_refl eq_refl eq_refl eq_refl)
    as (Ha & Hb & Hc & Hd).
  split; [exact Ha|]. split; [exact Hb|].
  split; [exact (Hc [d0; d0] [df; df; d7; df] eq_refl)|exact Hd].
Defined.

(** X12. [parseColor] accepts exactly ['white'], ['black'] and the
    strings that, once their first ['#'] is deleted, are six hexadecimal
    digits: the short form ['#fff'], eight digits, a second ['#'], the
    name of another colour, ['White'] with a capital and the empty string
    are all rejected. *)
Theorem parseColor_accepts_exactly (color : string) :
  (exists c, ChromaKey.parseColor color = inr c)
  <-> color = "white" \/ color = "black"
      \/ (length (String.list_ascii_of_string (ChromaKey.removeFirstHash color)) = 6%nat
          /\ Forall (fun c => is_Some (ChromaKey.hexDigit c))
               (String.list_ascii_of_string (ChromaKey.removeFirstHash color))).
Proof.
  unfold ChromaKey.parseColor.
  destruct (String.eqb_spec color "white") as [->|Hw]; [split; eauto|].
  destruct (String.eqb_spec color "black") as [->|Hb]; [split; eauto|].
  destruct (String.list_ascii_of_string _)
    as [|c1 [|c2 [|c3 [|c4 [|c5 [|c6 [|c7 l]]]]]]];
    try (split; [intros [c H]; discriminate H
                |intros [?|[?|[Hl _]]]; [congruence|congruence|discriminate Hl]]).
  unfold ChromaKey.hexPair.
  split.
  - intros [c H]. right. right. split; [reflexivity|].
    destruct (ChromaKey.hexDigit c1) eqn:E1; [|discriminate H].
    destruct (ChromaKey.hexDigit c2) eqn:E2; [|discriminate H].
    destruct (ChromaKey.hexDigit c3) eqn:E3; [|discriminate H].
    destruct (ChromaKey.hexDigit c4) eqn:E4; [|discriminate H].
    destruct (ChromaKey.hexDigit c5) eqn:E5; [|discriminate H].
    destruct (ChromaKey.hexDigit c6) eqn:E6; [|discriminate H].
    repeat (apply Forall_cons; split; [eexists; eassumption|]). constructor.
  - intros [?|[?|[_ Hd]]]; [congruence|congruence|].
    repeat match goal with
      | H : Forall _ (_ :: _) |- _ => apply Forall_cons in H as [[? ->] H]
      end.
    simpl. eauto.
Qed.

End ColorProps.

(** ** [detectMimeType] *)

Module MimeProps.

Import Gemini.

Lemma byteIs_lookup (buffer : list Z) (k : nat) (v : Z) :
  byteIs buffer (Z.of_nat k) v = bool_decide (buffer !! k = Some v).
Proof.
  unfold byteIs, readAt. destruct (Z.ltb_spec (Z.of_nat k) 0); [lia|].
  rewrite Nat2Z.id. destruct (buffer !! k) as [x|].
  - destruct (Z.eqb_spec x v) as [->|Hne].
    + rewrite bool_decide_eq_true_2; reflexivity.
    + rewrite bool_decide_eq_false_2; [reflexivity|congruence].
  - rewrite bool_decide_eq_false_2; [reflexivity|discriminate].
Qed.

(** The type is decided by the first twelve bytes. *)
Lemma detectMimeType_lookups (buffer : list Z) :
  detectMimeType buffer
  = if bool_decide (buffer !! 0%nat = Some 0x89) && bool_decide (buffer !! 1%nat = Some 0x50)
       && bool_decide (buffer !! 2%nat = Some 0x4E)
       && bool_decide (buffer !! 3%nat = Some 0x47)
    then "image/png"
    else if bool_decide (buffer !! 0%nat = Some 0xFF)
            && bool_decide (buffer !! 1%nat = Some 0xD8)
            && bool_decide (buffer !! 2%nat = Some 0xFF)
    then "image/jpeg"
    else if bool_decide (buffer !! 0%nat = Some 0x47)
            && bool_decide (buffer !! 1%nat = Some 0x49)
            && bool_decide (buffer !! 2%nat = Some 0x46)
            && bool_decide (buffer !! 3%nat = Some 0x38)
    then "image/gif"
    else if bool_decide (buffer !! 0%nat = Some 0x52)
            && bool_decide (buffer !! 1%nat = Some 0x49)
            && bool_decide (buffer !! 2%nat = Some 0x46)
            && bool_decide (buffer !! 3%nat = Some 0x46)
            && bool_decide (buffer !! 8%nat = Some 0x57)
            && bool_decide (buffer !! 9%nat = Some 0x45)
            && bool_decide (buffer !! 10%nat = Some 0x42)
            && bool_decide (buffer !! 11%nat = Some 0x50)
    then "image/webp"
    else "image/png".
Proof.
  unfold detectMimeType.
  rewrite <- !byteIs_lookup. reflexivity.
Qed.

(** X13. The type returned depends on the first twelve bytes of the
    buffer only: whatever follows them (the image itself) has no
    influence, and a buffer cut after its header is typed like the whole
    file. *)
Theorem detectMimeType_header_only (buffer : list Z) :
  detectMimeType (take 12 buffer) = detectMimeType buffer
  /\ forall more, (12 <= length buffer)%nat ->
       detectMimeType (buffer ++ more) = detectMimeType buffer.
Proof.
  split.
  - rewrite !detectMimeType_lookups.
    rewrite !lookup_take_lt by lia. reflexivity.
  - intros more Hlen. rewrite !detectMimeType_lookups.
    rewrite !lookup_app_l by lia. reflexivity.
Qed.

(** X14. The four signatures exclude one another, so that the order of
    the tests does not matter: the type is ['image/jpeg'] exactly for a
    buffer that starts with FF D8 FF, ['image/gif'] exactly for one that
    starts with 47 49 46 38, ['image/webp'] exactly for one that starts
    with 52 49 46 46 and holds 57 45 42 50 at offsets 8 to 11, and
    ['image/png'] for every other buffer: the empty one, a RIFF file cut
    before its twelfth byte, a file of an unknown type. *)
Theorem detectMimeType_by_signature (buffer : list Z) :
  (detectMimeType buffer = "image/jpeg" <-> take 3 buffer = [0xFF; 0xD8; 0xFF])
  /\ (detectMimeType buffer = "image/gif" <-> take 4 buffer = [0x47; 0x49; 0x46; 0x38])
  /\ (detectMimeType buffer = "image/webp"
      <-> take 4 buffer = [0x52; 0x49; 0x46; 0x46]
          /\ take 4 (drop 8 buffer) = [0x57; 0x45; 0x42; 0x50])
  /\ (detectMimeType buffer = "image/png"
      <-> take 3 buffer <> [0xFF; 0xD8; 0xFF]
          /\ take 4 buffer <> [0x47; 0x49; 0x46; 0x38]
          /\ ~ (take 4 buffer = [0x52; 0x49; 0x46; 0x46]
                /\ take 4 (drop 8 buffer) = [0x57; 0x45; 0x42; 0x50])).
Proof.
  assert (forall x0 x1 x2, take 3 buffer = [x0; x1; x2]
            <-> buffer !! 0%nat = Some x0 /\ buffer !! 1%nat = Some x1
                /\ buffer !! 2%nat = Some x2) as H3.
  { intros. destruct buffer as [|b0 [|b1 [|b2 rest]]]; simpl; split;
      try (intros H; discriminate H); try (intros (H & _); discriminate H);
      try (intros (_ & H & _); discriminate H);
      try (intros (_ & _ & H); discriminate H).
    - intros [= -> -> ->]. auto.
    - intros ([= ->] & [= ->] & [= ->]). reflexivity. }
  assert (forall (l : list Z) x0 x1 x2 x3, take 4 l = [x0; x1; x2; x3]
            <-> l !! 0%nat = Some x0 /\ l !! 1%nat = Some x1
                /\ l !! 2%nat = Some x2 /\ l !! 3%nat = Some x3) as H4.
  { intros l. intros. destruct l as [|b0 [|b1 [|b2 [|b3 rest]]]]; simpl; split;
      try (intros H; discriminate H); try (intros (H & _); discriminate H);
      try (intros (_ & H & _); discriminate H);
      try (intros (_ & _ & H & _); discriminate H);
      try (intros (_ & _ & _ & H); discriminate H).
    - intros [= -> -> -> ->]. auto.
    - intros ([= ->] & [= ->] & [= ->] & [= ->]). reflexivity. }
  rewrite !H3, !H4, !lookup_drop. simpl Nat.add.
  rewrite detectMimeType_lookups.
  set (png := bool_decide (buffer !! 0%nat = Some 0x89) && _ && _ && _).
  set (jpeg := bool_decide (buffer !! 0%nat = Some 0xFF) && _ && _).
  set (gif := bool_decide (buffer !! 0%nat = Some 0x47) && _ && _ && _).
  set (webp := bool_decide (buffer !! 0%nat = Some 0x52) && _ && _ && _ && _ && _ && _
               && _).
  assert (png = true -> buffer !! 0%nat = Some 0x89) as Hpng.
  { unfold png. rewrite !andb_true_iff, !bool_decide_eq_true. tauto. }
  assert (jpeg = true
          <-> buffer !! 0%nat = Some 0xFF /\ buffer !! 1%nat = Some 0xD8
              /\ buffer !! 2%nat = Some 0xFF) as Hjpeg.
  { unfold jpeg. rewrite !andb_true_iff, !bool_decide_eq_true. tauto. }
  assert (gif = true
          <-> buffer !! 0%nat = Some 0x47 /\ buffer !! 1%nat = Some 0x49
              /\ buffer !! 2%nat = Some 0x46 /\ buffer !! 3%nat = Some 0x38) as Hgif.
  { unfold gif. rewrite !andb_true_iff, !bool_decide_eq_true. tauto. }
  assert (webp = true
          <-> (buffer !! 0%nat = Some 0x52 /\ buffer !! 1%nat = Some 0x49
               /\ buffer !! 2%nat = Some 0x46 /\ buffer !! 3%nat = Some 0x46)
              /\ buffer !! 8%nat = Some 0x57 /\ buffer !! 9%nat = Some 0x45
              /\ buffer !! 10%nat = Some 0x42 /\ buffer !! 11%nat = Some 0x50)
    as Hwebp.
  { unfold webp. rewrite !andb_true_iff, !bool_decide_eq_true. tauto. }
  rewrite <- Hjpeg, <- Hgif, <- Hwebp.
  assert (png = true -> jpeg = false /\ gif = false /\ webp = false) as Hex1.
  { intros Hp. apply Hpng in Hp. repeat split; apply not_true_is_false; intros Ht.
    - apply Hjpeg in Ht. destruct Ht as [Ht _]. congruence.
    - apply Hgif in Ht. destruct Ht as [Ht _]. congruence.
    - apply Hwebp in Ht. destruct Ht as [[Ht _] _]. congruence. }
  assert (jpeg = true -> gif = false /\ webp = false) as Hex2.
  { intros Hj. apply Hjpeg in Hj. destruct Hj as [Hj _].
    split; apply not_true_is_false; intros Ht.
    - apply Hgif in Ht. destruct Ht as [Ht _]. congruence.
    - apply Hwebp in Ht. destruct Ht as [[Ht _] _]. congruence. }
  assert (gif = true -> webp = false) as Hex3.
  { intros Hg. apply Hgif in Hg. destruct Hg as [Hg _].
    apply not_true_is_false. intros Ht. apply Hwebp in Ht.
    destruct Ht as [[Ht _] _]. congruence. }
  clearbody png jpeg gif webp. clear Hpng Hjpeg Hgif Hwebp H3 H4.
  destruct png; [destruct (Hex1 eq_refl) as (-> & -> & ->)|];
    [|destruct jpeg; [destruct (Hex2 eq_refl) as (-> & ->)|];
      [|destruct gif; [rewrite (Hex3 eq_refl)|]; [|destruct webp]]];
    repeat split; intros; try discriminate; try reflexivity;
    try (exfalso; tauto); tauto.
Qed.

End MimeProps.

(** ** [maskApiKey] and the key-entry handler *)

Module ConfigProps.

Import JSString Config.

Lemma append_cons (c : Ascii.ascii) (s t : string) :
  String c s +:+ t = String c (s +:+ t).
Proof. reflexivity. Qed.

Lemma length_append (s t : string) :
  String.length (s +:+ t) = (String.length s + String.length t)%nat.
Proof.
  induction s as [|c s IH]; [reflexivity|].
  rewrite append_cons. simpl. now rewrite IH.
Qed.

Lemma substring_whole (s : string) :
  String.substring 0 (String.length s) s = s.
Proof. induction s as [|c s IH]; simpl; [reflexivity|]. now rewrite IH. Qed.

Lemma substring_prefix (s t : string) :
  String.substring 0 (String.length s) (s +:+ t) = s.
Proof.
  induction s as [|c s IH].
  - destruct t; reflexivity.
  - rewrite append_cons. simpl. now rewrite IH.
Qed.

Lemma substring_suffix (s t : string) :
  String.substring (String.length s) (String.length t) (s +:+ t) = t.
Proof.
  induction s as [|c s IH]; [apply substring_whole|].
  rewrite append_cons. exact IH.
Qed.

Lemma append_assoc (s t u : string) : (s +:+ t) +:+ u = s +:+ (t +:+ u).
Proof.
  induction s as [|c s IH]; [reflexivity|].
  rewrite !append_cons. now rewrite IH.
Qed.

Lemma append_empty (s : string) : s +:+ "" = s.
Proof.
  induction s as [|c s IH]; [reflexivity|]. rewrite append_cons. now rewrite IH.
Qed.

Lemma length_substring_le (n m : nat) (s : string) :
  (String.length (String.substring n m s) <= m)%nat.
Proof.
  revert n m. induction s as [|c s IH]; intros [|n] [|m]; simpl; try lia.
  - specialize (IH 0%nat m). lia.
  - apply (IH n 0%nat).
  - apply (IH n (S m)).
Qed.

(** X15. Of a key of more than eight characters the mask shows the first
    four and the last four, with three dots for everything between them,
    however long: the middle of the key never reaches the output.  A key
    of at most eight characters is masked entirely, and no mask is longer
    than eleven characters. *)
Theorem maskApiKey_hides_middle (first middle last : string) :
  String.length first = 4%nat -> String.length last = 4%nat ->
  (1 <= String.length middle)%nat ->
  maskApiKey (first +:+ middle +:+ last) = first +:+ "..." +:+ last
  /\ (forall key, (String.length key <= 8)%nat -> maskApiKey key = "****")
  /\ (forall key, (String.length (maskApiKey key) <= 11)%nat).
Proof.
  intros Hf Hl Hm. split; [|split].
  - unfold maskApiKey, sliceLast.
    assert (String.length (first +:+ middle +:+ last)
            = (String.length (first +:+ middle) + 4)%nat) as Hlen
      by (rewrite !length_append; lia).
    rewrite Hlen.
    destruct (Nat.leb_spec (String.length (first +:+ middle) + 4) 8) as [Hle|_];
      [rewrite length_append in Hle; lia|].
    replace (String.substring 0 4 (first +:+ middle +:+ last)) with first
      by (rewrite <- Hf; symmetry; apply substring_prefix).
    replace (String.length (first +:+ middle) + 4 - 4)%nat
      with (String.length (first +:+ middle)) by lia.
    rewrite <- (append_assoc first middle last), <- Hl, substring_suffix.
    reflexivity.
  - intros key Hk. unfold maskApiKey.
    destruct (Nat.leb_spec (String.length key) 8); [reflexivity|lia].
  - intros key. unfold maskApiKey.
    destruct (String.length key <=? 8)%nat; [simpl; lia|].
    rewrite !length_append. simpl String.length.
    pose proof (length_substring_le 0 4 key).
    pose proof (length_substring_le (String.length key - 4) 4 key).
    unfold sliceLast. lia.
Qed.

Lemma maskApiKey_hides_middle_witness :
  (String.length "AIza" = 4%nat /\ String.length "9xZq" = 4%nat
   /\ (1 <= String.length "SyD-secret-part")%nat)
  /\ maskApiKey "AIzaSyD-secret-part9xZq" = "AIza...9xZq"
  /\ (forall key, (String.length key <= 8)%nat -> maskApiKey key = "****")
  /\ (forall key, (String.length (maskApiKey key) <= 11)%nat).
Proof.
  split; [repeat split; simpl; lia|].
  exact (maskApiKey_hides_middle "AIza" "SyD-secret-part" "9xZq" eq_refl eq_refl
           ltac:(simpl; lia)).
Defined.

(** A chunk the listener adds to the input: one that compares at or above
    a space and is not the single character DEL. *)
Lemma onData_accepts (input char : string) :
  geSpace char = true -> char <> del ->
  onData input char = Reading (input +:+ char).
Proof.
  intros Hge Hdel. unfold onData.
  destruct (String.eqb_spec char newline) as [->|_]; [discriminate Hge|].
  destruct (String.eqb_spec char carriageReturn) as [->|_]; [discriminate Hge|].
  destruct (String.eqb_spec char ctrlC) as [->|_]; [discriminate Hge|].
  destruct (String.eqb_spec char del) as [->|_]; [congruence|].
  destruct (String.eqb_spec char backspace) as [->|_]; [discriminate Hge|].
  simpl orb. cbv iota. rewrite Hge. reflexivity.
Qed.

Lemma dropLast_append_char (input : string) (c : Ascii.ascii) :
  dropLast (input +:+ String c EmptyString) = input.
Proof.
  unfold dropLast. rewrite length_append. simpl String.length.
  replace (String.length input + 1 - 1)%nat with (String.length input) by lia.
  apply substring_prefix.
Qed.

Lemma concat_cons (char : string) (chunks : list string) :
  String.concat "" (char :: chunks) = char +:+ String.concat "" chunks.
Proof.
  destruct chunks as [|next chunks]; simpl; [now rewrite append_empty|reflexivity].
Qed.

(** X16. The key-entry listener: the chunks typed before Enter, each at
    or above a space, make up the key the promise resolves with, in
    order, whether Enter arrives as a line feed or, as a terminal in raw
    mode sends it, as a carriage return, and nothing that arrives after
    Enter is read; Ctrl+C in the place of Enter ends the process instead.
    Backspace (or DEL) after a key of one character leaves the input as it
    was before that key, and on an empty input it does nothing. *)
Theorem key_entry_editing (input : string) :
  (forall chunks enter rest,
     Forall (fun char => geSpace char = true /\ char <> del) chunks ->
     enter = newline \/ enter = carriageReturn ->
     listen input (chunks ++ enter :: rest)
     = Resolved (input +:+ String.concat "" chunks))
  /\ (forall chunks rest,
        Forall (fun char => geSpace char = true /\ char <> del) chunks ->
        listen input (chunks ++ ctrlC :: rest) = Exited)
  /\ (forall c rest,
        geSpace (String c EmptyString) = true -> String c EmptyString <> del ->
        listen input (String c EmptyString :: del :: rest) = listen input rest
        /\ listen input (String c EmptyString :: backspace :: rest)
           = listen input rest)
  /\ (forall rest,
        listen "" (del :: rest) = listen "" rest
        /\ listen "" (backspace :: rest) = listen "" rest).
Proof.
  split; [|split; [|split]].
  - intros chunks enter rest H Henter. revert input.
    induction H as [|char chunks [Hge Hdel] _ IH]; intros input.
    + simpl. rewrite append_empty. destruct Henter as [->| ->]; reflexivity.
    + simpl app. simpl listen. rewrite (onData_accepts _ _ Hge Hdel), IH.
      rewrite concat_cons, append_assoc. reflexivity.
  - intros chunks rest H. revert input.
    induction H as [|char chunks [Hge Hdel] _ IH]; intros input.
    + reflexivity.
    + simpl app. simpl listen. rewrite (onData_accepts _ _ Hge Hdel). apply IH.
  - intros c rest Hge Hdel. simpl listen.
    rewrite (onData_accepts _ _ Hge Hdel).
    assert (forall k, k = del \/ k = backspace ->
              onData (input +:+ String c EmptyString) k = Reading input) as Hk.
    { intros k Hk. unfold onData.
      assert (String.eqb k newline || String.eqb k carriageReturn = false) as ->
        by (destruct Hk as [->| ->]; reflexivity).
      assert (String.eqb k ctrlC = false) as ->
        by (destruct Hk as [->| ->]; reflexivity).
      assert (String.eqb k del || String.eqb k backspace = true) as ->
        by (destruct Hk as [->| ->]; reflexivity).
      rewrite length_append. simpl String.length.
      destruct (Nat.ltb_spec 0 (String.length input + 1)); [|lia].
      rewrite dropLast_append_char. reflexivity. }
    rewrite !Hk by auto. split; reflexivity.
  - intros rest. split; reflexivity.
Qed.

End ConfigProps.

(** ** [parseArgs] and the handlers *)

Module CliProps.

Import JSString Gemini Utils Methods Args ArgsNotions.

Section Parser.

Variable basename : string -> string.

(** What holds of the variables of the loop before it, and is kept by
    every iteration, holds after it. *)
Lemma loop_invariant (P : Scan -> Prop) :
  (forall arg next st st' consumed,
     P st -> iteration basename arg next st = inr (st', consumed) -> P st') ->
  forall args st st', P st -> loop basename args st = inr st' -> P st'.
Proof.
  intros Hstep args.
  induction args as [args IH] using (induction_ltof1 _ (@length string)).
  unfold ltof in IH. intros st st' HP Hloop.
  destruct args as [|arg rest]; simpl in Hloop; [injection Hloop as <-; exact HP|].
  destruct (iteration basename arg (head rest) st) as [e|[st1 consumed]] eqn:Hit;
    [discriminate Hloop|].
  pose proof (Hstep _ _ _ _ _ HP Hit) as HP1.
  destruct consumed.
  - destruct rest as [|value rest']; [injection Hloop as <-; exact HP1|].
    apply (IH rest' ltac:(simpl; lia) st1 st' HP1 Hloop).
  - apply (IH rest ltac:(simpl; lia) st1 st' HP1 Hloop).
Qed.

Lemma checkTolerance_range (tol : jsnum) (t : Z) :
  Cli.checkTolerance tol = inr t -> 0 <= t <= 255.
Proof.
  unfold Cli.checkTolerance. destruct tol as [n|]; [|discriminate].
  destruct (Z.ltb_spec n 0); [discriminate|].
  destruct (Z.ltb_spec 255 n); [discriminate|].
  simpl. intros [= <-]. lia.
Qed.

Lemma iteration_tolerance (arg : string) (next : option string) (st st' : Scan)
    (consumed : bool) :
  toleranceOk (result st) ->
  iteration basename arg next st = inr (st', consumed) ->
  toleranceOk (result st').
Proof.
  unfold iteration, toleranceOk. intros HP H.
  repeat match type of H with
    | (if ?c then _ else _) = _ => destruct c
    | match Cli.checkTolerance ?x with _ => _ end = _ =>
        destruct (Cli.checkTolerance x) as [e|t] eqn:Hc;
        [discriminate H|apply checkTolerance_range in Hc]
    end;
    try discriminate H; injection H as <- <-; simpl; assumption.
Qed.

Lemma iteration_referenceImages (arg : string) (next : option string) (st st' : Scan)
    (consumed : bool) :
  referenceImages (result st) = None ->
  iteration basename arg next st = inr (st', consumed) ->
  referenceImages (result st') = None.
Proof.
  unfold iteration. intros HP H.
  repeat match type of H with
    | (if ?c then _ else _) = _ => destruct c
    | match Cli.checkTolerance ?x with _ => _ end = _ =>
        destruct (Cli.checkTolerance x) as [e|t]
    end;
    try discriminate H; injection H as <- <-; simpl; assumption.
Qed.

Lemma parseArgs_tolerance (args : list string) (p : ParsedArgs) :
  parseArgs basename args = inr p -> toleranceOk p.
Proof.
  unfold parseArgs.
  destruct (loop basename args _) as [e|st] eqn:Hloop; [discriminate|].
  pose proof (loop_invariant (fun st => toleranceOk (result st)) iteration_tolerance
                args (mkScan empty [] [] []) st I Hloop) as HP.
  intros H.
  repeat match type of H with
    | context [if ?c then _ else _] => destruct c
    end;
    try discriminate H; injection H as <-; exact HP.
Qed.

(** X17. Whatever the command line, [parseArgs] returns a tolerance only
    within 0..255: when [edit-transparent] reaches the local chroma key,
    the tolerance is an integer from 0 to 255 (30 without [--tolerance]),
    the paths are not empty, and every alpha byte of the result is the
    rounded alpha itself: the wrap-around of an alpha above 255 cannot be
    reached from the command line. *)
Theorem edit_transparent_tolerance_in_range (args : list string) (confirmed : bool)
    (call : Removal) :
  handleEditTransparent basename args confirmed = inr (Called call) ->
  0 <= default 30 (remTolerance call) <= 255
  /\ remInputPath call <> "" /\ remOutputDir call <> ""
  /\ forall input out i,
       raw_rgba input -> extractLocal call input = inr out ->
       0 <= i < width input * height input ->
       exists bgColor n,
         ChromaKey.chooseBackground input (Some (Cli.orAuto (remBgColor call)))
         = inr bgColor
         /\ ChromaKey.pixelAlpha (rgbAt (data input) i) bgColor
              (default 30 (remTolerance call)) = Some n
         /\ 0 <= n <= 255
         /\ readAt (data out) (i * 4 + 3) = Some n.
Proof.
  unfold handleEditTransparent.
  destruct (parseArgs basename args) as [e|p] eqn:Hp; [discriminate|].
  apply parseArgs_tolerance in Hp.
  unfold requireOutputDir, requireInputImage.
  destruct (truthy (outputDir p)) eqn:Ho; [|discriminate].
  destruct (truthy (inputImage p)) eqn:Hi; [|discriminate].
  destruct (_ && _); [discriminate|]. intros [= <-]. simpl.
  assert (0 <= default 30 (tolerance p) <= 255) as HT.
  { unfold toleranceOk in Hp. destruct (tolerance p); simpl; lia. }
  assert (forall s, truthy s = true -> default "" s <> "") as Htruthy.
  { intros [s|]; simpl; [|discriminate].
    destruct (String.eqb_spec s ""); [discriminate|auto]. }
  split; [exact HT|]. split; [auto|]. split; [auto|].
  intros input out i Hraw Hout Hin. unfold extractLocal in Hout. simpl in Hout.
  destruct (ChromaProps.chroma_alpha_read _ _ _ _ i Hraw Hout Hin)
    as (bg & Hbg & Hread).
  destruct (ChromaFacts.pixelAlpha_byte (rgbAt (data input) i) bg _ HT)
    as (n & Hn & Hr).
  exists bg, n. split; [exact Hbg|]. split; [exact Hn|]. split; [exact Hr|].
  simpl default in Hread. rewrite Hread, Hn, Buffer.ToUint8_byte by exact Hr.
  reflexivity.
Qed.

(** X18. [parseArgs] never returns more than 14 reference images, nor an
    empty list of them: the field is absent, or holds between 1 and 14
    paths. *)
Theorem parseArgs_reference_images_bounded (args : list string) :
  match parseArgs basename args with
  | inr p =>
      match referenceImages p with
      | Some images => (1 <= length images <= 14)%nat
      | None => True
      end
  | inl _ => True
  end.
Proof.
  unfold parseArgs.
  destruct (loop basename args _) as [e|st] eqn:Hloop; [exact I|].
  pose proof (loop_invariant (fun st => referenceImages (result st) = None)
                iteration_referenceImages args (mkScan empty [] [] []) st eq_refl
                Hloop) as HP.
  destruct (0 <? length (unknownFlags st))%nat; [exact I|].
  unfold MAX_REFERENCE_IMAGES.
  destruct (Nat.ltb_spec 0 (length (refImages st)));
    [destruct (Nat.ltb_spec 14 (length (refImages st))); [exact I|simpl; lia]|].
  destruct (0 <? length (promptParts st))%nat; simpl; rewrite HP; exact I.
Qed.

(** An argument that does not start with ['-'] is a part of the prompt. *)
Lemma iteration_plain (arg : string) (next : option string) (st : Scan) :
  String.prefix "-" arg = false ->
  iteration basename arg next st
  = inr (mkScan (result st) (promptParts st ++ [arg]) (refImages st)
           (unknownFlags st), false).
Proof.
  intros Hplain. unfold iteration.
  repeat match goal with
    | |- context [String.eqb arg ?flag] =>
        destruct (String.eqb_spec arg flag) as [->|_]; [discriminate Hplain|]
    end.
  simpl andb. cbv iota. rewrite Hplain. reflexivity.
Qed.

Lemma loop_plain (args : list string) (st : Scan) :
  Forall (fun arg => String.prefix "-" arg = false) args ->
  loop basename args st
  = inr (mkScan (result st) (promptParts st ++ args) (refImages st) (unknownFlags st)).
Proof.
  intros H. revert st. induction H as [|arg args Hplain _ IH]; intros st; simpl.
  - rewrite app_nil_r. destruct st; reflexivity.
  - rewrite (iteration_plain _ _ _ Hplain), IH. simpl.
    rewrite <- app_assoc. reflexivity.
Qed.

(** X19. Arguments of which none starts with ['-'] are the prompt and
    nothing else: [parseArgs] succeeds and returns them joined by single
    spaces, in order, every other field left unset. *)
Theorem parseArgs_plain_words (arg : string) (args : list string) :
  Forall (fun arg => String.prefix "-" arg = false) (arg :: args) ->
  parseArgs basename (arg :: args)
  = inr (mkParsedArgs None None (Some (String.concat " " (arg :: args)))
           None None None None None None None None None None).
Proof.
  intros H. unfold parseArgs. rewrite (loop_plain _ _ H). reflexivity.
Qed.

(** The unknown flags collected are never dropped. *)
Lemma iteration_unknownFlags (arg : string) (next : option string) (st st' : Scan)
    (consumed : bool) :
  (0 < length (unknownFlags st))%nat ->
  iteration basename arg next st = inr (st', consumed) ->
  (0 < length (unknownFlags st'))%nat.
Proof.
  unfold iteration. intros HP H.
  repeat match type of H with
    | (if ?c then _ else _) = _ => destruct c
    | match Cli.checkTolerance ?x with _ => _ end = _ =>
        destruct (Cli.checkTolerance x) as [e|t]
    end;
    try discriminate H; injection H as <- <-; simpl; try assumption.
  rewrite length_app. simpl. lia.
Qed.

Lemma iteration_unknown (arg : string) (next : option string) (st : Scan) :
  String.prefix "-" arg = true -> includes VALID_FLAGS arg = false ->
  iteration basename arg next st
  = inr (mkScan (result st) (promptParts st) (refImages st) (unknownFlags st ++ [arg]),
         false).
Proof.
  intros Hdash Hknown. unfold iteration.
  repeat match goal with
    | |- context [String.eqb arg ?flag] =>
        destruct (String.eqb_spec arg flag) as [->|_]; [discriminate Hknown|]
    end.
  simpl andb. cbv iota. rewrite Hdash. reflexivity.
Qed.

(** X20. A flag [parseArgs] does not know is never ignored: when an
    argument that starts with ['-'] and is none of the twelve flags of
    [VALID_FLAGS] comes after plain words only, the call fails, whatever
    follows it. *)
Theorem parseArgs_rejects_unknown_flag (words : list string) (flag : string)
    (rest : list string) :
  Forall (fun arg => String.prefix "-" arg = false) words ->
  String.prefix "-" flag = true -> includes VALID_FLAGS flag = false ->
  exists e, parseArgs basename (words ++ flag :: rest) = inl e.
Proof.
  intros Hwords Hdash Hknown. unfold parseArgs.
  assert (forall st,
            loop basename (words ++ flag :: rest) st
            = loop basename rest
                (mkScan (result st) (promptParts st ++ words) (refImages st)
                   (unknownFlags st ++ [flag]))) as Hloop.
  { induction Hwords as [|arg words Hplain _ IH]; intros st; simpl.
    - rewrite (iteration_unknown _ _ _ Hdash Hknown), app_nil_r. reflexivity.
    - rewrite (iteration_plain _ _ _ Hplain), IH. simpl.
      rewrite <- app_assoc. reflexivity. }
  rewrite Hloop. simpl.
  set (st0 := mkScan empty words [] [flag]).
  destruct (loop basename rest st0) as [e|st] eqn:Hrest; [eauto|].
  pose proof (loop_invariant (fun st => (0 < length (unknownFlags st))%nat)
                iteration_unknownFlags rest st0 st ltac:(simpl; lia) Hrest) as HP.
  cbv beta in HP.
  destruct (Nat.ltb_spec 0 (length (unknownFlags st))); [eauto|lia].
Qed.

(** X21. The cost estimates are made for the models that are then
    called: whenever [handleTransparent] makes the call, the two models
    whose prices it adds up are those [getModelsForMethod] gives for the
    method of the call, which is never ['local']; and the model whose
    price [handleEditTransparent] doubles is the one the two edits of a
    background removal are made with. *)
Theorem cost_estimates_for_the_models_called (args : list string)
    (type : ImageType) (confirmed : bool) (call : Generation) :
  handleTransparent basename args type confirmed = inr (Called call) ->
  genMethod call <> Local
  /\ transparentCostModels (genMethod call)
     = (generate (generationModels call), edit (generationModels call))
  /\ forall method,
       editTransparentCostModel method = edit (getModelsForMethod method).
Proof.
  unfold handleTransparent.
  destruct (parseArgs basename args) as [e|p]; [discriminate|].
  destruct (requireOutputDir p) as [e|dir]; [discriminate|].
  destruct (requirePrompt p) as [e|text]; [discriminate|].
  destruct (decide (methodOf p = Local)) as [|Hne]; [discriminate|].
  destruct (_ && _); [discriminate|]. intros [= <-]. simpl.
  split; [exact Hne|]. split.
  - unfold generationModels. simpl. destruct (methodOf p); try reflexivity.
    congruence.
  - intros []; reflexivity.
Qed.

End Parser.

Lemma edit_transparent_tolerance_in_range_witness :
  let call := mkRemoval "in.png" "out" Local None (Some "#00ff00") (Some 40) None in
  handleEditTransparent Platform.plainBasename
    ["-o"; "out"; "-i"; "in.png"; "--method"; "local"; "--bg-color"; "#00ff00";
     "--tolerance"; "40"] false = inr (Called call)
  /\ 0 <= default 30 (remTolerance call) <= 255
  /\ remInputPath call <> "" /\ remOutputDir call <> ""
  /\ forall input out i,
       raw_rgba input -> extractLocal call input = inr out ->
       0 <= i < width input * height input ->
       exists bgColor n,
         ChromaKey.chooseBackground input (Some (Cli.orAuto (remBgColor call)))
         = inr bgColor
         /\ ChromaKey.pixelAlpha (rgbAt (data input) i) bgColor
              (default 30 (remTolerance call)) = Some n
         /\ 0 <= n <= 255
         /\ readAt (data out) (i * 4 + 3) = Some n.
Proof.
  intros call.
  assert (handleEditTransparent Platform.plainBasename
            ["-o"; "out"; "-i"; "in.png"; "--method"; "local"; "--bg-color"; "#00ff00";
             "--tolerance"; "40"] false = inr (Called call)) as H
    by (vm_compute; reflexivity).
  split; [exact H|].
  exact (edit_transparent_tolerance_in_range Platform.plainBasename _ false call H).
Defined.

Lemma parseArgs_plain_words_witness :
  Forall (fun arg => String.prefix "-" arg = false) ["a"; "red"; "fox"]
  /\ parseArgs Platform.plainBasename ["a"; "red"; "fox"]
     = inr (mkParsedArgs None None (Some "a red fox")
              None None None None None None None None None None).
Proof.
  assert (Forall (fun arg => String.prefix "-" arg = false) ["a"; "red"; "fox"]) as H
    by (repeat constructor).
  split; [exact H|].
  exact (parseArgs_plain_words Platform.plainBasename "a" ["red"; "fox"] H).
Defined.

Lemma parseArgs_rejects_unknown_flag_witness :
  (Forall (fun arg => String.prefix "-" arg = false) ["a"; "fox"]
   /\ String.prefix "-" "--tolerence" = true /\ includes VALID_FLAGS "--tolerence" = false)
  /\ exists e,
       parseArgs Platform.plainBasename (["a"; "fox"] ++ "--tolerence" :: ["40"])
       = inl e.
Proof.
  assert (Forall (fun arg => String.prefix "-" arg = false) ["a"; "fox"]) as H
    by (repeat constructor).
  split; [split; [exact H|split; reflexivity]|].
  exact (parseArgs_rejects_unknown_flag Platform.plainBasename ["a"; "fox"]
           "--tolerence" ["40"] H eq_refl eq_refl).
Defined.

Lemma cost_estimates_for_the_models_called_witness :
  let call := mkGeneration "a fox" "out" ProFlash Icon None None None in
  handleTransparent Platform.plainBasename
    ["-o"; "out"; "a"; "fox"; "--method"; "pro-flash"; "--cost"] Icon true
  = inr (Called call)
  /\ genMethod call <> Local
  /\ transparentCostModels (genMethod call)
     = (generate (generationModels call), edit (generationModels call))
  /\ forall method,
       editTransparentCostModel method = edit (getModelsForMethod method).
Proof.
  intros call.
  assert (handleTransparent Platform.plainBasename
            ["-o"; "out"; "a"; "fox"; "--method"; "pro-flash"; "--cost"] Icon true
          = inr (Called call)) as H by (vm_compute; reflexivity).
  split; [exact H|].
  exact (cost_estimates_for_the_models_called Platform.plainBasename _ Icon true call
           H).
Defined.

End CliProps.

(** ** The two revisions of [extractAlphaTwoPass] *)

Module RevisionProps.

Import Exhaustive ExhaustiveFacts Buffer MattingFacts.

Lemma clampOk_all :
  forallZ 0 (Z.to_nat (maxSumSq + 1)) Revision.clampOk = true.
Proof. vm_compute. reflexivity. Qed.

(** On a pixel of bytes the two revisions compute the same four
    numbers. *)
Lemma pixelOut_agree (rW gW bW rB gB bB : Z) :
  is_byte rW -> is_byte gW -> is_byte bW ->
  is_byte rB -> is_byte gB -> is_byte bB ->
  Revision.pixelOut (Some rW, Some gW, Some bW) (Some rB, Some gB, Some bB)
  = Matting.pixelOut (Some rW, Some gW, Some bW) (Some rB, Some gB, Some bB).
Proof.
  intros. unfold Revision.pixelOut, Matting.pixelOut.
  assert (Revision.distOf (Some rW, Some gW, Some bW) (Some rB, Some gB, Some bB)
          = Matting.distOf (Some rW, Some gW, Some bW) (Some rB, Some gB, Some bB))
    as -> by reflexivity.
  rewrite distOf_bytes.
  pose proof (sumSquares_bytes rW gW bW rB gB bB) as HS.
  do 6 (specialize (HS ltac:(assumption))).
  pose proof (forallZ_spec _ _ _ clampOk_all
                ((rW - rB) * (rW - rB) + (gW - gB) * (gW - gB) + (bW - bB) * (bW - bB))
                ltac:(unfold maxSumSq in *; lia)) as Hc.
  apply FloatAxioms.Leibniz.eqb_spec in Hc. rewrite Hc. reflexivity.
Qed.

Lemma foldl_ext_in (f g : list Z -> Z -> list Z) (pixels : list Z) (out : list Z) :
  (forall buf i, i ∈ pixels -> f buf i = g buf i) ->
  foldl f out pixels = foldl g out pixels.
Proof.
  revert out. induction pixels as [|i pixels IH]; intros out H; [reflexivity|].
  simpl. rewrite (H out i) by (left). apply IH.
  intros buf j Hj. apply H. right. exact Hj.
Qed.

(** X25. The two revisions of [extractAlphaTwoPass] in the sources, the
    one of [src/alpha.ts] (differences squared by multiplication, clamp by
    two comparisons) and the one of [src/utils.ts] ([Math.pow], clamp by
    [Math.max] and [Math.min]) return the same result on every pair of
    decoded images: the same error or, byte for byte, the same image. *)
Theorem revisions_agree (white black : Decoded) :
  raw_rgba white -> raw_rgba black ->
  Revision.extractAlphaTwoPass white black = Matting.extractAlphaTwoPass white black.
Proof.
  intros Hwhite Hblack.
  pose proof Hwhite as [Hw Hh Hlen _]. pose proof Hblack as [Hw' Hh' Hlen' _].
  unfold Revision.extractAlphaTwoPass, Matting.extractAlphaTwoPass.
  destruct (Nat.eqb_spec (length (data white)) (length (data black))) as [El|_];
    [|reflexivity].
  simpl negb. cbv iota.
  rewrite (foldl_ext_in (Revision.step (data white) (data black))
             (Matting.step (data white) (data black))); [reflexivity|].
  intros buf i Hi. apply elem_of_seqZ in Hi.
  destruct (rgbAt_raw white i Hwhite ltac:(lia)) as (rW & gW & bW & HW & ? & ? & ?).
  destruct (rgbAt_raw black i Hblack ltac:(lia)) as (rB & gB & bB & HB & ? & ? & ?).
  unfold Revision.step, Matting.step.
  rewrite HW, HB, pixelOut_agree by assumption. reflexivity.
Qed.

Lemma revisions_agree_witness :
  (raw_rgba Samples.onWhite /\ raw_rgba Samples.onBlack)
  /\ Revision.extractAlphaTwoPass Samples.onWhite Samples.onBlack
     = Matting.extractAlphaTwoPass Samples.onWhite Samples.onBlack.
Proof.
  split; [split; [exact MattingClaims.raw_onWhite|exact MattingClaims.raw_onBlack]|].
  exact (revisions_agree Samples.onWhite Samples.onBlack MattingClaims.raw_onWhite
           MattingClaims.raw_onBlack).
Defined.

End RevisionProps.

(** ** The tolerance check: the claim *)

Module ToleranceClaims.

Import JSString Args ArgsNotions.

(** The only error of [parseColor]. *)
Lemma parseColor_error (color : string) (e : Error) :
  ChromaKey.parseColor color = inl e -> e = InvalidColor.
Proof.
  unfold ChromaKey.parseColor. intros H.
  repeat case_match; congruence.
Qed.

(** C3, as the specification states it, fails: called with a tolerance of
    300 and a well-formed colour on a decoded image, [removeBackgroundLocal]
    does not fail; it returns an image. *)
Lemma tolerance_300_processed :
  255 < 300
  /\ ChromaKey.removeBackgroundLocal Samples.green (Some "#00ff00") (Some 300)
     = inr (mkDecoded [0; 255; 0; 0;  10; 250; 5; 0;  0; 255; 0; 0;
                       30; 220; 30; 0;  255; 0; 0; 52;  0; 255; 0; 0] 3 2)
  /\ ChromaKey.removeBackgroundLocal Samples.green (Some "#00ff00") (Some 300)
     <> inl InvalidTolerance.
Proof.
  split; [lia|]. split; [vm_compute; reflexivity|].
  vm_compute. discriminate.
Qed.

Section CommandLine.

Variable basename : string -> string.

Lemma checkTolerance_outside (t : Z) :
  t < 0 \/ 255 < t -> Cli.checkTolerance (Some t) = inl InvalidTolerance.
Proof.
  intros Ht. unfold Cli.checkTolerance.
  destruct (Z.ltb_spec t 0); [reflexivity|].
  destruct (Z.ltb_spec 255 t); [reflexivity|lia].
Qed.

(** The iteration that reads [--tolerance] before an argument that is not
    empty and that the check refuses. *)
Lemma iteration_bad_tolerance (value : string) (st : Scan) :
  value <> "" ->
  Cli.checkTolerance (parseInt value) = inl InvalidTolerance ->
  iteration basename "--tolerance" (Some value) st = inl InvalidToleranceArg.
Proof.
  intros Hvalue Hcheck. unfold iteration.
  change (String.eqb "--tolerance" "-o") with false.
  change (String.eqb "--tolerance" "-i") with false.
  change (String.eqb "--tolerance" "-r") with false.
  change (String.eqb "--tolerance" "--method") with false.
  change (String.eqb "--tolerance" "--bg-color") with false.
  change (String.eqb "--tolerance" "--tolerance") with true.
  unfold truthy. destruct (String.eqb_spec value "") as [E|_]; [contradiction|].
  simpl andb. cbv iota. simpl default. rewrite Hcheck. reflexivity.
Qed.

Lemma loop_bad_tolerance (value : string) (rest : list string) (st : Scan) :
  value <> "" ->
  Cli.checkTolerance (parseInt value) = inl InvalidTolerance ->
  loop basename ("--tolerance" :: value :: rest) st = inl InvalidToleranceArg.
Proof.
  intros Hvalue Hcheck. simpl loop.
  rewrite (iteration_bad_tolerance value st Hvalue Hcheck). reflexivity.
Qed.

(** [--tolerance] is read as a flag only where the loop comes to it: taken
    as the value of the option before it, it sets no tolerance, and the
    argument after it is a word of the prompt. *)
Lemma tolerance_taken_as_value :
  parseArgs basename ["--bg-color"; "--tolerance"; "300"]
  = inr (mkParsedArgs None None (Some "300") None None None None None
           (Some "--tolerance") None None None None).
Proof. reflexivity. Qed.

(** C3, amended. The tolerance is checked by the command line, not by
    the engine.  Let the loop of [parseArgs] get through the arguments
    [before] and come to [--tolerance]; when the argument after it is read
    by [parseInt] as an integer [t] outside 0..255, [parseArgs] fails with
    the message of an invalid tolerance, whatever follows, and so does
    [handleEditTransparent], which then makes no call; the same holds of
    an argument that is not empty and that [parseInt] reads as no number.
    No command line at all makes [parseArgs] return the tolerance [t], and
    every call [handleEditTransparent] makes hands the local chroma key a
    tolerance from 0 to 255.  [removeBackgroundLocal] itself never fails
    with [InvalidTolerance], whatever tolerance it is given. *)
Theorem tolerance_rejected_by_command_line (t : Z) (value : string)
    (before rest : list string) (st : Scan) (input : Decoded)
    (bgColor : option string) :
  t < 0 \/ 255 < t ->
  parseInt value = Some t ->
  (forall after,
     loop basename (before ++ after) (mkScan empty [] [] []) = loop basename after st) ->
  parseArgs basename (before ++ "--tolerance" :: value :: rest)
  = inl InvalidToleranceArg
  /\ (forall confirmed,
        handleEditTransparent basename (before ++ "--tolerance" :: value :: rest)
          confirmed
        = inl (BadArgs InvalidToleranceArg))
  /\ (forall word confirmed,
        word <> "" -> parseInt word = None ->
        parseArgs basename (before ++ "--tolerance" :: word :: rest)
        = inl InvalidToleranceArg
        /\ handleEditTransparent basename (before ++ "--tolerance" :: word :: rest)
             confirmed
           = inl (BadArgs InvalidToleranceArg))
  /\ (forall args parsed,
        parseArgs basename args = inr parsed -> tolerance parsed <> Some t)
  /\ (forall args confirmed call,
        handleEditTransparent basename args confirmed = inr (Called call) ->
        exists T,
          0 <= T <= 255 /\ T <> t
          /\ extractLocal call input
             = ChromaKey.removeBackgroundLocal input
                 (Some (Cli.orAuto (remBgColor call))) (Some T))
  /\ ChromaKey.removeBackgroundLocal input bgColor (Some t) <> inl InvalidTolerance.
Proof.
  intros Ht Hvalue Hbefore.
  assert (value <> "") as Hne by (intros ->; discriminate Hvalue).
  assert (forall word, word <> "" ->
            Cli.checkTolerance (parseInt word) = inl InvalidTolerance ->
            parseArgs basename (before ++ "--tolerance" :: word :: rest)
            = inl InvalidToleranceArg) as Hparse.
  { intros word Hword Hcheck. unfold parseArgs.
    rewrite Hbefore, (loop_bad_tolerance word rest st Hword Hcheck). reflexivity. }
  assert (forall args parsed,
            parseArgs basename args = inr parsed -> 0 <= default 30 (tolerance parsed) <= 255
            /\ tolerance parsed <> Some t) as Hsound.
  { intros args parsed Hp. apply CliProps.parseArgs_tolerance in Hp.
    unfold toleranceOk in Hp. destruct (tolerance parsed) as [t'|]; simpl.
    - split; [exact Hp|]. intros [= ->]. lia.
    - split; [lia|discriminate]. }
  assert (Cli.checkTolerance (parseInt value) = inl InvalidTolerance) as Hcheck
    by (rewrite Hvalue; apply checkTolerance_outside, Ht).
  split; [exact (Hparse value Hne Hcheck)|].
  split.
  { intros confirmed. unfold handleEditTransparent.
    rewrite (Hparse value Hne Hcheck). reflexivity. }
  split.
  { intros word confirmed Hword Hnan.
    assert (Cli.checkTolerance (parseInt word) = inl InvalidTolerance) as Hc
      by (rewrite Hnan; reflexivity).
    split; [exact (Hparse word Hword Hc)|].
    unfold handleEditTransparent. rewrite (Hparse word Hword Hc). reflexivity. }
  split; [intros args parsed Hp; exact (proj2 (Hsound args parsed Hp))|].
  split.
  { intros args confirmed call. unfold handleEditTransparent.
    destruct (parseArgs basename args) as [e|p] eqn:Hp; [discriminate|].
    destruct (Hsound args p Hp) as [HT _].
    destruct (requireOutputDir p) as [e|dir]; [discriminate|].
    destruct (requireInputImage p) as [e|image]; [discriminate|].
    destruct (_ && _); [discriminate|]. intros [= <-].
    exists (default 30 (tolerance p)).
    split; [exact HT|]. split; [lia|]. reflexivity. }
  unfold ChromaKey.removeBackgroundLocal, ChromaKey.chooseBackground.
  destruct (ChromaKey.isAuto bgColor); [discriminate|].
  destruct (ChromaKey.parseColor _) as [e|bg] eqn:Hp; [|discriminate].
  apply parseColor_error in Hp. subst e. discriminate.
Qed.

End CommandLine.

Lemma tolerance_rejected_by_command_line_witness :
  let before :=
    ["-o"; "out"; "-i"; "in.png"; "--method"; "local"; "--bg-color"; "#00ff00"] in
  let st :=
    mkScan (mkParsedArgs (Some "out") (Some "in.png") None (Some Methods.Local) None
              None None None (Some "#00ff00") None None None None) [] [] [] in
  ((300 < 0 \/ 255 < 300)
   /\ parseInt "300" = Some 300
   /\ (forall after,
         loop Platform.plainBasename (before ++ after) (mkScan empty [] [] [])
         = loop Platform.plainBasename after st))
  /\ parseArgs Platform.plainBasename (before ++ "--tolerance" :: "300" :: [])
     = inl InvalidToleranceArg
  /\ (forall confirmed,
        handleEditTransparent Platform.plainBasename
          (before ++ "--tolerance" :: "300" :: []) confirmed
        = inl (BadArgs InvalidToleranceArg))
  /\ (forall word confirmed,
        word <> "" -> parseInt word = None ->
        parseArgs Platform.plainBasename (before ++ "--tolerance" :: word :: [])
        = inl InvalidToleranceArg
        /\ handleEditTransparent Platform.plainBasename
             (before ++ "--tolerance" :: word :: []) confirmed
           = inl (BadArgs InvalidToleranceArg))
  /\ (forall args parsed,
        parseArgs Platform.plainBasename args = inr parsed ->
        tolerance parsed <> Some 300)
  /\ (forall args confirmed call,
        handleEditTransparent Platform.plainBasename args confirmed
        = inr (Called call) ->
        exists T,
          0 <= T <= 255 /\ T <> 300
          /\ extractLocal call Samples.green
             = ChromaKey.removeBackgroundLocal Samples.green
                 (Some (Cli.orAuto (remBgColor call))) (Some T))
  /\ ChromaKey.removeBackgroundLocal Samples.green (Some "#00ff00") (Some 300)
     <> inl InvalidTolerance.
Proof.
  intros before st.
  assert (300 < 0 \/ 255 < 300) as Ht by (right; lia).
  assert (parseInt "300" = Some 300) as Hvalue by reflexivity.
  assert (forall after,
            loop Platform.plainBasename (before ++ after) (mkScan empty [] [] [])
            = loop Platform.plainBasename after st) as Hbefore
    by (intros after; reflexivity).
  split; [split; [exact Ht|split; [exact Hvalue|exact Hbefore]]|].
  exact (tolerance_rejected_by_command_line Platform.plainBasename 300 "300" before []
           st Samples.green (Some "#00ff00") Ht Hvalue Hbefore).
Defined.

End ToleranceClaims.
